(** * TaskVault: the login guard (password check, lockout, OTP) and task analytics

    A shallow embedding of [server/auth.ts] (class [AuthService]),
    [server/storage.ts] (class [DatabaseStorage]) and the tables of
    [shared/schema.ts].

    Modelling conventions.
    - A table is the list of its rows in insertion order; a [select] without
      [orderBy] returns the matching rows in that order, and
      [const [row] = await db.select()...] is the first of them.
    - A nullable column is an [option]; JavaScript truthiness of a nullable
      value and SQL comparison with [NULL] are written out where the code
      relies on them.
    - A [Date] is its [getTime()], a number of milliseconds, in [Z]; integer
      columns are unbounded.
    - Every clock read ([new Date()], [Date.now()]) of one call sees the same
      instant [now], which the caller of the model supplies; so does the
      random integer drawn by [crypto.randomInt] and the outcome of the mail
      transport.
    - An [async] method is a computation in a state-and-exception monad over
      the database; a thrown exception keeps the writes made before it (the
      code opens no transaction). *)

From Stdlib Require Import ZArith List String Bool Lia DecimalString.
From Stdlib Require Import Permutation Sorted Ascii.
From Stdlib Require DecimalPos DecimalFacts.
Import ListNotations.
Set Default Proof Using "Type".
Local Open Scope string_scope.
Local Open Scope Z_scope.

(** ** shared/schema.ts: the rows *)

Module User.
Record t := mk {
  id : Z;
  email : string;
  password : string;
  firstName : option string;
  lastName : option string;
  profileImageUrl : option string;
  isLocked : option bool;
  failedAttempts : option Z;
  lastFailedAttempt : option Z;
  lastLogin : option Z;
  createdAt : option Z;
  updatedAt : option Z
}.
End User.

Module OTP.
Record t := mk {
  id : Z;
  email : string;
  code : string;
  expiresAt : Z;
  isUsed : option bool;
  attempts : option Z;
  createdAt : option Z
}.
End OTP.

Module Task.
Record t := mk {
  id : Z;
  userId : Z;
  description : string;
  isCompleted : option bool;
  createdAt : option Z;
  updatedAt : option Z
}.
End Task.

Module SecurityLog.
Record t := mk {
  id : Z;
  userId : option Z;
  email : option string;
  action : string;
  details : option string;
  ipAddress : option string;
  userAgent : option string;
  success : bool;
  createdAt : option Z
}.
End SecurityLog.

(** [Omit<SecurityLog, 'id' | 'createdAt'>], the argument of
    [logSecurityEvent]. *)
Module LogEntry.
Record t := mk {
  userId : option Z;
  email : option string;
  action : string;
  details : option string;
  ipAddress : option string;
  userAgent : option string;
  success : bool
}.
End LogEntry.

(** [InsertUser]: the four picked columns. *)
Module InsertUser.
Record t := mk {
  email : string;
  password : string;
  firstName : option string;
  lastName : option string
}.
End InsertUser.

(** The database: the four tables and the three [serial] counters. *)
Record Db := mkDb {
  users : list User.t;
  otps : list OTP.t;
  tasks : list Task.t;
  securityLogs : list SecurityLog.t;
  users_seq : Z;
  otps_seq : Z;
  securityLogs_seq : Z
}.

Definition emptyDb : Db := mkDb [] [] [] [] 1 1 1.

Definition with_users (f : list User.t -> list User.t) (d : Db) : Db :=
  mkDb (f (users d)) (otps d) (tasks d) (securityLogs d)
       (users_seq d) (otps_seq d) (securityLogs_seq d).

Definition with_otps (f : list OTP.t -> list OTP.t) (d : Db) : Db :=
  mkDb (users d) (f (otps d)) (tasks d) (securityLogs d)
       (users_seq d) (otps_seq d) (securityLogs_seq d).

(** ** JavaScript values used by the code *)

(** What a method throws: [new Error(msg)], or the [TypeError] of reading a
    property of [null]. *)
Inductive exn :=
| Error (message : string)
| TypeError (message : string).

Definition exn_message (e : exn) : string :=
  match e with Error m => m | TypeError m => m end.

(** [if (b)] on a [boolean | null]. *)
Definition truthy (b : option bool) : bool :=
  match b with Some true => true | _ => false end.

(** [n || 0] on a [number | null]. *)
Definition or_zero (n : option Z) : Z :=
  match n with Some k => k | None => 0 end.

(** [n.toString()] of an integer. *)
Definition toString (n : Z) : string := NilZero.string_of_int (Z.to_int n).

(** ** The state-and-exception monad *)

Definition M (A : Type) : Type := Db -> (exn + A) * Db.

Definition ret {A} (a : A) : M A := fun d => (inr a, d).

Definition throw {A} (e : exn) : M A := fun d => (inl e, d).

Definition bind {A B} (m : M A) (k : A -> M B) : M B :=
  fun d =>
    match m d with
    | (inl e, d') => (inl e, d')
    | (inr a, d') => k a d'
    end.

Definition gets {A} (f : Db -> A) : M A := fun d => (inr (f d), d).

Definition modify (f : Db -> Db) : M unit := fun d => (inr tt, f d).

Declare Scope db_scope.
Delimit Scope db_scope with db.
Notation "x <- m ;; k" := (bind m (fun x => k))
  (at level 61, m at next level, right associativity) : db_scope.
Notation "m ;; k" := (bind m (fun _ => k))
  (at level 61, right associativity) : db_scope.
Local Open Scope db_scope.

(** The result of a call and the database it leaves. *)
Definition result {A} (m : M A) (d : Db) : exn + A := fst (m d).
Definition after {A} (m : M A) (d : Db) : Db := snd (m d).

(** The row a [select().from(users).where(eq(users.email, email))] puts
    first, if any. *)
Definition account (email : string) (d : Db) : option User.t :=
  find (fun u => String.eqb (User.email u) email) (users d).

(** ** server/storage.ts: DatabaseStorage *)

Module storage.

(** [update(users).set(..).where(eq(users.email, email))] *)
Definition update_users_by_email (email : string) (f : User.t -> User.t) : M unit :=
  modify (with_users (map (fun u =>
    if String.eqb (User.email u) email then f u else u))).

Definition getUser (id : Z) : M (option User.t) :=
  gets (fun d => find (fun u => Z.eqb (User.id u) id) (users d)).

Definition getUserByEmail (email : string) : M (option User.t) :=
  gets (account email).

Definition createUser (insertUser : InsertUser.t) (now : Z) : M User.t :=
  fun d =>
    let user := User.mk (users_seq d)
                  (InsertUser.email insertUser) (InsertUser.password insertUser)
                  (InsertUser.firstName insertUser) (InsertUser.lastName insertUser)
                  None (Some false) (Some 0) None None (Some now) (Some now) in
    (inr user,
     mkDb (users d ++ [user]) (otps d) (tasks d) (securityLogs d)
          (users_seq d + 1) (otps_seq d) (securityLogs_seq d)).

(** The three columns [verifyOTP] passes as [updates]. *)
Definition updateUser (id : Z)
    (failedAttempts lastFailedAttempt lastLogin : option Z) (now : Z) : M unit :=
  modify (with_users (map (fun u =>
    if Z.eqb (User.id u) id
    then User.mk (User.id u) (User.email u) (User.password u)
           (User.firstName u) (User.lastName u) (User.profileImageUrl u)
           (User.isLocked u) failedAttempts lastFailedAttempt lastLogin
           (User.createdAt u) (Some now)
    else u))).

Definition updateFailedAttempts (email : string) (attempts : Z) (now : Z) : M unit :=
  update_users_by_email email (fun u =>
    User.mk (User.id u) (User.email u) (User.password u)
      (User.firstName u) (User.lastName u) (User.profileImageUrl u)
      (User.isLocked u) (Some attempts) (Some now) (User.lastLogin u)
      (User.createdAt u) (Some now)).

Definition lockUser (email : string) (now : Z) : M unit :=
  update_users_by_email email (fun u =>
    User.mk (User.id u) (User.email u) (User.password u)
      (User.firstName u) (User.lastName u) (User.profileImageUrl u)
      (Some true) (User.failedAttempts u) (User.lastFailedAttempt u) (User.lastLogin u)
      (User.createdAt u) (Some now)).

Definition unlockUser (email : string) (now : Z) : M unit :=
  update_users_by_email email (fun u =>
    User.mk (User.id u) (User.email u) (User.password u)
      (User.firstName u) (User.lastName u) (User.profileImageUrl u)
      (Some false) (Some 0) None (User.lastLogin u)
      (User.createdAt u) (Some now)).

Definition createOTP (email code : string) (expiresAt : Z) (now : Z) : M OTP.t :=
  fun d =>
    let otp := OTP.mk (otps_seq d) email code expiresAt (Some false) (Some 0) (Some now) in
    (inr otp,
     mkDb (users d) (otps d ++ [otp]) (tasks d) (securityLogs d)
          (users_seq d) (otps_seq d + 1) (securityLogs_seq d)).

(** [eq(otps.isUsed, false)] does not hold of a [NULL]. *)
Definition is_false (b : option bool) : bool :=
  match b with Some false => true | _ => false end.

Definition validOTP (email code : string) (now : Z) (o : OTP.t) : bool :=
  String.eqb (OTP.email o) email
  && String.eqb (OTP.code o) code
  && is_false (OTP.isUsed o)
  && (now <? OTP.expiresAt o).

Definition getValidOTP (email code : string) (now : Z) : M (option OTP.t) :=
  gets (fun d => find (validOTP email code now) (otps d)).

Definition incrementOTPAttempts (id : Z) : M unit :=
  otp <- gets (fun d => find (fun o => Z.eqb (OTP.id o) id) (otps d)) ;;
  match otp with
  | Some otp =>
      modify (with_otps (map (fun o =>
        if Z.eqb (OTP.id o) id
        then OTP.mk (OTP.id o) (OTP.email o) (OTP.code o) (OTP.expiresAt o)
               (OTP.isUsed o) (Some (or_zero (OTP.attempts otp) + 1)) (OTP.createdAt o)
        else o)))
  | None => ret tt
  end.

Definition markOTPAsUsed (id : Z) : M unit :=
  modify (with_otps (map (fun o =>
    if Z.eqb (OTP.id o) id
    then OTP.mk (OTP.id o) (OTP.email o) (OTP.code o) (OTP.expiresAt o)
           (Some true) (OTP.attempts o) (OTP.createdAt o)
    else o))).

Definition cleanupExpiredOTPs (now : Z) : M unit :=
  modify (with_otps (filter (fun o => negb (OTP.expiresAt o <? now)))).

Record Analytics := mkAnalytics { completed : Z; pending : Z; total : Z }.

Definition getTaskAnalytics (userId : Z) : M Analytics :=
  userTasks <- gets (fun d => filter (fun t => Z.eqb (Task.userId t) userId) (tasks d)) ;;
  let completed := Z.of_nat (List.length (filter (fun task => truthy (Task.isCompleted task)) userTasks)) in
  let pending := Z.of_nat (List.length (filter (fun task => negb (truthy (Task.isCompleted task))) userTasks)) in
  let total := Z.of_nat (List.length userTasks) in
  ret (mkAnalytics completed pending total).

Definition logSecurityEvent (log : LogEntry.t) (now : Z) : M unit :=
  modify (fun d =>
    mkDb (users d) (otps d) (tasks d)
         (securityLogs d ++
            [SecurityLog.mk (securityLogs_seq d)
               (LogEntry.userId log) (LogEntry.email log) (LogEntry.action log)
               (LogEntry.details log) (LogEntry.ipAddress log) (LogEntry.userAgent log)
               (LogEntry.success log) (Some now)])
         (users_seq d) (otps_seq d) (securityLogs_seq d + 1)).

(** [orderBy(desc(column))] on a nullable timestamp. PostgreSQL sorts NULL
    as larger than every value, so a descending order puts NULL first.
    [not_older a b]: a row with timestamp [a] may come before one with [b]. *)
Definition not_older (a b : option Z) : bool :=
  match a, b with
  | None, _ => true
  | Some _, None => false
  | Some x, Some y => y <=? x
  end.

(** The order of rows with equal timestamps is left open by SQL; the model
    keeps them in table order. *)
Fixpoint insert_desc {A} (key : A -> option Z) (x : A) (l : list A) : list A :=
  match l with
  | [] => [x]
  | y :: l' =>
      if not_older (key x) (key y) then x :: l else y :: insert_desc key x l'
  end.

Definition order_desc {A} (key : A -> option Z) (l : list A) : list A :=
  fold_right (insert_desc key) [] l.

Definition with_tasks (f : list Task.t -> list Task.t) (d : Db) : Db :=
  mkDb (users d) (otps d) (f (tasks d)) (securityLogs d)
       (users_seq d) (otps_seq d) (securityLogs_seq d).

Definition getTasks (userId : Z) : M (list Task.t) :=
  gets (fun d =>
    order_desc Task.createdAt (filter (fun t => Z.eqb (Task.userId t) userId) (tasks d))).

(** [createTask]: [task] is [{description, userId}]. The [serial] id comes
    from the sequence of the [tasks] table, which the database record does
    not carry: [id] is the value the sequence gives. The foreign key on
    [user_id] is not modelled; the caller passes the id of the session's
    user. *)
Definition createTask (description : string) (userId : Z) (id now : Z) : M Task.t :=
  fun d =>
    let newTask := Task.mk id userId description (Some false) (Some now) (Some now) in
    (inr newTask, with_tasks (fun l => (l ++ [newTask])%list) d).

(** [updateTask]: [updates] holds the two optional keys the route accepts,
    [description] and [isCompleted]; an absent key leaves its column. *)
Definition updated (description : option string) (isCompleted : option bool) (now : Z)
    (t : Task.t) : Task.t :=
  Task.mk (Task.id t) (Task.userId t)
    (match description with Some s => s | None => Task.description t end)
    (match isCompleted with Some b => Some b | None => Task.isCompleted t end)
    (Task.createdAt t) (Some now).

Definition updateTask (id : Z) (description : option string) (isCompleted : option bool)
    (now : Z) : M (option Task.t) :=
  fun d =>
    let hit := fun t => Z.eqb (Task.id t) id in
    (inr (option_map (updated description isCompleted now) (find hit (tasks d))),
     with_tasks (map (fun t => if hit t then updated description isCompleted now t else t)) d).

Definition deleteTask (id userId : Z) : M bool :=
  fun d =>
    let hit := fun t => Z.eqb (Task.id t) id && Z.eqb (Task.userId t) userId in
    let rowCount := Z.of_nat (List.length (filter hit (tasks d))) in
    (inr (0 <? rowCount), with_tasks (filter (fun t => negb (hit t))) d).

(** [eq(securityLogs.userId, userId)] does not hold of a [NULL]. *)
Definition log_of (userId : Z) (l : SecurityLog.t) : bool :=
  match SecurityLog.userId l with
  | Some u => Z.eqb u userId
  | None => false
  end.

(** [getSecurityLogs(userId, limit = 50)]; [limit] is a natural number (the
    route passes 20). *)
Definition getSecurityLogs (userId : Z) (limit : nat) : M (list SecurityLog.t) :=
  gets (fun d =>
    firstn limit (order_desc SecurityLog.createdAt (filter (log_of userId) (securityLogs d)))).

End storage.

(** ** server/email.ts *)

(** [sendOTPEmail]: the transport either delivers ([delivered = true]) or
    fails, and the failure is rethrown as a fixed [Error]. *)
Definition sendOTPEmail (email otpCode : string) (delivered : bool) : M unit :=
  if delivered then ret tt else throw (Error "Failed to send verification email").

(** ** server/auth.ts: AuthService *)

Definition SALT_ROUNDS : Z := 12.
Definition OTP_EXPIRY_MINUTES : Z := 10.
Definition MAX_OTP_ATTEMPTS : Z := 3.
Definition MAX_LOGIN_ATTEMPTS : Z := 5.
Definition LOCKOUT_DURATION_MINUTES : Z := 30.

Record LoginData := mkLoginData { login_email : string; login_password : string }.

Record OTPVerification := mkOTPVerification { otp_email : string; otp_code : string }.

(** What the three operations return. *)
Record LoginAck := mkLoginAck { ack_message : string; ack_email : string }.

Record Profile := mkProfile {
  profile_id : Z;
  profile_email : string;
  profile_firstName : option string;
  profile_lastName : option string;
  profile_profileImageUrl : option string;
  profile_lastLogin : option Z
}.

Record ResendAck := mkResendAck { resend_message : string }.

Definition profile_of (user : User.t) : Profile :=
  mkProfile (User.id user) (User.email user) (User.firstName user)
            (User.lastName user) (User.profileImageUrl user) (User.lastLogin user).

(** [crypto.randomInt(100000, 999999).toString()]; [drawn] is the integer
    drawn, which lies in [100000, 999999). *)
Definition generateOTPCode (drawn : Z) : string := toString drawn.

Definition randomInt_range (drawn : Z) : Prop := 100000 <= drawn < 999999.

(** The environment of one call: the instant, the integer the random source
    gives if asked, and whether the mail transport delivers if asked. *)
Record Env := mkEnv { now : Z; drawn : Z; delivered : bool }.

(** The inputs of one [initiateLogin] call, the email apart. *)
Record Attempt := mkAttempt {
  att_password : string;
  att_ipAddress : option string;
  att_userAgent : option string;
  att_env : Env
}.

(** ** client/src/lib: authUtils and utils *)

(** [formatTimeAgo(date)]: [now] is the instant [new Date()] reads and
    [past] the instant of [new Date(date)], both valid dates.
    [Math.floor] of a quotient is [Z.div], which rounds down. *)
Definition formatTimeAgo (now past : Z) : string :=
  let diffInSeconds := (now - past) / 1000 in
  if diffInSeconds <? 60 then
    toString diffInSeconds ++ "s ago"
  else if diffInSeconds <? 3600 then
    let minutes := diffInSeconds / 60 in
    toString minutes ++ "m ago"
  else if diffInSeconds <? 86400 then
    let hours := diffInSeconds / 3600 in
    toString hours ++ "h ago"
  else
    let days := diffInSeconds / 86400 in
    toString days ++ "d ago".

(** A string is the sequence of its UTF-16 code units, here those below
    256. [\d] is an ASCII digit. *)
Definition is_digit (c : ascii) : bool :=
  (48 <=? nat_of_ascii c)%nat && (nat_of_ascii c <=? 57)%nat.

Fixpoint all_digits (s : string) : bool :=
  match s with
  | EmptyString => true
  | String c s' => is_digit c && all_digits s'
  end.

(** [/^\d{6}$/.test(code)] *)
Definition validateOTPCode (code : string) : bool :=
  (String.length code =? 6)%nat && all_digits code.

(** The white space and line terminators [trim] removes, among the code
    units below 256: TAB, LF, VT, FF, CR, SP and NBSP. *)
Definition is_space (c : ascii) : bool :=
  let n := nat_of_ascii c in
  ((9 <=? n)%nat && (n <=? 13)%nat) || (n =? 32)%nat || (n =? 160)%nat.

Fixpoint trimStart (s : string) : string :=
  match s with
  | EmptyString => EmptyString
  | String c s' => if is_space c then trimStart s' else s
  end.

Fixpoint trimEnd (s : string) : string :=
  match s with
  | EmptyString => EmptyString
  | String c s' =>
      match trimEnd s' with
      | EmptyString => if is_space c then EmptyString else String c EmptyString
      | t => String c t
      end
  end.

Definition trim (s : string) : string := trimEnd (trimStart s).

Definition is_angle (c : ascii) : bool := Ascii.eqb c "<" || Ascii.eqb c ">".

(** [s.replace(/[<>]/g, '')] *)
Fixpoint remove_angles (s : string) : string :=
  match s with
  | EmptyString => EmptyString
  | String c s' => if is_angle c then remove_angles s' else String c (remove_angles s')
  end.

Definition sanitizeInput (input : string) : string := remove_angles (trim input).

(** ** server/routes.ts: getClientIP *)

(** [s.split(',')[0]]: the text before the first comma. *)
Fixpoint before_comma (s : string) : string :=
  match s with
  | EmptyString => EmptyString
  | String c s' => if Ascii.eqb c "," then EmptyString else String c (before_comma s')
  end.

(** [a || b] on [string | undefined]: the empty string is falsy. *)
Definition or_else (a : option string) (b : string) : string :=
  match a with
  | Some (String c s) => String c s
  | _ => b
  end.

(** [forwarded] is the [x-forwarded-for] header, the other two are
    [req.connection.remoteAddress] and [req.socket.remoteAddress]. *)
Definition getClientIP (forwarded connectionAddress socketAddress : option string) : string :=
  or_else (option_map before_comma forwarded)
    (or_else connectionAddress (or_else socketAddress "unknown")).

(** The characters of [s] that are neither white space nor angle brackets,
    in order. *)
Fixpoint payload (s : string) : list ascii :=
  match s with
  | EmptyString => []
  | String c s' => if is_space c || is_angle c then payload s' else c :: payload s'
  end.

(** ** Food delivery: frontend/src/Context/StoreContext.jsx *)

(** [cartItems] is an object from item ids to quantities: the list of its
    properties in the order [for...in] visits them (item ids are not array
    indices, so this is the order of insertion). Quantities and prices are
    integers, on which the arithmetic of doubles is exact. *)
Definition Cart : Type := list (string * Z).

Record Food := mkFood { food_id : string; food_name : string; food_price : Z }.

(** [cart[itemId]] *)
Fixpoint cart_get (cart : Cart) (itemId : string) : option Z :=
  match cart with
  | [] => None
  | (k, q) :: rest => if String.eqb k itemId then Some q else cart_get rest itemId
  end.

(** [cart[itemId] = q]: a property that exists keeps its place, a new one
    goes last. *)
Fixpoint cart_set (cart : Cart) (itemId : string) (q : Z) : Cart :=
  match cart with
  | [] => [(itemId, q)]
  | (k, v) :: rest =>
      if String.eqb k itemId then (k, q) :: rest else (k, v) :: cart_set rest itemId q
  end.

(** [delete cart[itemId]] *)
Definition cart_delete (cart : Cart) (itemId : string) : Cart :=
  filter (fun e => negb (String.eqb (fst e) itemId)) cart.

(** The state update of [addToCart]; [!updatedCart[itemId]] holds of an
    absent property and of 0. *)
Definition addToCart (itemId : string) (prev : Cart) : Cart :=
  match cart_get prev itemId with
  | None => cart_set prev itemId 1
  | Some q => if q =? 0 then cart_set prev itemId 1 else cart_set prev itemId (q + 1)
  end.

(** The state update of [removeFromCart]; [undefined > 1] is false. *)
Definition removeFromCart (itemId : string) (prev : Cart) : Cart :=
  match cart_get prev itemId with
  | Some q => if 1 <? q then cart_set prev itemId (q - 1) else cart_delete prev itemId
  | None => cart_delete prev itemId
  end.

Definition getTotalCartAmount (cartItems : Cart) (food_list : list Food) : Z :=
  fold_left
    (fun totalAmount item =>
       match cart_get cartItems item with
       | Some q =>
           if 0 <? q then
             match find (fun product => String.eqb (food_id product) item) food_list with
             | Some itemInfo => totalAmount + food_price itemInfo * q
             | None => totalAmount
             end
           else totalAmount
       | None => totalAmount
       end)
    (map fst cartItems) 0.

(** Every quantity stored is at least 1. *)
Definition cart_positive (cart : Cart) : Prop :=
  Forall (fun e => 1 <= snd e) cart.

(** What one property of the cart adds to the total. *)
Definition line_amount (food_list : list Food) (e : string * Z) : Z :=
  if 0 <? snd e then
    match find (fun product => String.eqb (food_id product) (fst e)) food_list with
    | Some itemInfo => food_price itemInfo * snd e
    | None => 0
    end
  else 0.

Definition sum_lines (food_list : list Food) (cart : Cart) : Z :=
  fold_right (fun e acc => line_amount food_list e + acc) 0 cart.

(** The price [getTotalCartAmount] uses for an item: that of the first
    product with the id, nothing for an item that is not on the list. *)
Definition price_of (food_list : list Food) (itemId : string) : Z :=
  match find (fun product => String.eqb (food_id product) itemId) food_list with
  | Some itemInfo => food_price itemInfo
  | None => 0
  end.

(** ** Sample data *)

Module Sample.

(** Stand-ins for bcrypt: the hash of a password is the password behind a
    fixed prefix. *)
Definition hash (password : string) (rounds : Z) : string :=
  "$2b$12$" ++ password.

Definition compare (password hashed : string) : bool :=
  String.eqb ("$2b$12$" ++ password) hashed.

Definition alice : User.t :=
  User.mk 1 "alice@example.com" "$2b$12$correct horse"
    (Some "Alice") (Some "Liddell") None
    (Some false) (Some 0) None None (Some 0) (Some 0).

(** [alice] after five wrong passwords, the last at instant 5000. *)
Definition alice_locked : User.t :=
  User.mk 1 "alice@example.com" "$2b$12$correct horse"
    (Some "Alice") (Some "Liddell") None
    (Some true) (Some 5) (Some 5000) None (Some 0) (Some 5000).

Definition db : Db := mkDb [alice] [] [] [] 2 1 1.

Definition db_locked : Db := mkDb [alice_locked] [] [] [] 2 1 1.

Definition right_login : LoginData := mkLoginData "alice@example.com" "correct horse".
Definition wrong_login : LoginData := mkLoginData "alice@example.com" "guess".
Definition unknown_login : LoginData := mkLoginData "mallory@example.com" "guess".

Definition env_at (now : Z) : Env := mkEnv now 123456 true.

(** The challenge of code 123456 issued to [alice] at instant 1000. *)
Definition challenge : OTP.t :=
  OTP.mk 1 "alice@example.com" "123456" 601000 (Some false) (Some 0) (Some 1000).

(** [db] after [initiateLogin] with the right password at instant 1000. *)
Definition db_issued : Db :=
  mkDb [alice] [challenge] []
    [SecurityLog.mk 1 (Some 1) (Some "alice@example.com") "OTP_SENT"
       (Some "OTP sent to email") None None true (Some 1000)]
    2 2 2.

(** [alice], locked, after a successful [verifyOTP] at instant 7000: the
    lock stays, [lastFailedAttempt] is gone. *)
Definition alice_stuck : User.t :=
  User.mk 1 "alice@example.com" "$2b$12$correct horse"
    (Some "Alice") (Some "Liddell") None
    (Some true) (Some 0) None (Some 7000) (Some 0) (Some 7000).

Definition db_stuck : Db := mkDb [alice_stuck] [] [] [] 2 2 1.

Definition five_wrong : list Attempt :=
  map (fun now => mkAttempt "guess" None None (env_at now)) [1000; 2000; 3000; 4000; 5000].

(** [db_issued] after the five wrong passwords of [five_wrong]: the account
    is locked and its challenge is still live. *)
Definition alice_locked_issued : User.t :=
  User.mk 1 "alice@example.com" "$2b$12$correct horse"
    (Some "Alice") (Some "Liddell") None
    (Some true) (Some 5) (Some 5000) None (Some 0) (Some 5000).

Definition db_locked_issued : Db :=
  mkDb [alice_locked_issued] [challenge] [] [] 2 2 1.

Definition bob_task : Task.t := Task.mk 1 2 "water the plants" (Some false) (Some 100) (Some 100).
Definition alice_task : Task.t := Task.mk 2 1 "file the report" (Some false) (Some 200) (Some 200).

Definition db_tasks : Db := mkDb [alice] [] [bob_task; alice_task] [] 2 1 1.

(** A menu of two dishes and a cart with two helpings of the first. *)
Definition menu : list Food :=
  [mkFood "f1" "Greek salad" 120; mkFood "f2" "Veg roll" 80].

Definition cart : Cart := [("f1", 2)].

End Sample.

Section AuthService.

(** [bcrypt.hash(password, rounds)] and [bcrypt.compare(password, hash)]. *)
Variable bcrypt_hash : string -> Z -> string.
Variable bcrypt_compare : string -> string -> bool.

Definition registerUser (email password : string) (firstName lastName : option string)
    (env : Env) : M (Z * string * option string * option string) :=
  existingUser <- storage.getUserByEmail email ;;
  match existingUser with
  | Some _ => throw (Error "User already exists")
  | None =>
      let hashedPassword := bcrypt_hash password SALT_ROUNDS in
      user <- storage.createUser
                (InsertUser.mk email hashedPassword firstName lastName) (now env) ;;
      storage.logSecurityEvent
        (LogEntry.mk (Some (User.id user)) (Some (User.email user))
           "USER_REGISTRATION" (Some "New user registered") None None true) (now env) ;;
      ret (User.id user, User.email user, User.firstName user, User.lastName user)
  end.

(** Lines 55-73 of auth.ts: the lockout check. [user.lastFailedAttempt!] is
    only a type assertion: on [null] the call of [getTime] throws. *)
Definition checkLockout (user : User.t) (email : string)
    (ipAddress userAgent : option string) (env : Env) : M unit :=
  if truthy (User.isLocked user) then
    match User.lastFailedAttempt user with
    | None => throw (TypeError "Cannot read properties of null (reading 'getTime')")
    | Some lastFailedAttempt =>
        let lockoutExpiry := lastFailedAttempt + LOCKOUT_DURATION_MINUTES * 60 * 1000 in
        if now env <? lockoutExpiry then
          storage.logSecurityEvent
            (LogEntry.mk (Some (User.id user)) (Some email) "LOGIN_ATTEMPT"
               (Some "Account locked") ipAddress userAgent false) (now env) ;;
          throw (Error "Account is locked due to too many failed attempts")
        else
          storage.unlockUser email (now env)
    end
  else ret tt.

(** Lines 75-115 of auth.ts: the password check and what follows it.
    [user] is the row as read at the start of the call. *)
Definition checkPassword (user : User.t) (email password : string)
    (ipAddress userAgent : option string) (env : Env) : M LoginAck :=
  let isValidPassword := bcrypt_compare password (User.password user) in
  if negb isValidPassword then
    let newFailedAttempts := or_zero (User.failedAttempts user) + 1 in
    storage.updateFailedAttempts email newFailedAttempts (now env) ;;
    (if MAX_LOGIN_ATTEMPTS <=? newFailedAttempts
     then storage.lockUser email (now env) else ret tt) ;;
    storage.logSecurityEvent
      (LogEntry.mk (Some (User.id user)) (Some email) "LOGIN_ATTEMPT"
         (Some ("Invalid password - attempt " ++ toString newFailedAttempts))
         ipAddress userAgent false) (now env) ;;
    throw (Error "Invalid credentials")
  else
    let otpCode := generateOTPCode (drawn env) in
    let expiresAt := now env + OTP_EXPIRY_MINUTES * 60 * 1000 in
    _ <- storage.createOTP email otpCode expiresAt (now env) ;;
    sendOTPEmail email otpCode (delivered env) ;;
    storage.logSecurityEvent
      (LogEntry.mk (Some (User.id user)) (Some email) "OTP_SENT"
         (Some "OTP sent to email") ipAddress userAgent true) (now env) ;;
    ret (mkLoginAck "OTP sent to your email" email).

Definition initiateLogin (loginData : LoginData)
    (ipAddress userAgent : option string) (env : Env) : M LoginAck :=
  let email := login_email loginData in
  let password := login_password loginData in
  user <- storage.getUserByEmail email ;;
  match user with
  | None =>
      storage.logSecurityEvent
        (LogEntry.mk None (Some email) "LOGIN_ATTEMPT"
           (Some "User not found") ipAddress userAgent false) (now env) ;;
      throw (Error "Invalid credentials")
  | Some user =>
      checkLockout user email ipAddress userAgent env ;;
      checkPassword user email password ipAddress userAgent env
  end.

Definition verifyOTP (otpData : OTPVerification)
    (ipAddress userAgent : option string) (env : Env) : M Profile :=
  let email := otp_email otpData in
  let code := otp_code otpData in
  storage.cleanupExpiredOTPs (now env) ;;
  user <- storage.getUserByEmail email ;;
  match user with
  | None => throw (Error "User not found")
  | Some user =>
      otp <- storage.getValidOTP email code (now env) ;;
      match otp with
      | None =>
          storage.logSecurityEvent
            (LogEntry.mk (Some (User.id user)) (Some email) "OTP_VERIFICATION"
               (Some "Invalid or expired OTP") ipAddress userAgent false) (now env) ;;
          throw (Error "Invalid or expired OTP")
      | Some otp =>
          (* [null >= 3] is false *)
          if match OTP.attempts otp with
             | Some attempts => MAX_OTP_ATTEMPTS <=? attempts
             | None => false
             end
          then
            storage.logSecurityEvent
              (LogEntry.mk (Some (User.id user)) (Some email) "OTP_VERIFICATION"
                 (Some "Maximum OTP attempts exceeded") ipAddress userAgent false) (now env) ;;
            throw (Error "Maximum OTP attempts exceeded")
          else
            storage.markOTPAsUsed (OTP.id otp) ;;
            storage.updateUser (User.id user) (Some 0) None (Some (now env)) (now env) ;;
            storage.logSecurityEvent
              (LogEntry.mk (Some (User.id user)) (Some email) "LOGIN_SUCCESS"
                 (Some "Successful OTP verification") ipAddress userAgent true) (now env) ;;
            ret (profile_of user)
      end
  end.

Definition resendOTP (email : string)
    (ipAddress userAgent : option string) (env : Env) : M ResendAck :=
  user <- storage.getUserByEmail email ;;
  match user with
  | None => throw (Error "User not found")
  | Some user =>
      let otpCode := generateOTPCode (drawn env) in
      let expiresAt := now env + OTP_EXPIRY_MINUTES * 60 * 1000 in
      _ <- storage.createOTP email otpCode expiresAt (now env) ;;
      sendOTPEmail email otpCode (delivered env) ;;
      storage.logSecurityEvent
        (LogEntry.mk (Some (User.id user)) (Some email) "OTP_RESENT"
           (Some "OTP resent to email") ipAddress userAgent true) (now env) ;;
      ret (mkResendAck "New OTP sent to your email")
  end.

Definition getUserProfile (userId : Z) : M Profile :=
  user <- storage.getUser userId ;;
  match user with
  | None => throw (Error "User not found")
  | Some user => ret (profile_of user)
  end.

(** ** The calls a client can make, and the states they lead to *)

Inductive Call :=
| CallRegisterUser (email password : string) (firstName lastName : option string)
| CallInitiateLogin (loginData : LoginData) (ipAddress userAgent : option string)
| CallVerifyOTP (otpData : OTPVerification) (ipAddress userAgent : option string)
| CallResendOTP (email : string) (ipAddress userAgent : option string).

(** The database a call leaves, whether it returns or throws. *)
Definition exec (c : Call) (env : Env) (d : Db) : Db :=
  match c with
  | CallRegisterUser email password firstName lastName =>
      after (registerUser email password firstName lastName env) d
  | CallInitiateLogin loginData ipAddress userAgent =>
      after (initiateLogin loginData ipAddress userAgent env) d
  | CallVerifyOTP otpData ipAddress userAgent =>
      after (verifyOTP otpData ipAddress userAgent env) d
  | CallResendOTP email ipAddress userAgent =>
      after (resendOTP email ipAddress userAgent env) d
  end.

Inductive reachable (d0 : Db) : Db -> Prop :=
| reachable_start : reachable d0 d0
| reachable_call (d : Db) (c : Call) (env : Env) :
    reachable d0 d -> randomInt_range (drawn env) -> reachable d0 (exec c env d).

(** One login attempt for [email], and a run of them. *)
Definition attempt (email : string) (d : Db) (a : Attempt) : Db :=
  after (initiateLogin (mkLoginData email (att_password a))
           (att_ipAddress a) (att_userAgent a) (att_env a)) d.

Definition attempts (email : string) (l : list Attempt) (d : Db) : Db :=
  fold_left (attempt email) l d.

Definition wrong_password (user : User.t) (a : Attempt) : Prop :=
  bcrypt_compare (att_password a) (User.password user) = false.

(** ** The vocabulary of the specification *)

(** The error taxonomy, as the errors the code throws. *)
Definition InvalidCredentials : exn := Error "Invalid credentials".
Definition AccountLocked : exn := Error "Account is locked due to too many failed attempts".
Definition NotFound : exn := Error "User not found".
Definition InvalidOrExpiredOTP : exn := Error "Invalid or expired OTP".
Definition OTPAttemptsExceeded : exn := Error "Maximum OTP attempts exceeded".
Definition NotificationDeliveryFailed : exn := Error "Failed to send verification email".

Definition LOCKOUT_DURATION : Z := LOCKOUT_DURATION_MINUTES * 60 * 1000.

(** A challenge of [email] that is unused and unexpired at [now]. *)
Definition live (email : string) (now : Z) (o : OTP.t) : bool :=
  String.eqb (OTP.email o) email && storage.is_false (OTP.isUsed o) && (now <? OTP.expiresAt o).

Definition liveOTPs (email : string) (now : Z) (d : Db) : list OTP.t :=
  filter (live email now) (otps d).

(** A stored challenge for [email] with a matching [code], unused, and
    [now < expiresAt]. *)
Definition matching_challenge (email code : string) (now : Z) (d : Db) (o : OTP.t) : Prop :=
  In o (otps d) /\ OTP.email o = email /\ OTP.code o = code
  /\ OTP.isUsed o = Some false /\ now < OTP.expiresAt o.

(** Every stored challenge still has the default attempt counter. *)
Definition attempts_default (d : Db) : Prop :=
  Forall (fun o => OTP.attempts o = Some 0) (otps d).

(** The number of Security Events a computation appends. *)
Definition events_written {A} (m : M A) (d : Db) : Z :=
  Z.of_nat (List.length (securityLogs (after m d))) - Z.of_nat (List.length (securityLogs d)).

(** The user's tasks, as [getTaskAnalytics] selects them. *)
Definition tasksOf (userId : Z) (d : Db) : list Task.t :=
  filter (fun t => Z.eqb (Task.userId t) userId) (tasks d).

Definition isDone (task : Task.t) : bool := truthy (Task.isCompleted task).

(** The account row after a wrong password on an account that passes the
    lockout check unchanged. *)
Definition failed (user : User.t) (now : Z) : User.t :=
  let n := or_zero (User.failedAttempts user) + 1 in
  User.mk (User.id user) (User.email user) (User.password user)
    (User.firstName user) (User.lastName user) (User.profileImageUrl user)
    (if MAX_LOGIN_ATTEMPTS <=? n then Some true else User.isLocked user)
    (Some n) (Some now) (User.lastLogin user) (User.createdAt user) (Some now).

(** The account passes the lockout check of [initiateLogin] at [now]: it is
    not locked, or its lockout window has elapsed. *)
Definition passes_lockout (user : User.t) (now : Z) : Prop :=
  truthy (User.isLocked user) = false
  \/ exists lastFailedAttempt,
       User.lastFailedAttempt user = Some lastFailedAttempt
       /\ lastFailedAttempt + LOCKOUT_DURATION <= now.

(** The account row as [unlockUser] leaves it. *)
Definition unlocked (user : User.t) (now : Z) : User.t :=
  User.mk (User.id user) (User.email user) (User.password user)
    (User.firstName user) (User.lastName user) (User.profileImageUrl user)
    (Some false) (Some 0) None (User.lastLogin user) (User.createdAt user) (Some now).

(** The challenge [createOTP] stores for a code issued in [env]. *)
Definition issued (email : string) (env : Env) (d : Db) : OTP.t :=
  OTP.mk (otps_seq d) email (generateOTPCode (drawn env))
    (now env + OTP_EXPIRY_MINUTES * 60 * 1000) (Some false) (Some 0) (Some (now env)).

(** The row [markOTPAsUsed] writes. *)
Definition used (o : OTP.t) : OTP.t :=
  OTP.mk (OTP.id o) (OTP.email o) (OTP.code o) (OTP.expiresAt o)
    (Some true) (OTP.attempts o) (OTP.createdAt o).

Definition unexpired (now : Z) (o : OTP.t) : bool := negb (OTP.expiresAt o <? now).

(** [otp.attempts >= MAX_OTP_ATTEMPTS] *)
Definition attempts_exceeded (o : OTP.t) : bool :=
  match OTP.attempts o with
  | Some attempts => MAX_OTP_ATTEMPTS <=? attempts
  | None => false
  end.

(** The calls that issue a code. *)
Definition issuing (c : Call) : Prop :=
  match c with
  | CallInitiateLogin _ _ _ | CallResendOTP _ _ _ => True
  | _ => False
  end.

(** The account is locked, the instant of its last failure is recorded,
    and one more failure takes its counter to the limit or beyond. *)
Definition locked_out (user : User.t) : Prop :=
  User.isLocked user = Some true
  /\ (exists lastFailedAttempt, User.lastFailedAttempt user = Some lastFailedAttempt)
  /\ MAX_LOGIN_ATTEMPTS <= or_zero (User.failedAttempts user) + 1.

(** What holds of an account [k] wrong passwords after it was unlocked
    with a counter that was not negative. *)
Definition counting (k : Z) (user : User.t) : Prop :=
  (truthy (User.isLocked user) = false
   /\ k <= or_zero (User.failedAttempts user)
   /\ (0 < k -> or_zero (User.failedAttempts user) < MAX_LOGIN_ATTEMPTS))
  \/ locked_out user.

(** ** Properties kept along a computation *)

(** [m] keeps [P]: whatever [m] does to a database where [P] holds, whether
    it returns or throws, [P] holds of the database it leaves. *)
Definition preserves {A} (P : Db -> Prop) (m : M A) : Prop :=
  forall d, P d -> P (after m d).

(** The columns of an account that no login call writes. *)
Definition same_identity (u u' : User.t) : Prop :=
  User.id u = User.id u' /\ User.email u = User.email u'
  /\ User.password u = User.password u'
  /\ User.firstName u = User.firstName u' /\ User.lastName u = User.lastName u'
  /\ User.profileImageUrl u = User.profileImageUrl u'
  /\ User.createdAt u = User.createdAt u'.

(** The [users] table of [d] holds the rows of [d0], in their order, each
    with its identity columns as in [d0]; the sequence has not moved. *)
Definition same_accounts (d0 d : Db) : Prop :=
  (exists g, (forall u, same_identity (g u) u) /\ users d = map g (users d0))
  /\ users_seq d = users_seq d0.

(** The security log of [d] is the one of [d0] with entries added at its end. *)
Definition log_extends (d0 d : Db) : Prop :=
  exists added, securityLogs d = (securityLogs d0 ++ added)%list.

(** The calls of the login guard: every call but [registerUser]. *)
Definition login_call (c : Call) : Prop :=
  match c with
  | CallRegisterUser _ _ _ _ => False
  | _ => True
  end.

(** Emails and identifiers are keys of their tables, and each sequence is
    ahead of the identifiers in use. *)
Definition keys_unique (d : Db) : Prop :=
  NoDup (map User.email (users d))
  /\ NoDup (map User.id (users d))
  /\ Forall (fun u => User.id u < users_seq d) (users d)
  /\ NoDup (map OTP.id (otps d))
  /\ Forall (fun o => OTP.id o < otps_seq d) (otps d)
  /\ NoDup (map SecurityLog.id (securityLogs d))
  /\ Forall (fun l => SecurityLog.id l < securityLogs_seq d) (securityLogs d).

(** The row [registerUser] inserts. *)
Definition registered (email password : string) (firstName lastName : option string)
    (now : Z) (d : Db) : User.t :=
  User.mk (users_seq d) email (bcrypt_hash password SALT_ROUNDS) firstName lastName
    None (Some false) (Some 0) None None (Some now) (Some now).

(** The email a login call is about. *)
Definition call_email (c : Call) : string :=
  match c with
  | CallRegisterUser email _ _ _ => email
  | CallInitiateLogin loginData _ _ => login_email loginData
  | CallVerifyOTP otpData _ _ => otp_email otpData
  | CallResendOTP email _ _ => email
  end.

(** [k] calls of [incrementOTPAttempts] for the challenge [id]. *)
Fixpoint increments (k : nat) (id : Z) (d : Db) : Db :=
  match k with
  | O => d
  | S k' => increments k' id (after (storage.incrementOTPAttempts id) d)
  end.

(** The challenge [o] with its attempt counter set to [n]. *)
Definition with_attempts (n : Z) (o : OTP.t) : OTP.t :=
  OTP.mk (OTP.id o) (OTP.email o) (OTP.code o) (OTP.expiresAt o)
    (OTP.isUsed o) (Some n) (OTP.createdAt o).

(** [a] may come before [b] in a list ordered by creation instant, newest
    first. *)
Definition task_before (a b : Task.t) : Prop :=
  storage.not_older (Task.createdAt a) (Task.createdAt b) = true.

Definition log_before (a b : SecurityLog.t) : Prop :=
  storage.not_older (SecurityLog.createdAt a) (SecurityLog.createdAt b) = true.

(** The three numbers of [getTaskAnalytics]. *)
Definition analytics (userId : Z) (d : Db) : Z * Z * Z :=
  match storage.getTaskAnalytics userId d with
  | (inr a, _) => (storage.completed a, storage.pending a, storage.total a)
  | (inl _, _) => (0, 0, 0)
  end.

(** ** Running the monad *)

Ltac run :=
  unfold exec, attempt, events_written, after, result,
    registerUser, initiateLogin, checkLockout, checkPassword, verifyOTP, resendOTP,
    sendOTPEmail,
    storage.getUserByEmail, storage.getValidOTP, storage.createUser, storage.createOTP,
    storage.updateUser, storage.updateFailedAttempts, storage.lockUser,
    storage.unlockUser, storage.update_users_by_email, storage.markOTPAsUsed,
    storage.cleanupExpiredOTPs, storage.logSecurityEvent, storage.getTaskAnalytics,
    bind, gets, modify, ret, throw in *;
  cbn [fst snd users otps tasks securityLogs users_seq otps_seq securityLogs_seq
       with_users with_otps] in *.

Ltac simp :=
  cbn [fst snd users otps tasks securityLogs users_seq otps_seq securityLogs_seq] in *.

Ltac look := unfold account, with_users, with_otps in *; simp.

(** ** Task analytics *)

Lemma filter_split_length (A : Type) (p : A -> bool) (l : list A) :
  (List.length (filter p l) + List.length (filter (fun x => negb (p x)) l))%nat
  = List.length l.
Proof.
  induction l as [|x l IH]; cbn; [reflexivity|].
  destruct (p x); cbn; lia.
Qed.

(** C10. [getTaskAnalytics] always returns, leaves the database as it was,
    and its three numbers satisfy [completed + pending = total]:
    [completed] is the number of the user's tasks whose [isCompleted] is
    true, [pending] the number of the user's other tasks, [total] the
    number of the user's tasks. *)
Theorem getTaskAnalytics_partition (userId : Z) (d : Db) :
  exists a,
    storage.getTaskAnalytics userId d = (inr a, d)
    /\ storage.completed a + storage.pending a = storage.total a
    /\ storage.completed a = Z.of_nat (List.length (filter isDone (tasksOf userId d)))
    /\ storage.pending a
       = Z.of_nat (List.length (filter (fun t => negb (isDone t)) (tasksOf userId d)))
    /\ storage.total a = Z.of_nat (List.length (tasksOf userId d)).
Proof.
  eexists. split; [reflexivity|]. cbn.
  repeat split.
  rewrite <- Nat2Z.inj_add. f_equal.
  apply filter_split_length.
Qed.

(** ** Looking an account up after an update *)

Lemma account_update_by_email (email : string) (f : User.t -> User.t) (l : list User.t) :
  (forall u, User.email (f u) = User.email u) ->
  find (fun u => String.eqb (User.email u) email)
       (map (fun u => if String.eqb (User.email u) email then f u else u) l)
  = option_map f (find (fun u => String.eqb (User.email u) email) l).
Proof.
  intros Hf. induction l as [|x l IH]; cbn; [reflexivity|].
  destruct (String.eqb (User.email x) email) eqn:E; cbn.
  - rewrite Hf, E. reflexivity.
  - rewrite E. exact IH.
Qed.

Lemma account_update_by_id (email : string) (f : User.t -> User.t) (l : list User.t)
    (user : User.t) :
  (forall u, User.email (f u) = User.email u) ->
  find (fun u => String.eqb (User.email u) email) l = Some user ->
  find (fun u => String.eqb (User.email u) email)
       (map (fun u => if Z.eqb (User.id u) (User.id user) then f u else u) l)
  = Some (f user).
Proof.
  intros Hf. induction l as [|x l IH]; cbn; [discriminate|].
  destruct (String.eqb (User.email x) email) eqn:E.
  - intros [= ->]. rewrite Z.eqb_refl. cbn. rewrite Hf, E. reflexivity.
  - intros H. destruct (Z.eqb (User.id x) (User.id user)); cbn.
    + rewrite Hf, E. auto.
    + rewrite E. auto.
Qed.

(** ** One login attempt *)

Lemma initiateLogin_wrong_password (d : Db) (user : User.t) (loginData : LoginData)
    (ipAddress userAgent : option string) (env : Env) :
  account (login_email loginData) d = Some user ->
  truthy (User.isLocked user) = false ->
  bcrypt_compare (login_password loginData) (User.password user) = false ->
  result (initiateLogin loginData ipAddress userAgent env) d = inl InvalidCredentials
  /\ account (login_email loginData)
       (after (initiateLogin loginData ipAddress userAgent env) d)
     = Some (failed user (now env)).
Proof.
  intros Hu Hl Hp. run. rewrite Hu, Hl. cbn. rewrite Hp. cbn.
  destruct (MAX_LOGIN_ATTEMPTS <=? or_zero (User.failedAttempts user) + 1) eqn:E; cbn.
  - split; [reflexivity|]. unfold account in *. cbn [users].
    rewrite !account_update_by_email by reflexivity.
    rewrite Hu. cbn. unfold failed. rewrite E. reflexivity.
  - split; [reflexivity|]. unfold account in *. cbn [users].
    rewrite !account_update_by_email by reflexivity.
    rewrite Hu. cbn. unfold failed. rewrite E. reflexivity.
Qed.

Lemma initiateLogin_locked (d : Db) (user : User.t) (loginData : LoginData)
    (ipAddress userAgent : option string) (env : Env) (lastFailedAttempt : Z) :
  account (login_email loginData) d = Some user ->
  User.isLocked user = Some true ->
  User.lastFailedAttempt user = Some lastFailedAttempt ->
  now env < lastFailedAttempt + LOCKOUT_DURATION ->
  result (initiateLogin loginData ipAddress userAgent env) d = inl AccountLocked
  /\ users (after (initiateLogin loginData ipAddress userAgent env) d) = users d
  /\ otps (after (initiateLogin loginData ipAddress userAgent env) d) = otps d.
Proof.
  intros Hu Hl Ht Hnow.
  unfold LOCKOUT_DURATION in Hnow. apply Z.ltb_lt in Hnow.
  run. rewrite Hu, Hl, Ht. cbn [truthy]. rewrite Hnow. cbn. auto.
Qed.

Lemma In_firstn (A : Type) (k : nat) (l : list A) (x : A) :
  In x (firstn k l) -> In x l.
Proof.
  intros H. rewrite <- (firstn_skipn k l). apply in_or_app. now left.
Qed.

(** While the counter stays below [MAX_LOGIN_ATTEMPTS], wrong passwords
    only count up. *)
Lemma attempts_below_limit (email password : string) (l : list Attempt) :
  forall (d : Db) (user : User.t),
    account email d = Some user ->
    User.password user = password ->
    truthy (User.isLocked user) = false ->
    Forall (fun a => bcrypt_compare (att_password a) password = false) l ->
    or_zero (User.failedAttempts user) + Z.of_nat (List.length l) < MAX_LOGIN_ATTEMPTS ->
    exists u,
      account email (attempts email l d) = Some u
      /\ User.password u = password
      /\ truthy (User.isLocked u) = false
      /\ or_zero (User.failedAttempts u)
         = or_zero (User.failedAttempts user) + Z.of_nat (List.length l).
Proof.
  induction l as [|a l IH]; intros d user Hu Hpw Hl Hwrong Hlt.
  - exists user. cbn. repeat split; auto. lia.
  - inversion Hwrong as [|? ? Ha Hrest]; subst.
    cbn [attempts fold_left].
    destruct (@initiateLogin_wrong_password d user (mkLoginData email (att_password a))
                (att_ipAddress a) (att_userAgent a) (att_env a) Hu Hl Ha) as [_ Hacc].
    fold (attempt email d a) in Hacc. cbn [login_email] in Hacc.
    cbn [List.length] in Hlt. rewrite Nat2Z.inj_succ in Hlt.
    assert (Hno : (MAX_LOGIN_ATTEMPTS <=? or_zero (User.failedAttempts user) + 1) = false)
      by (apply Z.leb_gt; lia).
    destruct (IH (attempt email d a) (failed user (now (att_env a)))) as (u & H1 & H2 & H3 & H4).
    + exact Hacc.
    + reflexivity.
    + unfold failed. cbn. rewrite Hno. exact Hl.
    + exact Hrest.
    + unfold failed. cbn. lia.
    + exists u. repeat split; auto.
      rewrite H4. unfold failed. cbn [User.failedAttempts or_zero List.length].
      rewrite Nat2Z.inj_succ. lia.
Qed.

(** ** The lockout window *)

Lemma unlockUser_account (email : string) (now : Z) (d : Db) :
  account email (after (storage.unlockUser email now) d)
  = option_map (fun u => unlocked u now) (account email d).
Proof.
  run. look.
  now rewrite account_update_by_email by reflexivity.
Qed.

Lemma initiateLogin_lockout_elapsed (d : Db) (user : User.t) (loginData : LoginData)
    (ipAddress userAgent : option string) (env : Env) (lastFailedAttempt : Z) :
  account (login_email loginData) d = Some user ->
  User.isLocked user = Some true ->
  User.lastFailedAttempt user = Some lastFailedAttempt ->
  lastFailedAttempt + LOCKOUT_DURATION <= now env ->
  initiateLogin loginData ipAddress userAgent env d
  = checkPassword user (login_email loginData) (login_password loginData)
      ipAddress userAgent env
      (after (storage.unlockUser (login_email loginData) (now env)) d).
Proof.
  intros Hu Hl Ht Hnow.
  unfold LOCKOUT_DURATION in Hnow.
  assert (E : (now env <? lastFailedAttempt + LOCKOUT_DURATION_MINUTES * 60 * 1000) = false)
    by (apply Z.ltb_ge; exact Hnow).
  unfold initiateLogin, checkLockout, bind at 1, storage.getUserByEmail, gets.
  rewrite Hu, Hl, Ht. cbn [truthy]. rewrite E.
  reflexivity.
Qed.

Lemma initiateLogin_not_locked (d : Db) (user : User.t) (loginData : LoginData)
    (ipAddress userAgent : option string) (env : Env) :
  account (login_email loginData) d = Some user ->
  truthy (User.isLocked user) = false ->
  initiateLogin loginData ipAddress userAgent env d
  = checkPassword user (login_email loginData) (login_password loginData)
      ipAddress userAgent env d.
Proof.
  intros Hu Hl.
  unfold initiateLogin, checkLockout, bind at 1, storage.getUserByEmail, gets.
  rewrite Hu, Hl. reflexivity.
Qed.

(** What the password check can answer. *)
Lemma checkPassword_result (user : User.t) (email password : string)
    (ipAddress userAgent : option string) (env : Env) (d : Db) :
  result (checkPassword user email password ipAddress userAgent env) d
  = if bcrypt_compare password (User.password user)
    then if delivered env
         then inr (mkLoginAck "OTP sent to your email" email)
         else inl NotificationDeliveryFailed
    else inl InvalidCredentials.
Proof.
  run. destruct (bcrypt_compare password (User.password user)); cbn.
  - destruct (delivered env); reflexivity.
  - destruct (MAX_LOGIN_ATTEMPTS <=? or_zero (User.failedAttempts user) + 1); reflexivity.
Qed.

(** A right password leaves the [users] table alone. *)
Lemma checkPassword_right_users (user : User.t) (email password : string)
    (ipAddress userAgent : option string) (env : Env) (d : Db) :
  bcrypt_compare password (User.password user) = true ->
  users (after (checkPassword user email password ipAddress userAgent env) d) = users d.
Proof.
  intros Hp. run. rewrite Hp. cbn. destruct (delivered env); reflexivity.
Qed.

(** C7. When the account is locked and its lockout window has elapsed
    ([now >= lastFailedAttempt + LOCKOUT_DURATION]), [initiateLogin] is the
    password check run on the database left by [unlockUser], in which the
    account has [failedAttempts = 0], [isLocked = false] and no
    [lastFailedAttempt]; it does not fail with [AccountLocked]; and with
    the right password the account is still in that cleared state when
    the call ends. *)
Theorem elapsed_lockout_is_cleared (d : Db) (user : User.t) (loginData : LoginData)
    (ipAddress userAgent : option string) (env : Env) (lastFailedAttempt : Z) :
  account (login_email loginData) d = Some user ->
  User.isLocked user = Some true ->
  User.lastFailedAttempt user = Some lastFailedAttempt ->
  lastFailedAttempt + LOCKOUT_DURATION <= now env ->
  let email := login_email loginData in
  let cleared := after (storage.unlockUser email (now env)) d in
  initiateLogin loginData ipAddress userAgent env d
  = checkPassword user email (login_password loginData) ipAddress userAgent env cleared
  /\ (exists u, account email cleared = Some u
                /\ User.failedAttempts u = Some 0
                /\ User.isLocked u = Some false
                /\ User.lastFailedAttempt u = None)
  /\ result (initiateLogin loginData ipAddress userAgent env) d <> inl AccountLocked
  /\ (bcrypt_compare (login_password loginData) (User.password user) = true ->
      account email (after (initiateLogin loginData ipAddress userAgent env) d)
      = Some (unlocked user (now env))).
Proof.
  intros Hu Hl Ht Hnow email cleared.
  pose proof (initiateLogin_lockout_elapsed _ _ _ ipAddress userAgent _ _ Hu Hl Ht Hnow) as E.
  fold email in E. fold cleared in E.
  assert (Hc : account email cleared = Some (unlocked user (now env))).
  { unfold cleared. rewrite unlockUser_account. unfold email. now rewrite Hu. }
  split; [exact E|]. split; [|split].
  - exists (unlocked user (now env)). repeat split; auto.
  - unfold result. rewrite E.
    fold (result (checkPassword user email (login_password loginData)
                    ipAddress userAgent env) cleared).
    rewrite checkPassword_result.
    destruct (bcrypt_compare _ _); [destruct (delivered env)|]; discriminate.
  - intros Hp. unfold after at 1. rewrite E.
    fold (after (checkPassword user email (login_password loginData)
                   ipAddress userAgent env) cleared).
    unfold account at 1. rewrite checkPassword_right_users by exact Hp.
    exact Hc.
Qed.

(** The counter the password check increments is the one read before the
    lockout was cleared: one wrong password after the window has elapsed
    locks the account again. *)
Lemma wrong_password_after_elapsed_lockout (d : Db) (user : User.t)
    (loginData : LoginData) (ipAddress userAgent : option string) (env : Env)
    (lastFailedAttempt : Z) :
  account (login_email loginData) d = Some user ->
  User.isLocked user = Some true ->
  User.lastFailedAttempt user = Some lastFailedAttempt ->
  lastFailedAttempt + LOCKOUT_DURATION <= now env ->
  MAX_LOGIN_ATTEMPTS <= or_zero (User.failedAttempts user) + 1 ->
  bcrypt_compare (login_password loginData) (User.password user) = false ->
  exists u,
    account (login_email loginData)
      (after (initiateLogin loginData ipAddress userAgent env) d) = Some u
    /\ User.isLocked u = Some true
    /\ User.failedAttempts u = Some (or_zero (User.failedAttempts user) + 1)
    /\ User.lastFailedAttempt u = Some (now env)
    /\ User.password u = User.password user.
Proof.
  intros Hu Hl Ht Hnow Hmax Hp.
  unfold after. rewrite (initiateLogin_lockout_elapsed _ _ _ ipAddress userAgent _ _ Hu Hl Ht Hnow).
  apply Z.leb_le in Hmax.
  run. rewrite Hp. cbn [negb]. rewrite Hmax. cbn [fst snd users].
  look.
  rewrite !account_update_by_email by reflexivity. rewrite Hu. cbn.
  eexists. split; [reflexivity|]. cbn. repeat split; reflexivity.
Qed.

(** ** Unknown email against wrong password *)

(** C6, as the code has it. [initiateLogin] with an unknown email and
    [initiateLogin] with a wrong password for a known email whose account
    passes the lockout check (it is not locked, or its lockout window has
    elapsed) throw the same value, [Error "Invalid credentials"]. The
    lockout check comes before the password check, so an account that is
    locked answers otherwise. *)
Theorem unknown_email_like_wrong_password
    (d1 d2 : Db) (user : User.t) (unknown known : LoginData)
    (ip1 ua1 ip2 ua2 : option string) (env1 env2 : Env) :
  account (login_email unknown) d1 = None ->
  account (login_email known) d2 = Some user ->
  passes_lockout user (now env2) ->
  bcrypt_compare (login_password known) (User.password user) = false ->
  result (initiateLogin unknown ip1 ua1 env1) d1 = inl InvalidCredentials
  /\ result (initiateLogin known ip2 ua2 env2) d2 = inl InvalidCredentials
  /\ result (initiateLogin unknown ip1 ua1 env1) d1
     = result (initiateLogin known ip2 ua2 env2) d2.
Proof.
  intros Hnone Hu Hpass Hp.
  assert (H1 : result (initiateLogin unknown ip1 ua1 env1) d1 = inl InvalidCredentials).
  { run. rewrite Hnone. reflexivity. }
  assert (H2 : result (initiateLogin known ip2 ua2 env2) d2 = inl InvalidCredentials).
  { destruct (truthy (User.isLocked user)) eqn:Hl.
    - destruct Hpass as [Hf | (t & Ht & Hnow)]; [congruence|].
      assert (Hl' : User.isLocked user = Some true)
        by (destruct (User.isLocked user) as [[|]|]; try discriminate; reflexivity).
      unfold result. rewrite (initiateLogin_lockout_elapsed _ _ _ ip2 ua2 _ _ Hu Hl' Ht Hnow).
      match goal with |- fst (?m ?d) = _ => change (result m d = inl InvalidCredentials) end.
      rewrite checkPassword_result, Hp. reflexivity.
    - unfold result. rewrite (initiateLogin_not_locked _ _ _ ip2 ua2 env2 Hu Hl).
      match goal with |- fst (?m ?d) = _ => change (result m d = inl InvalidCredentials) end.
      rewrite checkPassword_result, Hp. reflexivity. }
  repeat split; auto. now rewrite H1, H2.
Qed.

(** ** The OTP table under the four calls *)

Lemma registerUser_otps (email password : string) (firstName lastName : option string)
    (env : Env) (d : Db) :
  otps (after (registerUser email password firstName lastName env) d) = otps d.
Proof.
  run. destruct (account email d); reflexivity.
Qed.

Lemma checkPassword_otps (user : User.t) (email password : string)
    (ipAddress userAgent : option string) (env : Env) (d : Db) :
  otps (after (checkPassword user email password ipAddress userAgent env) d)
  = if bcrypt_compare password (User.password user)
    then (otps d ++ [issued email env d])%list
    else otps d.
Proof.
  run. destruct (bcrypt_compare password (User.password user)); cbn.
  - destruct (delivered env); reflexivity.
  - destruct (MAX_LOGIN_ATTEMPTS <=? or_zero (User.failedAttempts user) + 1); reflexivity.
Qed.

(** [initiateLogin], branch by branch. *)
Lemma initiateLogin_cases (loginData : LoginData) (ipAddress userAgent : option string)
    (env : Env) (d : Db) :
  initiateLogin loginData ipAddress userAgent env d
  = let email := login_email loginData in
    match account email d with
    | None =>
        (storage.logSecurityEvent
           (LogEntry.mk None (Some email) "LOGIN_ATTEMPT"
              (Some "User not found") ipAddress userAgent false) (now env) ;;
         throw InvalidCredentials) d
    | Some user =>
        if truthy (User.isLocked user) then
          match User.lastFailedAttempt user with
          | None =>
              (inl (TypeError "Cannot read properties of null (reading 'getTime')"), d)
          | Some lastFailedAttempt =>
              if now env <? lastFailedAttempt + LOCKOUT_DURATION then
                (storage.logSecurityEvent
                   (LogEntry.mk (Some (User.id user)) (Some email) "LOGIN_ATTEMPT"
                      (Some "Account locked") ipAddress userAgent false) (now env) ;;
                 throw AccountLocked) d
              else
                checkPassword user email (login_password loginData)
                  ipAddress userAgent env (after (storage.unlockUser email (now env)) d)
          end
        else
          checkPassword user email (login_password loginData) ipAddress userAgent env d
    end.
Proof.
  cbv zeta.
  unfold initiateLogin, checkLockout, LOCKOUT_DURATION, bind at 1,
    storage.getUserByEmail, gets.
  destruct (account (login_email loginData) d) as [user|]; [|reflexivity].
  destruct (truthy (User.isLocked user)); [|reflexivity].
  destruct (User.lastFailedAttempt user) as [t|]; [|reflexivity].
  destruct (now env <? t + LOCKOUT_DURATION_MINUTES * 60 * 1000); reflexivity.
Qed.

Lemma initiateLogin_otps (loginData : LoginData) (ipAddress userAgent : option string)
    (env : Env) (d : Db) :
  otps (after (initiateLogin loginData ipAddress userAgent env) d) = otps d
  \/ otps (after (initiateLogin loginData ipAddress userAgent env) d)
     = (otps d ++ [issued (login_email loginData) env d])%list.
Proof.
  unfold after. rewrite initiateLogin_cases. cbv zeta.
  destruct (account (login_email loginData) d) as [user|]; [|left; reflexivity].
  destruct (truthy (User.isLocked user)).
  - destruct (User.lastFailedAttempt user) as [t|]; [|left; reflexivity].
    destruct (now env <? t + LOCKOUT_DURATION); [left; reflexivity|].
    match goal with
    | |- context [snd (checkPassword ?u ?e ?p ?i ?a ?v ?x)] =>
        change (snd (checkPassword u e p i a v x)) with (after (checkPassword u e p i a v) x)
    end.
    rewrite checkPassword_otps.
    destruct (bcrypt_compare _ _); [right|left]; reflexivity.
  - match goal with
    | |- context [snd (checkPassword ?u ?e ?p ?i ?a ?v ?x)] =>
        change (snd (checkPassword u e p i a v x)) with (after (checkPassword u e p i a v) x)
    end.
    rewrite checkPassword_otps.
    destruct (bcrypt_compare _ _); [right|left]; reflexivity.
Qed.

Lemma resendOTP_otps (email : string) (ipAddress userAgent : option string)
    (env : Env) (d : Db) :
  otps (after (resendOTP email ipAddress userAgent env) d)
  = match account email d with
    | Some _ => (otps d ++ [issued email env d])%list
    | None => otps d
    end.
Proof.
  run. destruct (account email d); [|reflexivity].
  cbn. destruct (delivered env); reflexivity.
Qed.

(** [verifyOTP], branch by branch. *)
Lemma verifyOTP_cases (otpData : OTPVerification) (ipAddress userAgent : option string)
    (env : Env) (d : Db) :
  verifyOTP otpData ipAddress userAgent env d
  = let email := otp_email otpData in
    let swept := after (storage.cleanupExpiredOTPs (now env)) d in
    match account email d with
    | None => (inl NotFound, swept)
    | Some user =>
        match find (storage.validOTP email (otp_code otpData) (now env)) (otps swept) with
        | None =>
            (inl InvalidOrExpiredOTP,
             after (storage.logSecurityEvent
                      (LogEntry.mk (Some (User.id user)) (Some email) "OTP_VERIFICATION"
                         (Some "Invalid or expired OTP") ipAddress userAgent false)
                      (now env)) swept)
        | Some otp =>
            if attempts_exceeded otp then
              (inl OTPAttemptsExceeded,
               after (storage.logSecurityEvent
                        (LogEntry.mk (Some (User.id user)) (Some email) "OTP_VERIFICATION"
                           (Some "Maximum OTP attempts exceeded") ipAddress userAgent false)
                        (now env)) swept)
            else
              (inr (profile_of user),
               after (storage.markOTPAsUsed (OTP.id otp) ;;
                      storage.updateUser (User.id user) (Some 0) None (Some (now env))
                        (now env) ;;
                      storage.logSecurityEvent
                        (LogEntry.mk (Some (User.id user)) (Some email) "LOGIN_SUCCESS"
                           (Some "Successful OTP verification") ipAddress userAgent true)
                        (now env)) swept)
        end
    end.
Proof.
  cbv zeta. run. look.
  destruct (find _ (users d)) as [user|]; [|reflexivity]. simp.
  destruct (find _ (filter _ (otps d))) as [otp|]; [|reflexivity].
  unfold attempts_exceeded.
  destruct (OTP.attempts otp) as [n|]; [destruct (MAX_OTP_ATTEMPTS <=? n)|]; reflexivity.
Qed.

Lemma verifyOTP_otps (otpData : OTPVerification) (ipAddress userAgent : option string)
    (env : Env) (d : Db) :
  otps (after (verifyOTP otpData ipAddress userAgent env) d)
  = let kept := filter (unexpired (now env)) (otps d) in
    match account (otp_email otpData) d,
          find (storage.validOTP (otp_email otpData) (otp_code otpData) (now env)) kept with
    | Some _, Some otp =>
        if attempts_exceeded otp then kept
        else map (fun o => if Z.eqb (OTP.id o) (OTP.id otp) then used o else o) kept
    | _, _ => kept
    end.
Proof.
  unfold after at 1. rewrite verifyOTP_cases. cbv zeta.
  change (otps (after (storage.cleanupExpiredOTPs (now env)) d))
    with (filter (unexpired (now env)) (otps d)).
  destruct (account (otp_email otpData) d) as [user|]; [|reflexivity].
  destruct (find _ (filter _ (otps d))) as [otp|]; [|reflexivity].
  destruct (attempts_exceeded otp); reflexivity.
Qed.

(** No call changes the attempt counter of a stored challenge: a challenge
    in the table after a call is a new one, with the default counter, or
    has the identifier and the counter of a challenge stored before. *)
Lemma exec_attempts_origin (c : Call) (env : Env) (d : Db) (o' : OTP.t) :
  In o' (otps (exec c env d)) ->
  OTP.attempts o' = Some 0
  \/ exists o, In o (otps d) /\ OTP.id o = OTP.id o' /\ OTP.attempts o = OTP.attempts o'.
Proof.
  assert (Hkeep : forall o, In o (otps d) ->
            OTP.attempts o = Some 0
            \/ exists o0, In o0 (otps d) /\ OTP.id o0 = OTP.id o
                          /\ OTP.attempts o0 = OTP.attempts o)
    by (intros o Ho; right; exists o; auto).
  assert (Happ : forall x, OTP.attempts x = Some 0 ->
            In o' (otps d ++ [x])%list ->
            OTP.attempts o' = Some 0
            \/ exists o0, In o0 (otps d) /\ OTP.id o0 = OTP.id o'
                          /\ OTP.attempts o0 = OTP.attempts o').
  { intros x Hx Hin. apply in_app_or in Hin. destruct Hin as [Hin|[<-|[]]]; auto. }
  destruct c as [email password firstName lastName | loginData ip ua | otpData ip ua
                | email ip ua]; cbn [exec]; intros Hin.
  - rewrite registerUser_otps in Hin. auto.
  - destruct (initiateLogin_otps loginData ip ua env d) as [E|E]; rewrite E in Hin.
    + auto.
    + eapply Happ; eauto. reflexivity.
  - rewrite verifyOTP_otps in Hin. cbv zeta in Hin.
    assert (Hf : forall o, In o (filter (unexpired (now env)) (otps d)) -> In o (otps d))
      by (intros o Ho; apply filter_In in Ho; tauto).
    destruct (account (otp_email otpData) d); [|auto].
    destruct (find _ _) as [otp|]; [|auto].
    destruct (attempts_exceeded otp); [auto|].
    apply in_map_iff in Hin. destruct Hin as (o & Ho & Hin).
    right. exists o. split; [auto|].
    destruct (Z.eqb (OTP.id o) (OTP.id otp)); subst o'; auto.
  - rewrite resendOTP_otps in Hin.
    destruct (account email d); [|auto].
    eapply Happ; eauto. reflexivity.
Qed.

Lemma exec_attempts_default (c : Call) (env : Env) (d : Db) :
  attempts_default d -> attempts_default (exec c env d).
Proof.
  unfold attempts_default. rewrite !Forall_forall. intros H o' Hin.
  destruct (exec_attempts_origin c env d o' Hin) as [E|(o & Ho & _ & E)]; [exact E|].
  rewrite <- E. auto.
Qed.

Lemma reachable_attempts_default (d0 d : Db) :
  attempts_default d0 -> reachable d0 d -> attempts_default d.
Proof.
  intros H0 Hr. induction Hr as [|d c env _ IH _]; [exact H0|].
  apply exec_attempts_default. exact IH.
Qed.

(** ** Looking a challenge up *)

Lemma validOTP_spec (email code : string) (now : Z) (o : OTP.t) :
  storage.validOTP email code now o = true
  <-> OTP.email o = email /\ OTP.code o = code
      /\ OTP.isUsed o = Some false /\ now < OTP.expiresAt o.
Proof.
  unfold storage.validOTP, storage.is_false.
  rewrite !andb_true_iff, !String.eqb_eq, Z.ltb_lt.
  split.
  - intros [[[H1 H2] H3] H4].
    destruct (OTP.isUsed o) as [[|]|]; try discriminate. auto.
  - intros (H1 & H2 & H3 & H4). rewrite H3. auto.
Qed.

Lemma find_filter_implied (A : Type) (p q : A -> bool) (l : list A) :
  (forall x, p x = true -> q x = true) ->
  find p (filter q l) = find p l.
Proof.
  intros H. induction l as [|x l IH]; cbn; [reflexivity|].
  destruct (p x) eqn:Ep.
  - rewrite (H x Ep). cbn. now rewrite Ep.
  - destruct (q x); cbn; [rewrite Ep|]; exact IH.
Qed.

Lemma find_is_some (A : Type) (p : A -> bool) (l : list A) :
  (exists x, In x l /\ p x = true) <-> (exists y, find p l = Some y).
Proof.
  split.
  - intros (x & Hin & Hp). destruct (find p l) as [y|] eqn:E; [eauto|].
    rewrite (find_none p l E x Hin) in Hp. discriminate.
  - intros (y & E). exists y. exact (find_some p l E).
Qed.

(** The sweep of expired challenges does not change which challenge
    [getValidOTP] finds. *)
Lemma find_valid_swept (email code : string) (now : Z) (l : list OTP.t) :
  find (storage.validOTP email code now) (filter (unexpired now) l)
  = find (storage.validOTP email code now) l.
Proof.
  apply find_filter_implied. intros o Ho.
  apply validOTP_spec in Ho. unfold unexpired.
  apply negb_true_iff, Z.ltb_ge. lia.
Qed.

Lemma swept_otps (now : Z) (d : Db) :
  otps (after (storage.cleanupExpiredOTPs now) d) = filter (unexpired now) (otps d).
Proof. reflexivity. Qed.

Lemma matching_challenge_found (email code : string) (now : Z) (d : Db) :
  (exists o, matching_challenge email code now d o)
  <-> (exists otp, find (storage.validOTP email code now) (otps d) = Some otp).
Proof.
  rewrite <- find_is_some. unfold matching_challenge.
  split; intros (o & H); exists o.
  - destruct H as (Hin & H1 & H2 & H3 & H4).
    split; [exact Hin|]. apply validOTP_spec. auto.
  - destruct H as (Hin & Hv). apply validOTP_spec in Hv.
    destruct Hv as (H1 & H2 & H3 & H4). repeat split; assumption.
Qed.

(** ** verifyOTP *)

(** C5. No call changes the attempt counter of a stored challenge (a
    challenge stored after a call is new, with counter 0, or has the
    identifier and counter of one stored before); so in every state
    reached from one whose challenges all have [attempts = 0], every
    challenge has [attempts = 0], and [verifyOTP] never fails with
    [OTPAttemptsExceeded]. *)
Theorem attempts_counter_never_moves (d0 d : Db) :
  attempts_default d0 ->
  reachable d0 d ->
  attempts_default d
  /\ (forall (c : Call) (env : Env) (o' : OTP.t),
        In o' (otps (exec c env d)) ->
        OTP.attempts o' = Some 0
        \/ exists o, In o (otps d) /\ OTP.id o = OTP.id o'
                     /\ OTP.attempts o = OTP.attempts o')
  /\ forall (otpData : OTPVerification) (ipAddress userAgent : option string) (env : Env),
       result (verifyOTP otpData ipAddress userAgent env) d <> inl OTPAttemptsExceeded.
Proof.
  intros H0 Hr.
  pose proof (reachable_attempts_default d0 d H0 Hr) as Hd.
  split; [exact Hd|]. split; [intros c env o'; apply exec_attempts_origin|].
  intros otpData ip ua env. unfold result. rewrite verifyOTP_cases. cbv zeta.
  destruct (account (otp_email otpData) d) as [user|]; [|discriminate].
  rewrite swept_otps, find_valid_swept.
  destruct (find _ (otps d)) as [otp|] eqn:E; [|discriminate].
  apply find_some in E. destruct E as [Hin _].
  unfold attempts_default in Hd. rewrite Forall_forall in Hd.
  unfold attempts_exceeded. rewrite (Hd otp Hin). cbn. discriminate.
Qed.

(** C2. In a state reached from one whose challenges all have the default
    attempt counter, for an existing account, [verifyOTP] succeeds if and
    only if some stored challenge has the email and the code submitted, is
    unused, and has [now < expiresAt]; when there is none, it fails with
    [InvalidOrExpiredOTP]. *)
Theorem verifyOTP_succeeds_iff (d0 d : Db) (otpData : OTPVerification)
    (ipAddress userAgent : option string) (env : Env) (user : User.t) :
  attempts_default d0 ->
  reachable d0 d ->
  account (otp_email otpData) d = Some user ->
  ((exists profile, result (verifyOTP otpData ipAddress userAgent env) d = inr profile)
   <-> (exists o, matching_challenge (otp_email otpData) (otp_code otpData) (now env) d o))
  /\ (~ (exists o, matching_challenge (otp_email otpData) (otp_code otpData) (now env) d o)
      -> result (verifyOTP otpData ipAddress userAgent env) d = inl InvalidOrExpiredOTP).
Proof.
  intros H0 Hr Hu.
  pose proof (reachable_attempts_default d0 d H0 Hr) as Hd.
  rewrite matching_challenge_found.
  unfold result. rewrite verifyOTP_cases. cbv zeta.
  rewrite Hu, swept_otps, find_valid_swept.
  destruct (find _ (otps d)) as [otp|] eqn:E.
  - apply find_some in E. destruct E as [Hin _].
    unfold attempts_default in Hd. rewrite Forall_forall in Hd.
    unfold attempts_exceeded. rewrite (Hd otp Hin). cbn.
    split; [split; eauto|].
    intros Hno. exfalso. apply Hno. eauto.
  - cbn. split; [|reflexivity].
    split; intros (x & Hx); discriminate.
Qed.

(** C9. For an existing account, when every stored challenge with the
    email and the code submitted is expired ([expiresAt < now]),
    [verifyOTP] fails with [InvalidOrExpiredOTP] and the [users] table is
    left as it was. *)
Theorem expired_code_leaves_account (d : Db) (otpData : OTPVerification)
    (ipAddress userAgent : option string) (env : Env) (user : User.t) :
  account (otp_email otpData) d = Some user ->
  (forall o, In o (otps d) ->
     OTP.email o = otp_email otpData -> OTP.code o = otp_code otpData ->
     OTP.expiresAt o < now env) ->
  result (verifyOTP otpData ipAddress userAgent env) d = inl InvalidOrExpiredOTP
  /\ users (after (verifyOTP otpData ipAddress userAgent env) d) = users d.
Proof.
  intros Hu Hexp.
  unfold result, after. rewrite verifyOTP_cases. cbv zeta.
  rewrite Hu, swept_otps, find_valid_swept.
  destruct (find _ (otps d)) as [otp|] eqn:E.
  - apply find_some in E. destruct E as [Hin Hv].
    apply validOTP_spec in Hv. destruct Hv as (He & Hc & _ & Hlt).
    specialize (Hexp otp Hin He Hc). lia.
  - split; reflexivity.
Qed.

(** C8. When [verifyOTP] succeeds, the account existed and some stored
    challenge matched; after the call the matched challenge is stored with
    [isUsed = true], as is every challenge with its identifier; the account
    has [failedAttempts = 0], no [lastFailedAttempt] and [lastLogin = now];
    and the value returned is the profile (id, email, first and last name,
    profile image URL, lastLogin) of the account as it was read at the
    start of the call. *)
Theorem verifyOTP_success_effects (d : Db) (otpData : OTPVerification)
    (ipAddress userAgent : option string) (env : Env) (profile : Profile) :
  result (verifyOTP otpData ipAddress userAgent env) d = inr profile ->
  let email := otp_email otpData in
  let d' := after (verifyOTP otpData ipAddress userAgent env) d in
  exists user otp,
    account email d = Some user
    /\ matching_challenge email (otp_code otpData) (now env) d otp
    /\ In (used otp) (otps d')
    /\ (forall o, In o (otps d') -> OTP.id o = OTP.id otp -> OTP.isUsed o = Some true)
    /\ (exists u, account email d' = Some u
                  /\ User.failedAttempts u = Some 0
                  /\ User.lastFailedAttempt u = None
                  /\ User.lastLogin u = Some (now env))
    /\ profile = mkProfile (User.id user) (User.email user) (User.firstName user)
                   (User.lastName user) (User.profileImageUrl user) (User.lastLogin user).
Proof.
  intros Hres email d'. unfold d', email, result, after in *. clear d' email.
  rewrite verifyOTP_cases in *. cbv zeta in *.
  destruct (account (otp_email otpData) d) as [user|] eqn:Hu; [|discriminate].
  rewrite swept_otps, find_valid_swept in *.
  destruct (find _ (otps d)) as [otp|] eqn:E; [|discriminate].
  destruct (attempts_exceeded otp); [discriminate|].
  cbn [fst snd] in *. injection Hres as <-.
  pose proof (find_some _ _ E) as [Hin Hv].
  pose proof (proj1 (validOTP_spec _ _ _ _) Hv) as (He & Hc & Hused & Hlt).
  exists user, otp. split; [reflexivity|]. split; [unfold matching_challenge; auto|].
  assert (Hkept : In otp (filter (unexpired (now env)) (otps d))).
  { apply filter_In. split; [exact Hin|].
    unfold unexpired. apply negb_true_iff, Z.ltb_ge. lia. }
  run. look. fold (unexpired (now env)).
  split; [|split; [|split]].
  - apply in_map_iff. exists otp. rewrite Z.eqb_refl. auto.
  - intros o Ho Hid. apply in_map_iff in Ho. destruct Ho as (x & Hx & _).
    destruct (Z.eqb (OTP.id x) (OTP.id otp)) eqn:Ex; subst o; [reflexivity|].
    apply Z.eqb_neq in Ex. contradiction.
  - rewrite (account_update_by_id (otp_email otpData) _ (users d) user); [|reflexivity|exact Hu].
    eexists. split; [reflexivity|]. cbn. auto.
  - reflexivity.
Qed.

Lemma verifyOTP_result_default (d : Db) (otpData : OTPVerification)
    (ipAddress userAgent : option string) (env : Env) (user : User.t) :
  attempts_default d ->
  account (otp_email otpData) d = Some user ->
  result (verifyOTP otpData ipAddress userAgent env) d
  = match find (storage.validOTP (otp_email otpData) (otp_code otpData) (now env))
            (otps d) with
    | Some _ => inr (profile_of user)
    | None => inl InvalidOrExpiredOTP
    end.
Proof.
  intros Hd Hu. unfold result. rewrite verifyOTP_cases. cbv zeta.
  rewrite Hu, swept_otps, find_valid_swept.
  destruct (find _ (otps d)) as [otp|] eqn:E; [|reflexivity].
  apply find_some in E. destruct E as [Hin _].
  unfold attempts_default in Hd. rewrite Forall_forall in Hd.
  unfold attempts_exceeded. rewrite (Hd otp Hin). reflexivity.
Qed.

(** ** The users table under the calls that issue a code *)

Lemma account_map (email : string) (g : User.t -> User.t) (l : list User.t) :
  (forall u, User.email (g u) = User.email u) ->
  find (fun u => String.eqb (User.email u) email) (map g l)
  = option_map g (find (fun u => String.eqb (User.email u) email) l).
Proof.
  intros Hg. induction l as [|x l IH]; cbn; [reflexivity|].
  rewrite Hg. destruct (String.eqb (User.email x) email); [reflexivity|exact IH].
Qed.

Lemma checkPassword_users (user : User.t) (email password : string)
    (ipAddress userAgent : option string) (env : Env) (d : Db) :
  exists g, (forall u, User.email (g u) = User.email u)
            /\ users (after (checkPassword user email password ipAddress userAgent env) d)
               = map g (users d).
Proof.
  run. look. destruct (bcrypt_compare password (User.password user)); cbn [negb].
  - exists (fun u => u). split; [reflexivity|].
    rewrite map_id. simp. destruct (delivered env); reflexivity.
  - simp. destruct (MAX_LOGIN_ATTEMPTS <=? or_zero (User.failedAttempts user) + 1); simp.
    + rewrite map_map. eexists. split; [|reflexivity].
      intros u. cbn beta.
      destruct (String.eqb (User.email u) email) eqn:E; cbn [User.email]; rewrite E;
        reflexivity.
    + eexists. split; [|reflexivity].
      intros u. cbn beta. destruct (String.eqb (User.email u) email); reflexivity.
Qed.

Lemma initiateLogin_users (loginData : LoginData) (ipAddress userAgent : option string)
    (env : Env) (d : Db) :
  exists g, (forall u, User.email (g u) = User.email u)
            /\ users (after (initiateLogin loginData ipAddress userAgent env) d)
               = map g (users d).
Proof.
  assert (Hid : exists g, (forall u, User.email (g u) = User.email u)
                          /\ users d = map g (users d))
    by (exists (fun u => u); split; [reflexivity|now rewrite map_id]).
  unfold after. rewrite initiateLogin_cases. cbv zeta.
  destruct (account (login_email loginData) d) as [user|]; [|exact Hid].
  destruct (truthy (User.isLocked user)).
  - destruct (User.lastFailedAttempt user) as [t|]; [|exact Hid].
    destruct (now env <? t + LOCKOUT_DURATION); [exact Hid|].
    destruct (checkPassword_users user (login_email loginData) (login_password loginData)
                ipAddress userAgent env
                (after (storage.unlockUser (login_email loginData) (now env)) d))
      as (g & Hg & E).
    unfold after at 1 in E. rewrite E. run. look. rewrite map_map.
    eexists. split; [|reflexivity].
    intros u. cbn beta. rewrite Hg.
    destruct (String.eqb (User.email u) (login_email loginData)); reflexivity.
  - apply checkPassword_users.
Qed.

Lemma issuing_keeps_account (c : Call) (env : Env) (d : Db) (email : string) (user : User.t) :
  issuing c ->
  account email d = Some user ->
  exists u, account email (exec c env d) = Some u.
Proof.
  intros Hc Hu.
  destruct c as [? ? ? ? | loginData ip ua | ? ? ? | e ip ua]; try contradiction;
    cbn [exec].
  - destruct (initiateLogin_users loginData ip ua env d) as (g & Hg & E).
    unfold account in *. rewrite E, account_map, Hu by exact Hg. cbn. eauto.
  - exists user. rewrite <- Hu. run.
    destruct (account e d); [|reflexivity].
    simp. destruct (delivered env); reflexivity.
Qed.

Lemma issuing_keeps_otps (c : Call) (env : Env) (d : Db) (o : OTP.t) :
  issuing c -> In o (otps d) -> In o (otps (exec c env d)).
Proof.
  intros Hc Ho.
  destruct c as [? ? ? ? | loginData ip ua | ? ? ? | e ip ua]; try contradiction;
    cbn [exec].
  - destruct (initiateLogin_otps loginData ip ua env d) as [E|E]; rewrite E; [exact Ho|].
    apply in_or_app. now left.
  - rewrite resendOTP_otps. destruct (account e d); [|exact Ho].
    apply in_or_app. now left.
Qed.

(** C4, as the code has it. Issuing a code ([initiateLogin], [resendOTP])
    does not supersede the codes issued before: a stored challenge that
    matches an email and a code, is unused and unexpired is still stored
    and matching after the call, and in a state reached from one whose
    challenges all have the default attempt counter [verifyOTP] still
    accepts its code; and [resendOTP] for an existing account only appends
    the new challenge to the table. *)
Theorem older_code_still_verifies (d0 d : Db) (c : Call) (env : Env)
    (email code : string) (o : OTP.t) (user : User.t)
    (ipAddress userAgent : option string) (env' : Env) :
  attempts_default d0 ->
  reachable d0 d ->
  issuing c ->
  account email d = Some user ->
  matching_challenge email code (now env') d o ->
  matching_challenge email code (now env') (exec c env d) o
  /\ (exists profile,
        result (verifyOTP (mkOTPVerification email code) ipAddress userAgent env')
               (exec c env d) = inr profile)
  /\ forall ip ua,
       otps (exec (CallResendOTP email ip ua) env d)
       = (otps d ++ [issued email env d])%list.
Proof.
  intros H0 Hr Hc Hu Hm.
  assert (Hm' : matching_challenge email code (now env') (exec c env d) o).
  { destruct Hm as (Hin & Hrest). split; [|exact Hrest].
    apply issuing_keeps_otps; assumption. }
  split; [exact Hm'|]. split.
  - destruct (issuing_keeps_account c env d email user Hc Hu) as (u & Hu').
    rewrite (verifyOTP_result_default _ _ _ _ _ u).
    + cbn [otp_email otp_code].
      destruct (proj1 (matching_challenge_found email code (now env') (exec c env d)))
        as (otp & E); [eauto|].
      rewrite E. eauto.
    + apply exec_attempts_default. exact (reachable_attempts_default d0 d H0 Hr).
    + exact Hu'.
  - intros ip ua. cbn [exec]. rewrite resendOTP_otps, Hu. reflexivity.
Qed.

(** ** Security events *)

Lemma events_written_one (A : Type) (m : M A) (d : Db) (x : SecurityLog.t) :
  securityLogs (after m d) = (securityLogs d ++ [x])%list -> events_written m d = 1.
Proof.
  intros E. unfold events_written. rewrite E, List.length_app. cbn. lia.
Qed.

Lemma events_written_none (A : Type) (m : M A) (d : Db) :
  securityLogs (after m d) = securityLogs d -> events_written m d = 0.
Proof.
  intros E. unfold events_written. rewrite E. lia.
Qed.

(** [verifyOTP] writes one event when the account exists and none when it
    does not. *)
Lemma verifyOTP_events (otpData : OTPVerification) (ipAddress userAgent : option string)
    (env : Env) (d : Db) :
  events_written (verifyOTP otpData ipAddress userAgent env) d
  = match account (otp_email otpData) d with Some _ => 1 | None => 0 end.
Proof.
  destruct (account (otp_email otpData) d) as [user|] eqn:Hu.
  - generalize (verifyOTP_cases otpData ipAddress userAgent env d).
    cbv zeta. rewrite Hu. intros E.
    destruct (find _ _) as [otp|]; [destruct (attempts_exceeded otp)|];
      (eapply events_written_one; unfold after at 1; rewrite E; reflexivity).
  - apply events_written_none. unfold after. rewrite verifyOTP_cases. cbv zeta.
    rewrite Hu. reflexivity.
Qed.

Lemma checkPassword_events (user : User.t) (email password : string)
    (ipAddress userAgent : option string) (env : Env) (d : Db) :
  events_written (checkPassword user email password ipAddress userAgent env) d
  = if bcrypt_compare password (User.password user) && negb (delivered env) then 0 else 1.
Proof.
  destruct (bcrypt_compare password (User.password user)) eqn:Hp; cbn [andb].
  - destruct (delivered env) eqn:Hm; cbn [negb].
    + eapply events_written_one. run. rewrite Hp, Hm. reflexivity.
    + apply events_written_none. run. rewrite Hp, Hm. reflexivity.
  - eapply events_written_one. run. rewrite Hp. cbn [negb].
    destruct (MAX_LOGIN_ATTEMPTS <=? or_zero (User.failedAttempts user) + 1); reflexivity.
Qed.

(** [initiateLogin] writes one event, except that it writes none when the
    account is locked with no [lastFailedAttempt] (the [TypeError]) and
    when the password is right and the mail is not delivered. *)
Lemma initiateLogin_events (loginData : LoginData) (ipAddress userAgent : option string)
    (env : Env) (d : Db) :
  events_written (initiateLogin loginData ipAddress userAgent env) d
  = match account (login_email loginData) d with
    | None => 1
    | Some user =>
        let checked :=
          if bcrypt_compare (login_password loginData) (User.password user)
             && negb (delivered env) then 0 else 1 in
        if truthy (User.isLocked user) then
          match User.lastFailedAttempt user with
          | None => 0
          | Some lastFailedAttempt =>
              if now env <? lastFailedAttempt + LOCKOUT_DURATION then 1 else checked
          end
        else checked
    end.
Proof.
  generalize (initiateLogin_cases loginData ipAddress userAgent env d). cbv zeta.
  destruct (account (login_email loginData) d) as [user|]; intros E.
  - destruct (truthy (User.isLocked user)).
    + destruct (User.lastFailedAttempt user) as [t|].
      * destruct (now env <? t + LOCKOUT_DURATION).
        -- eapply events_written_one. unfold after at 1. rewrite E. reflexivity.
        -- rewrite <- (checkPassword_events user (login_email loginData)
                        (login_password loginData) ipAddress userAgent env
                        (after (storage.unlockUser (login_email loginData) (now env)) d)).
           unfold events_written, after at 1. rewrite E. reflexivity.
      * apply events_written_none. unfold after. rewrite E. reflexivity.
    + rewrite <- (checkPassword_events user (login_email loginData)
                    (login_password loginData) ipAddress userAgent env d).
      unfold events_written, after at 1. rewrite E. reflexivity.
  - eapply events_written_one. unfold after at 1. rewrite E. reflexivity.
Qed.

(** ** Consecutive wrong passwords *)

Lemma wrong_attempt_counting (email password : string) (d : Db) (user : User.t)
    (k : Z) (a : Attempt) :
  account email d = Some user ->
  User.password user = password ->
  counting k user ->
  bcrypt_compare (att_password a) password = false ->
  exists u, account email (attempt email d a) = Some u
            /\ User.password u = password
            /\ counting (k + 1) u.
Proof.
  intros Hu Hpw Hk Ha. rewrite <- Hpw in Ha.
  destruct Hk as [(Hl & Hle & Hlt) | (Hl & (t & Ht) & Hmax)].
  - destruct (initiateLogin_wrong_password d user (mkLoginData email (att_password a))
                (att_ipAddress a) (att_userAgent a) (att_env a) Hu Hl Ha) as [_ Hacc].
    exists (failed user (now (att_env a))). split; [exact Hacc|]. split; [exact Hpw|].
    unfold counting, locked_out, failed. cbn [User.isLocked User.failedAttempts
      User.lastFailedAttempt or_zero].
    destruct (MAX_LOGIN_ATTEMPTS <=? or_zero (User.failedAttempts user) + 1) eqn:E.
    + right. apply Z.leb_le in E. repeat split; eauto. lia.
    + left. apply Z.leb_gt in E. repeat split; auto; lia.
  - destruct (now (att_env a) <? t + LOCKOUT_DURATION) eqn:Hw.
    + apply Z.ltb_lt in Hw.
      destruct (initiateLogin_locked d user (mkLoginData email (att_password a))
                  (att_ipAddress a) (att_userAgent a) (att_env a) t Hu Hl Ht Hw)
        as (_ & Husers & _).
      exists user. split; [|split; [exact Hpw|]].
      * unfold account, attempt. rewrite Husers. exact Hu.
      * right. unfold locked_out. eauto.
    + apply Z.ltb_ge in Hw.
      destruct (wrong_password_after_elapsed_lockout d user
                  (mkLoginData email (att_password a))
                  (att_ipAddress a) (att_userAgent a) (att_env a) t Hu Hl Ht Hw Hmax Ha)
        as (u & Hacc & Hl' & Hfa & Ht' & Hpw').
      exists u. split; [exact Hacc|]. split; [congruence|].
      right. unfold locked_out. rewrite Hl', Hfa, Ht'. cbn [or_zero].
      repeat split; eauto. lia.
Qed.

Lemma attempts_counting (email password : string) (l : list Attempt) :
  forall (d : Db) (user : User.t) (k : Z),
    account email d = Some user ->
    User.password user = password ->
    counting k user ->
    Forall (fun a => bcrypt_compare (att_password a) password = false) l ->
    exists u, account email (attempts email l d) = Some u
              /\ User.password u = password
              /\ counting (k + Z.of_nat (List.length l)) u.
Proof.
  induction l as [|a l IH]; intros d user k Hu Hpw Hk Hwrong.
  - exists user. cbn. rewrite Z.add_0_r. auto.
  - inversion Hwrong as [|? ? Ha Hrest]; subst.
    destruct (wrong_attempt_counting email _ d user k a Hu eq_refl Hk Ha)
      as (u & Hu' & Hpw' & Hk').
    destruct (IH (attempt email d a) u (k + 1) Hu' Hpw' Hk' Hrest) as (u' & H1 & H2 & H3).
    exists u'. cbn [attempts fold_left List.length]. repeat split; auto.
    rewrite Nat2Z.inj_succ. replace (k + Z.succ (Z.of_nat (List.length l)))
      with (k + 1 + Z.of_nat (List.length l)) by lia. exact H3.
Qed.

(** C1. For an account that is not locked and whose counter of failed
    attempts is not negative: after [MAX_LOGIN_ATTEMPTS] consecutive
    [initiateLogin] calls with a wrong password its [isLocked] is true and
    its [lastFailedAttempt] is set, and from then every [initiateLogin] for
    that account, whatever the password, fails with [AccountLocked] and
    leaves the account as it is, as long as less than [LOCKOUT_DURATION]
    has elapsed since [lastFailedAttempt]. When the counter starts at
    zero, the account is locked by exactly the last of these calls: it is
    not locked after fewer of them, and [lastFailedAttempt] is the instant
    of the last one. *)
Theorem lockout_after_max_attempts (email : string) (d : Db) (user : User.t)
    (l : list Attempt) :
  account email d = Some user ->
  truthy (User.isLocked user) = false ->
  0 <= or_zero (User.failedAttempts user) ->
  List.length l = Z.to_nat MAX_LOGIN_ATTEMPTS ->
  Forall (wrong_password user) l ->
  exists locked lastFailedAttempt,
    account email (attempts email l d) = Some locked
    /\ User.isLocked locked = Some true
    /\ User.lastFailedAttempt locked = Some lastFailedAttempt
    /\ (forall (password : string) (ipAddress userAgent : option string) (env : Env),
          now env < lastFailedAttempt + LOCKOUT_DURATION ->
          result (initiateLogin (mkLoginData email password) ipAddress userAgent env)
                 (attempts email l d) = inl AccountLocked
          /\ users (after (initiateLogin (mkLoginData email password)
                             ipAddress userAgent env) (attempts email l d))
             = users (attempts email l d))
    /\ (or_zero (User.failedAttempts user) = 0 ->
        (forall k, (k < List.length l)%nat ->
           exists u, account email (attempts email (firstn k l) d) = Some u
                     /\ truthy (User.isLocked u) = false)
        /\ option_map (fun a => now (att_env a))
             (nth_error l (Z.to_nat (MAX_LOGIN_ATTEMPTS - 1)))
           = Some lastFailedAttempt).
Proof.
  intros Hu Hl Hfa Hlen Hwrong.
  destruct (attempts_counting email (User.password user) l d user 0 Hu eq_refl)
    as (locked & Hacc & _ & Hk); [left; repeat split; auto; lia|exact Hwrong|].
  rewrite Hlen in Hk. change (0 + Z.of_nat (Z.to_nat MAX_LOGIN_ATTEMPTS)) with 5 in Hk.
  destruct Hk as [(_ & Hle & Hlt) | (Hlocked & (t & Ht) & _)];
    [unfold MAX_LOGIN_ATTEMPTS in Hlt; lia|].
  exists locked, t. split; [exact Hacc|]. split; [exact Hlocked|]. split; [exact Ht|].
  split.
  - intros password ip ua env Hnow.
    destruct (initiateLogin_locked (attempts email l d) locked (mkLoginData email password)
                ip ua env t Hacc Hlocked Ht Hnow) as (H1 & H2 & _).
    split; assumption.
  - intros Hzero. split.
    + intros k Hk.
      destruct (attempts_below_limit email (User.password user) (firstn k l) d user)
        as (u & H1 & _ & H3 & _); auto.
      * apply Forall_forall. intros a Ha.
        apply (proj1 (Forall_forall _ _) Hwrong a (In_firstn _ _ _ _ Ha)).
      * rewrite Hzero, firstn_length_le by lia.
        rewrite Hlen in Hk. change (Z.to_nat MAX_LOGIN_ATTEMPTS) with 5%nat in Hk.
        unfold MAX_LOGIN_ATTEMPTS. lia.
      * eauto.
    + change (Z.to_nat MAX_LOGIN_ATTEMPTS) with 5%nat in Hlen.
      destruct l as [|a1 [|a2 [|a3 [|a4 [|a5 [|? ?]]]]]]; try discriminate.
      change [a1; a2; a3; a4; a5] with ([a1; a2; a3; a4] ++ [a5])%list in *.
      apply Forall_app in Hwrong. destruct Hwrong as [H4 H5].
      inversion H5 as [|? ? Ha5 _]; subst.
      destruct (attempts_below_limit email (User.password user) [a1; a2; a3; a4] d user)
        as (u & H1 & H2 & H3 & _); auto.
      { rewrite Hzero. unfold MAX_LOGIN_ATTEMPTS. cbn. lia. }
      assert (Hlast : account email (attempt email (attempts email [a1; a2; a3; a4] d) a5)
                      = Some locked) by exact Hacc.
      unfold wrong_password in Ha5. rewrite <- H2 in Ha5.
      destruct (initiateLogin_wrong_password (attempts email [a1; a2; a3; a4] d) u
                  (mkLoginData email (att_password a5))
                  (att_ipAddress a5) (att_userAgent a5) (att_env a5) H1 H3 Ha5)
        as [_ Hacc'].
      unfold attempt in Hlast. cbn [login_email] in Hacc'.
      rewrite Hacc' in Hlast. injection Hlast as <-.
      cbn in Ht. injection Ht as <-. reflexivity.
Qed.

(** ** A locked account without [lastFailedAttempt] *)

(** [verifyOTP] clears [lastFailedAttempt] and leaves [isLocked]; on an
    account that is locked with no [lastFailedAttempt], [initiateLogin]
    throws the [TypeError] of [user.lastFailedAttempt!.getTime()] and
    changes nothing, whatever the password and the instant. *)
Lemma initiateLogin_stuck (d : Db) (user : User.t) (loginData : LoginData)
    (ipAddress userAgent : option string) (env : Env) :
  account (login_email loginData) d = Some user ->
  User.isLocked user = Some true ->
  User.lastFailedAttempt user = None ->
  initiateLogin loginData ipAddress userAgent env d
  = (inl (TypeError "Cannot read properties of null (reading 'getTime')"), d).
Proof.
  intros Hu Hl Ht. rewrite initiateLogin_cases. cbv zeta.
  rewrite Hu, Hl, Ht. reflexivity.
Qed.

Lemma attempts_reachable (d0 : Db) (email : string) (l : list Attempt) :
  forall d,
    Forall (fun a => randomInt_range (drawn (att_env a))) l ->
    reachable d0 d ->
    reachable d0 (attempts email l d).
Proof.
  induction l as [|a l IH]; intros d Hl Hr; [exact Hr|].
  inversion Hl as [|? ? Ha Hrest]; subst.
  cbn [attempts fold_left]. apply IH; [exact Hrest|].
  exact (reachable_call d0 d
           (CallInitiateLogin (mkLoginData email (att_password a))
              (att_ipAddress a) (att_userAgent a)) (att_env a) Hr Ha).
Qed.

(** ** Rules for [preserves] *)

Lemma preserves_ret (A : Type) (P : Db -> Prop) (a : A) : preserves P (ret a).
Proof. intros d H. exact H. Qed.

Lemma preserves_throw (A : Type) (P : Db -> Prop) (e : exn) : preserves P (@throw A e).
Proof. intros d H. exact H. Qed.

Lemma preserves_gets (A : Type) (P : Db -> Prop) (f : Db -> A) : preserves P (gets f).
Proof. intros d H. exact H. Qed.

Lemma preserves_bind (A B : Type) (P : Db -> Prop) (m : M A) (k : A -> M B) :
  preserves P m -> (forall a, preserves P (k a)) -> preserves P (bind m k).
Proof.
  intros Hm Hk d H. specialize (Hm d H).
  unfold after, bind in *. destruct (m d) as [[e|a] d']; cbn [fst snd] in *.
  - exact Hm.
  - exact (Hk a d' Hm).
Qed.

Ltac preserve :=
  repeat match goal with
  | |- preserves _ (bind _ _) => apply preserves_bind; [|intro]
  | |- preserves _ (ret _) => apply preserves_ret
  | |- preserves _ (throw _) => apply preserves_throw
  | |- preserves _ (gets _) => apply preserves_gets
  | |- preserves _ (match ?x with _ => _ end) => destruct x
  | |- preserves _ (if ?x then _ else _) => destruct x
  end.

(** What each login call is made of: if the storage operations it uses
    keep [P], it keeps [P]. *)
Lemma initiateLogin_preserves (P : Db -> Prop) (loginData : LoginData)
    (ipAddress userAgent : option string) (env : Env) :
  (forall log now, preserves P (storage.logSecurityEvent log now)) ->
  (forall now, preserves P (storage.unlockUser (login_email loginData) now)) ->
  (forall n now, preserves P (storage.updateFailedAttempts (login_email loginData) n now)) ->
  (forall now, preserves P (storage.lockUser (login_email loginData) now)) ->
  (forall code expiresAt now,
     preserves P (storage.createOTP (login_email loginData) code expiresAt now)) ->
  preserves P (initiateLogin loginData ipAddress userAgent env).
Proof.
  intros Hlog Hunlock Hfail Hlock Hotp.
  unfold initiateLogin, checkLockout, checkPassword, sendOTPEmail, storage.getUserByEmail.
  cbv zeta. preserve; auto.
Qed.

Lemma verifyOTP_preserves (P : Db -> Prop) (otpData : OTPVerification)
    (ipAddress userAgent : option string) (env : Env) :
  (forall log now, preserves P (storage.logSecurityEvent log now)) ->
  (forall now, preserves P (storage.cleanupExpiredOTPs now)) ->
  (forall id, preserves P (storage.markOTPAsUsed id)) ->
  (forall id a b c now, preserves P (storage.updateUser id a b c now)) ->
  preserves P (verifyOTP otpData ipAddress userAgent env).
Proof.
  intros Hlog Hsweep Hmark Huser.
  unfold verifyOTP, storage.getUserByEmail, storage.getValidOTP.
  cbv zeta. preserve; auto.
Qed.

Lemma resendOTP_preserves (P : Db -> Prop) (email : string)
    (ipAddress userAgent : option string) (env : Env) :
  (forall log now, preserves P (storage.logSecurityEvent log now)) ->
  (forall code expiresAt now, preserves P (storage.createOTP email code expiresAt now)) ->
  preserves P (resendOTP email ipAddress userAgent env).
Proof.
  intros Hlog Hotp.
  unfold resendOTP, sendOTPEmail, storage.getUserByEmail.
  cbv zeta. preserve; auto.
Qed.

Lemma login_call_preserves (P : Db -> Prop) :
  (forall log now, preserves P (storage.logSecurityEvent log now)) ->
  (forall email now, preserves P (storage.unlockUser email now)) ->
  (forall email n now, preserves P (storage.updateFailedAttempts email n now)) ->
  (forall email now, preserves P (storage.lockUser email now)) ->
  (forall email code expiresAt now, preserves P (storage.createOTP email code expiresAt now)) ->
  (forall now, preserves P (storage.cleanupExpiredOTPs now)) ->
  (forall id, preserves P (storage.markOTPAsUsed id)) ->
  (forall id a b c now, preserves P (storage.updateUser id a b c now)) ->
  forall (c : Call) (env : Env) (d : Db), login_call c -> P d -> P (exec c env d).
Proof.
  intros Hlog Hunlock Hfail Hlock Hotp Hsweep Hmark Huser c env d Hc.
  revert d.
  destruct c as [? ? ? ? | loginData ip ua | otpData ip ua | email ip ua];
    [contradiction| | |]; cbn [exec].
  - apply initiateLogin_preserves; auto.
  - apply verifyOTP_preserves; auto.
  - apply resendOTP_preserves; auto.
Qed.

(** [registerUser], branch by branch. *)
Lemma registerUser_cases (email password : string) (firstName lastName : option string)
    (env : Env) (d : Db) :
  registerUser email password firstName lastName env d
  = match account email d with
    | Some _ => (inl (Error "User already exists"), d)
    | None =>
        let user := registered email password firstName lastName (now env) d in
        (inr (User.id user, email, firstName, lastName),
         mkDb (users d ++ [user]) (otps d) (tasks d)
           (securityLogs d ++
              [SecurityLog.mk (securityLogs_seq d) (Some (User.id user)) (Some email)
                 "USER_REGISTRATION" (Some "New user registered") None None true
                 (Some (now env))])
           (users_seq d + 1) (otps_seq d) (securityLogs_seq d + 1))
    end.
Proof.
  unfold registerUser, storage.getUserByEmail, bind at 1, gets.
  destruct (account email d); reflexivity.
Qed.

(** ** The accounts under the login calls *)

Lemma same_identity_refl (u : User.t) : same_identity u u.
Proof. repeat split. Qed.

Lemma same_accounts_refl (d : Db) : same_accounts d d.
Proof.
  split; [|reflexivity]. exists (fun u => u).
  split; [exact same_identity_refl|]. symmetry. apply map_id.
Qed.

Lemma same_accounts_update (d0 : Db) (email : string) (f : User.t -> User.t) :
  (forall u, same_identity (f u) u) ->
  preserves (same_accounts d0) (storage.update_users_by_email email f).
Proof.
  intros Hf d [(g & Hg & E) Hseq]. split; [|exact Hseq].
  exists (fun u => if String.eqb (User.email (g u)) email then f (g u) else g u).
  split.
  - intros u. destruct (String.eqb (User.email (g u)) email); [|apply Hg].
    destruct (Hf (g u)) as (H1 & H2 & H3 & H4 & H5 & H6 & H7).
    destruct (Hg u) as (G1 & G2 & G3 & G4 & G5 & G6 & G7).
    repeat split; congruence.
  - run. look. rewrite E, map_map. reflexivity.
Qed.

Lemma same_accounts_users (d0 d d' : Db) :
  users d' = users d -> users_seq d' = users_seq d ->
  same_accounts d0 d -> same_accounts d0 d'.
Proof.
  intros Hu Hs [(g & Hg & E) Hseq]. split; [|congruence].
  exists g. split; [exact Hg|congruence].
Qed.

(** No login call adds or removes an account, reorders the table, or
    changes the id, email, password hash, names, image or creation instant
    of an account; the user sequence does not move. *)
Theorem login_calls_keep_accounts (c : Call) (env : Env) (d : Db) :
  login_call c ->
  same_accounts d (exec c env d).
Proof.
  intros Hc.
  apply (login_call_preserves (same_accounts d)); try exact Hc; try apply same_accounts_refl.
  - intros log now d1. apply same_accounts_users; reflexivity.
  - intros email now. apply same_accounts_update. intros u. repeat split.
  - intros email n now. apply same_accounts_update. intros u. repeat split.
  - intros email now. apply same_accounts_update. intros u. repeat split.
  - intros email code expiresAt now d1. apply same_accounts_users; reflexivity.
  - intros now d1. apply same_accounts_users; reflexivity.
  - intros id d1. apply same_accounts_users; reflexivity.
  - intros id a b c0 now d1 [(g & Hg & E) Hseq]. split; [|exact Hseq].
    exists (fun u => if Z.eqb (User.id (g u)) id
                     then User.mk (User.id (g u)) (User.email (g u)) (User.password (g u))
                            (User.firstName (g u)) (User.lastName (g u))
                            (User.profileImageUrl (g u)) (User.isLocked (g u)) a b c0
                            (User.createdAt (g u)) (Some now)
                     else g u).
    split.
    + intros u. destruct (Z.eqb (User.id (g u)) id); [|apply Hg].
      destruct (Hg u) as (G1 & G2 & G3 & G4 & G5 & G6 & G7).
      repeat split; assumption.
    + run. look. rewrite E, map_map. reflexivity.
Qed.

(** ** The security log *)

Lemma log_extends_refl (d : Db) : log_extends d d.
Proof. exists []. symmetry. apply app_nil_r. Qed.

Lemma log_extends_same (d0 d d' : Db) :
  securityLogs d' = securityLogs d -> log_extends d0 d -> log_extends d0 d'.
Proof. intros E [l H]. exists l. congruence. Qed.

Lemma log_extends_log (d0 : Db) (log : LogEntry.t) (now : Z) :
  preserves (log_extends d0) (storage.logSecurityEvent log now).
Proof.
  intros d [l H]. run. look. rewrite H, <- app_assoc. eexists. reflexivity.
Qed.

Lemma resendOTP_events (email : string) (ipAddress userAgent : option string)
    (env : Env) (d : Db) :
  events_written (resendOTP email ipAddress userAgent env) d
  = match account email d with
    | Some _ => if delivered env then 1 else 0
    | None => 0
    end.
Proof.
  destruct (account email d) as [user|] eqn:Hu.
  - destruct (delivered env) eqn:Hm.
    + eapply events_written_one. run. rewrite Hu. simp. rewrite Hm. reflexivity.
    + apply events_written_none. run. rewrite Hu. simp. rewrite Hm. reflexivity.
  - apply events_written_none. run. rewrite Hu. reflexivity.
Qed.

Lemma registerUser_events (email password : string) (firstName lastName : option string)
    (env : Env) (d : Db) :
  events_written (registerUser email password firstName lastName env) d
  = match account email d with Some _ => 0 | None => 1 end.
Proof.
  generalize (registerUser_cases email password firstName lastName env d).
  destruct (account email d); intros E.
  - apply events_written_none. unfold after. rewrite E. reflexivity.
  - eapply events_written_one. unfold after at 1. rewrite E. reflexivity.
Qed.

Lemma exec_events_bound (c : Call) (env : Env) (d : Db) :
  Z.of_nat (List.length (securityLogs (exec c env d)))
  - Z.of_nat (List.length (securityLogs d)) <= 1.
Proof.
  destruct c as [email password firstName lastName | loginData ip ua | otpData ip ua
                | email ip ua]; cbn [exec].
  - change (events_written (registerUser email password firstName lastName env) d <= 1).
    rewrite registerUser_events. destruct (account email d); lia.
  - change (events_written (initiateLogin loginData ip ua env) d <= 1).
    rewrite initiateLogin_events.
    destruct (account (login_email loginData) d) as [user|]; [|lia]. cbv zeta.
    assert (H : (if bcrypt_compare (login_password loginData) (User.password user)
                    && negb (delivered env) then 0 else 1) <= 1)
      by (destruct (_ && _); lia).
    destruct (truthy (User.isLocked user)); [|exact H].
    destruct (User.lastFailedAttempt user) as [t|]; [|lia].
    destruct (now env <? t + LOCKOUT_DURATION); [lia|exact H].
  - change (events_written (verifyOTP otpData ip ua env) d <= 1).
    rewrite verifyOTP_events. destruct (account (otp_email otpData) d); lia.
  - change (events_written (resendOTP email ip ua env) d <= 1).
    rewrite resendOTP_events.
    destruct (account email d); [destruct (delivered env)|]; lia.
Qed.

(** The security log is append-only: after any call, the log is the log
    before the call followed by what the call wrote, which is at most one
    entry. *)
Theorem security_log_append_only (c : Call) (env : Env) (d : Db) :
  exists added,
    securityLogs (exec c env d) = (securityLogs d ++ added)%list
    /\ (List.length added <= 1)%nat.
Proof.
  assert (H : log_extends d (exec c env d)).
  { destruct c as [email password firstName lastName | loginData ip ua | otpData ip ua
                  | email ip ua].
    - cbn [exec]. unfold after. rewrite registerUser_cases.
      destruct (account email d); [apply log_extends_refl|].
      eexists. reflexivity.
    - apply (login_call_preserves (log_extends d)); try exact I; try apply log_extends_refl;
        try apply log_extends_log;
        intros; intros d1; apply log_extends_same; reflexivity.
    - apply (login_call_preserves (log_extends d)); try exact I; try apply log_extends_refl;
        try apply log_extends_log;
        intros; intros d1; apply log_extends_same; reflexivity.
    - apply (login_call_preserves (log_extends d)); try exact I; try apply log_extends_refl;
        try apply log_extends_log;
        intros; intros d1; apply log_extends_same; reflexivity. }
  destruct H as [added E]. exists added. split; [exact E|].
  pose proof (exec_events_bound c env d) as Hb.
  rewrite E, List.length_app in Hb. lia.
Qed.

(** ** Keys *)

Lemma map_map_same (A B : Type) (f : A -> B) (g : A -> A) (l : list A) :
  (forall x, f (g x) = f x) -> map f (map g l) = map f l.
Proof.
  intros H. rewrite map_map. apply map_ext. exact H.
Qed.

Lemma NoDup_map_filter (A B : Type) (key : A -> B) (selected : A -> bool) (rows : list A)
    (Hkeys : NoDup (map key rows)) :
  NoDup (map key (filter selected rows)).
Proof.
  induction rows as [|row rows IH]; cbn; [constructor|].
  cbn in Hkeys. inversion Hkeys as [|? ? Hrow Hrows]; subst.
  destruct (selected row); cbn; [|auto].
  constructor; [|auto].
  intros Hin. apply Hrow. apply in_map_iff in Hin. destruct Hin as (y & Hy & Hin).
  apply filter_In in Hin. apply in_map_iff. exists y. tauto.
Qed.

Lemma NoDup_map_snoc (A : Type) (f : A -> Z) (l : list A) (x : A) (seq : Z) :
  NoDup (map f l) -> Forall (fun y => f y < seq) l -> f x = seq ->
  NoDup (map f (l ++ [x])).
Proof.
  intros Hnd Hlt Hx. rewrite map_app. cbn.
  apply NoDup_app; [exact Hnd|repeat constructor; auto|].
  intros z Hz [<-|[]]. apply in_map_iff in Hz. destruct Hz as (y & Hy & Hin).
  rewrite Forall_forall in Hlt. specialize (Hlt y Hin). lia.
Qed.

Lemma Forall_below_snoc (A : Type) (f : A -> Z) (l : list A) (x : A) (seq : Z) :
  Forall (fun y => f y < seq) l -> f x = seq ->
  Forall (fun y => f y < seq + 1) (l ++ [x]).
Proof.
  intros Hlt Hx. apply Forall_app. split.
  - eapply Forall_impl; [|exact Hlt]. cbn. intros. lia.
  - repeat constructor. lia.
Qed.

Lemma Forall_map_same (A : Type) (f : A -> Z) (g : A -> A) (l : list A) (seq : Z) :
  (forall x, f (g x) = f x) ->
  Forall (fun y => f y < seq) l -> Forall (fun y => f y < seq) (map g l).
Proof.
  intros H Hl. apply Forall_map. eapply Forall_impl; [|exact Hl].
  cbn. intros x. rewrite H. auto.
Qed.

Lemma Forall_filter_keep (A : Type) (P : A -> Prop) (p : A -> bool) (l : list A) :
  Forall P l -> Forall P (filter p l).
Proof.
  rewrite !Forall_forall. intros H x Hx. apply filter_In in Hx. apply H. tauto.
Qed.

Lemma keys_unique_update (email : string) (f : User.t -> User.t) :
  (forall u, User.id (f u) = User.id u /\ User.email (f u) = User.email u) ->
  preserves keys_unique (storage.update_users_by_email email f).
Proof.
  intros Hf d (U1 & U2 & U3 & O1 & O2 & L1 & L2). run. look.
  assert (Hid : forall u, User.id (if String.eqb (User.email u) email then f u else u)
                          = User.id u)
    by (intros u; destruct (String.eqb _ _); [apply Hf|reflexivity]).
  assert (Hem : forall u, User.email (if String.eqb (User.email u) email then f u else u)
                          = User.email u)
    by (intros u; destruct (String.eqb _ _); [apply Hf|reflexivity]).
  repeat split; simp; auto.
  - rewrite map_map_same; auto.
  - rewrite map_map_same; auto.
  - apply Forall_map_same; auto.
Qed.

Lemma keys_unique_log (log : LogEntry.t) (now : Z) :
  preserves keys_unique (storage.logSecurityEvent log now).
Proof.
  intros d (U1 & U2 & U3 & O1 & O2 & L1 & L2). run. look.
  repeat split; simp; auto.
  - eapply NoDup_map_snoc; eauto.
  - apply Forall_below_snoc; auto.
Qed.

Lemma keys_unique_createOTP (email code : string) (expiresAt now : Z) :
  preserves keys_unique (storage.createOTP email code expiresAt now).
Proof.
  intros d (U1 & U2 & U3 & O1 & O2 & L1 & L2). run. look.
  repeat split; simp; auto.
  - eapply NoDup_map_snoc; eauto.
  - apply Forall_below_snoc; auto.
Qed.

Lemma keys_unique_sweep (now : Z) :
  preserves keys_unique (storage.cleanupExpiredOTPs now).
Proof.
  intros d (U1 & U2 & U3 & O1 & O2 & L1 & L2). run. look.
  repeat split; simp; auto.
  - apply NoDup_map_filter. exact O1.
  - apply Forall_filter_keep. exact O2.
Qed.

Lemma keys_unique_mark (id : Z) :
  preserves keys_unique (storage.markOTPAsUsed id).
Proof.
  intros d (U1 & U2 & U3 & O1 & O2 & L1 & L2). run. look.
  assert (Hid : forall o, OTP.id (if Z.eqb (OTP.id o) id then used o else o) = OTP.id o)
    by (intros o; destruct (Z.eqb _ _); reflexivity).
  repeat split; simp; auto.
  - fold used. rewrite map_map_same; auto.
  - fold used. apply Forall_map_same; auto.
Qed.

Lemma keys_unique_updateUser (id : Z) (a b c : option Z) (now : Z) :
  preserves keys_unique (storage.updateUser id a b c now).
Proof.
  intros d (U1 & U2 & U3 & O1 & O2 & L1 & L2). run. look.
  repeat split; simp; auto.
  - rewrite map_map_same; auto. intros u. destruct (Z.eqb _ _); reflexivity.
  - rewrite map_map_same; auto. intros u. destruct (Z.eqb _ _); reflexivity.
  - apply Forall_map_same; auto. intros u. destruct (Z.eqb _ _); reflexivity.
Qed.

Lemma account_none_fresh (email : string) (d : Db) :
  account email d = None -> ~ In email (map User.email (users d)).
Proof.
  intros H Hin. apply in_map_iff in Hin. destruct Hin as (u & Hu & Hin).
  unfold account in H. pose proof (find_none _ _ H u Hin) as Hf. cbn in Hf.
  rewrite Hu, String.eqb_refl in Hf. discriminate.
Qed.

Lemma keys_unique_exec (c : Call) (env : Env) (d : Db) :
  keys_unique d -> keys_unique (exec c env d).
Proof.
  destruct c as [email password firstName lastName | loginData ip ua | otpData ip ua
                | email ip ua].
  - intros (U1 & U2 & U3 & O1 & O2 & L1 & L2).
    cbn [exec]. unfold after. rewrite registerUser_cases.
    destruct (account email d) eqn:Hacc; [repeat split; assumption|].
    cbv zeta. simp. repeat split; simp; auto.
    + rewrite map_app. cbn. apply NoDup_app; [exact U1|repeat constructor; auto|].
      intros z Hz [<-|[]]. exact (account_none_fresh email d Hacc Hz).
    + eapply NoDup_map_snoc; eauto.
    + apply Forall_below_snoc; auto.
    + eapply NoDup_map_snoc; eauto.
    + apply Forall_below_snoc; auto.
  - apply (login_call_preserves keys_unique); try exact I;
      auto using keys_unique_log, keys_unique_createOTP, keys_unique_sweep,
        keys_unique_mark, keys_unique_updateUser;
      intros; apply keys_unique_update; intros u; split; reflexivity.
  - apply (login_call_preserves keys_unique); try exact I;
      auto using keys_unique_log, keys_unique_createOTP, keys_unique_sweep,
        keys_unique_mark, keys_unique_updateUser;
      intros; apply keys_unique_update; intros u; split; reflexivity.
  - apply (login_call_preserves keys_unique); try exact I;
      auto using keys_unique_log, keys_unique_createOTP, keys_unique_sweep,
        keys_unique_mark, keys_unique_updateUser;
      intros; apply keys_unique_update; intros u; split; reflexivity.
Qed.

(** In every state the calls lead to from a database whose emails and
    identifiers are unique and below their sequences (the empty database is
    one), no two accounts share an email or an id, no two challenges and no
    two log entries share an id, and every id in use is below its
    sequence. *)
Theorem reachable_keys_unique (d0 d : Db) :
  keys_unique d0 ->
  reachable d0 d ->
  keys_unique d.
Proof.
  intros H0 Hr. induction Hr as [|d c env _ IH _]; [exact H0|].
  apply keys_unique_exec. exact IH.
Qed.

Lemma emptyDb_keys_unique : keys_unique emptyDb.
Proof. repeat split; constructor. Qed.

(** ** Registration *)

Lemma account_snoc_new (email : string) (l : list User.t) (user : User.t) :
  find (fun u => String.eqb (User.email u) email) l = None ->
  User.email user = email ->
  find (fun u => String.eqb (User.email u) email) (l ++ [user]) = Some user.
Proof.
  intros Hnone He. induction l as [|x l IH]; cbn in *.
  - rewrite He, String.eqb_refl. reflexivity.
  - destruct (String.eqb (User.email x) email); [discriminate|auto].
Qed.

Lemma account_snoc_old (email : string) (l : list User.t) (user u : User.t) :
  find (fun u => String.eqb (User.email u) email) l = Some u ->
  find (fun u => String.eqb (User.email u) email) (l ++ [user]) = Some u.
Proof.
  induction l as [|x l IH]; cbn; [discriminate|].
  destruct (String.eqb (User.email x) email); auto.
Qed.

(** [registerUser] with an email that already has an account throws
    [Error "User already exists"] and leaves the database as it was: no row,
    no Security Event. *)
Theorem registerUser_existing_email (email password : string)
    (firstName lastName : option string) (env : Env) (d : Db) (user : User.t) :
  account email d = Some user ->
  registerUser email password firstName lastName env d
  = (inl (Error "User already exists"), d).
Proof.
  intros Hu. rewrite registerUser_cases, Hu. reflexivity.
Qed.

(** [registerUser] with an email that has no account returns the new id
    (the value of the user sequence), the email and the names; it appends
    one account, found from then on under that email, which stores the
    bcrypt hash of the password at [SALT_ROUNDS] rounds, is not locked, has
    counter 0 and no [lastFailedAttempt] or [lastLogin]; every account
    stored before is still found as it was; and it writes one Security
    Event. *)
Theorem registerUser_new_email (email password : string)
    (firstName lastName : option string) (env : Env) (d : Db) :
  account email d = None ->
  let d' := after (registerUser email password firstName lastName env) d in
  result (registerUser email password firstName lastName env) d
  = inr (users_seq d, email, firstName, lastName)
  /\ (exists user,
        account email d' = Some user
        /\ users d' = (users d ++ [user])%list
        /\ User.id user = users_seq d
        /\ User.password user = bcrypt_hash password SALT_ROUNDS
        /\ User.firstName user = firstName /\ User.lastName user = lastName
        /\ User.isLocked user = Some false
        /\ User.failedAttempts user = Some 0
        /\ User.lastFailedAttempt user = None
        /\ User.lastLogin user = None)
  /\ (forall other u, account other d = Some u -> account other d' = Some u)
  /\ events_written (registerUser email password firstName lastName env) d = 1
  /\ otps d' = otps d.
Proof.
  intros Hnone d'. unfold d'. clear d'.
  pose proof (registerUser_cases email password firstName lastName env d) as E.
  rewrite Hnone in E. cbv zeta in E.
  split; [unfold result; rewrite E; reflexivity|].
  split; [|split; [|split]].
  - exists (registered email password firstName lastName (now env) d).
    split; [|repeat split; unfold after; rewrite E; reflexivity].
    unfold after. rewrite E. unfold account in *. simp.
    apply account_snoc_new; [exact Hnone|reflexivity].
  - intros other u Hu. unfold after. rewrite E. unfold account in *. simp.
    apply account_snoc_old. exact Hu.
  - rewrite registerUser_events, Hnone. reflexivity.
  - unfold after. rewrite E. reflexivity.
Qed.

(** ** resendOTP *)

(** [resendOTP] for an email that has no account throws
    [Error "User not found"] and leaves the database as it was. *)
Theorem resendOTP_unknown_email (email : string) (ipAddress userAgent : option string)
    (env : Env) (d : Db) :
  account email d = None ->
  resendOTP email ipAddress userAgent env d = (inl NotFound, d).
Proof.
  intros Hnone. run. rewrite Hnone. reflexivity.
Qed.

(** [resendOTP], branch by branch. *)
Lemma resendOTP_cases (email : string) (ipAddress userAgent : option string)
    (env : Env) (d : Db) :
  resendOTP email ipAddress userAgent env d
  = match account email d with
    | None => (inl NotFound, d)
    | Some user =>
        let stored := after (storage.createOTP email (generateOTPCode (drawn env))
                               (now env + OTP_EXPIRY_MINUTES * 60 * 1000) (now env)) d in
        if delivered env then
          (inr (mkResendAck "New OTP sent to your email"),
           after (storage.logSecurityEvent
                    (LogEntry.mk (Some (User.id user)) (Some email) "OTP_RESENT"
                       (Some "OTP resent to email") ipAddress userAgent true) (now env))
                 stored)
        else (inl NotificationDeliveryFailed, stored)
    end.
Proof.
  run. destruct (account email d); [|reflexivity].
  simp. destruct (delivered env); reflexivity.
Qed.

(** [resendOTP] for an existing account asks for no password and looks at
    no lockout state: whatever the account's [isLocked] and counter, it
    stores one more challenge for the email, with the drawn code, unused,
    attempt counter 0 and expiry [OTP_EXPIRY_MINUTES] minutes after [now],
    and leaves the [users] table alone. It returns the acknowledgment when
    the mail is delivered and throws [NotificationDeliveryFailed] when it
    is not; the challenge is stored either way. *)
Theorem resendOTP_known_email (email : string) (ipAddress userAgent : option string)
    (env : Env) (d : Db) (user : User.t) :
  account email d = Some user ->
  let d' := after (resendOTP email ipAddress userAgent env) d in
  result (resendOTP email ipAddress userAgent env) d
  = (if delivered env then inr (mkResendAck "New OTP sent to your email")
     else inl NotificationDeliveryFailed)
  /\ otps d'
     = (otps d ++ [OTP.mk (otps_seq d) email (toString (drawn env))
                     (now env + 600000) (Some false) (Some 0) (Some (now env))])%list
  /\ users d' = users d.
Proof.
  intros Hu d'. unfold d', result, after. clear d'.
  rewrite resendOTP_cases, Hu. cbv zeta.
  destruct (delivered env); repeat split.
Qed.

(** ** Registration, then profile and login *)

Lemma getUser_snoc_new (id : Z) (l : list User.t) (user : User.t) :
  Forall (fun u => User.id u < id) l ->
  User.id user = id ->
  find (fun u => Z.eqb (User.id u) id) (l ++ [user]) = Some user.
Proof.
  intros Hlt Hid. induction l as [|x l IH]; cbn.
  - rewrite Hid, Z.eqb_refl. reflexivity.
  - inversion Hlt as [|? ? Hx Hl]; subst.
    destruct (Z.eqb (User.id x) (User.id user)) eqn:E; [apply Z.eqb_eq in E; lia|auto].
Qed.

(** After [registerUser] has created an account, [getUserProfile] with the
    id it returned gives the email and the names registered, with no
    profile image and no [lastLogin] (given that the ids in use are below
    the user sequence, as they are in every reachable state). *)
Theorem register_then_profile (email password : string)
    (firstName lastName : option string) (env : Env) (d : Db) :
  keys_unique d ->
  account email d = None ->
  result (registerUser email password firstName lastName env) d
  = inr (users_seq d, email, firstName, lastName)
  /\ getUserProfile (users_seq d)
       (after (registerUser email password firstName lastName env) d)
     = (inr (mkProfile (users_seq d) email firstName lastName None None),
        after (registerUser email password firstName lastName env) d).
Proof.
  intros (_ & _ & U3 & _) Hnone.
  pose proof (registerUser_cases email password firstName lastName env d) as E.
  rewrite Hnone in E. cbv zeta in E.
  unfold result, after. rewrite E. split; [reflexivity|].
  unfold getUserProfile, storage.getUser, bind, gets. simp.
  rewrite (getUser_snoc_new (users_seq d) (users d)
             (registered email password firstName lastName (now env) d) U3 eq_refl).
  reflexivity.
Qed.

(** When [bcrypt.compare] accepts a password against its own hash, an
    account just registered can start a login with that password: the call
    issues a challenge and, the mail being delivered, returns the
    acknowledgment; a password [bcrypt.compare] rejects against that hash is
    answered [InvalidCredentials]. *)
Theorem register_then_login (email password : string)
    (firstName lastName : option string) (env env' : Env) (d : Db)
    (ipAddress userAgent : option string) :
  account email d = None ->
  bcrypt_compare password (bcrypt_hash password SALT_ROUNDS) = true ->
  let d' := after (registerUser email password firstName lastName env) d in
  result (initiateLogin (mkLoginData email password) ipAddress userAgent env') d'
  = (if delivered env' then inr (mkLoginAck "OTP sent to your email" email)
     else inl NotificationDeliveryFailed)
  /\ otps (after (initiateLogin (mkLoginData email password) ipAddress userAgent env') d')
     = (otps d ++ [issued email env' d])%list
  /\ forall other,
       bcrypt_compare other (bcrypt_hash password SALT_ROUNDS) = false ->
       result (initiateLogin (mkLoginData email other) ipAddress userAgent env') d'
       = inl InvalidCredentials.
Proof.
  intros Hnone Hok d'.
  assert (Hacc : account email d'
                 = Some (registered email password firstName lastName (now env) d)).
  { unfold d', after. rewrite registerUser_cases, Hnone. cbv zeta.
    unfold account in *. simp. apply account_snoc_new; [exact Hnone|reflexivity]. }
  assert (Hotps : otps d' = otps d /\ otps_seq d' = otps_seq d).
  { unfold d', after. rewrite registerUser_cases, Hnone. split; reflexivity. }
  destruct Hotps as [Hotps Hseq].
  split; [|split].
  - unfold result.
    rewrite (initiateLogin_not_locked d' _ (mkLoginData email password) ipAddress userAgent
               env' Hacc eq_refl).
    cbn [login_email login_password].
    change (result (checkPassword (registered email password firstName lastName (now env) d)
                      email password ipAddress userAgent env') d'
            = (if delivered env' then inr (mkLoginAck "OTP sent to your email" email)
               else inl NotificationDeliveryFailed)).
    rewrite checkPassword_result. cbn [User.password registered]. rewrite Hok. reflexivity.
  - unfold after at 1.
    rewrite (initiateLogin_not_locked d' _ (mkLoginData email password) ipAddress userAgent
               env' Hacc eq_refl).
    cbn [login_email login_password].
    change (otps (after (checkPassword (registered email password firstName lastName
                                           (now env) d)
                           email password ipAddress userAgent env') d')
            = (otps d ++ [issued email env' d])%list).
    rewrite checkPassword_otps. cbn [User.password registered]. rewrite Hok, Hotps.
    unfold issued. rewrite Hseq. reflexivity.
  - intros other Hbad. unfold result.
    rewrite (initiateLogin_not_locked d' _ (mkLoginData email other) ipAddress userAgent
               env' Hacc eq_refl).
    cbn [login_email login_password].
    change (result (checkPassword (registered email password firstName lastName (now env) d)
                      email other ipAddress userAgent env') d' = inl InvalidCredentials).
    rewrite checkPassword_result. cbn [User.password registered]. rewrite Hbad. reflexivity.
Qed.

(** ** A right password *)

(** [initiateLogin] with the right password on an account that is not
    locked stores one more challenge for the email (the drawn code, unused,
    counter 0, expiry [OTP_EXPIRY_MINUTES] minutes after [now]) and leaves
    the [users] table alone: the counter of failed attempts is not reset.
    It returns the acknowledgment and writes one Security Event when the
    mail is delivered; when it is not, it throws
    [NotificationDeliveryFailed] and writes none, the challenge staying
    stored. *)
Theorem initiateLogin_right_password (d : Db) (user : User.t) (loginData : LoginData)
    (ipAddress userAgent : option string) (env : Env) :
  account (login_email loginData) d = Some user ->
  truthy (User.isLocked user) = false ->
  bcrypt_compare (login_password loginData) (User.password user) = true ->
  let d' := after (initiateLogin loginData ipAddress userAgent env) d in
  result (initiateLogin loginData ipAddress userAgent env) d
  = (if delivered env
     then inr (mkLoginAck "OTP sent to your email" (login_email loginData))
     else inl NotificationDeliveryFailed)
  /\ otps d'
     = (otps d ++ [OTP.mk (otps_seq d) (login_email loginData) (toString (drawn env))
                     (now env + 600000) (Some false) (Some 0) (Some (now env))])%list
  /\ users d' = users d
  /\ events_written (initiateLogin loginData ipAddress userAgent env) d
     = (if delivered env then 1 else 0).
Proof.
  intros Hu Hl Hp d'. unfold d'. clear d'.
  pose proof (initiateLogin_not_locked d user loginData ipAddress userAgent env Hu Hl) as E.
  split; [|split; [|split]].
  - unfold result. rewrite E.
    change (result (checkPassword user (login_email loginData) (login_password loginData)
                      ipAddress userAgent env) d
            = (if delivered env
               then inr (mkLoginAck "OTP sent to your email" (login_email loginData))
               else inl NotificationDeliveryFailed)).
    rewrite checkPassword_result, Hp. reflexivity.
  - unfold after. rewrite E.
    change (otps (after (checkPassword user (login_email loginData)
                           (login_password loginData) ipAddress userAgent env) d)
            = (otps d ++ [issued (login_email loginData) env d])%list).
    rewrite checkPassword_otps, Hp. reflexivity.
  - unfold after. rewrite E.
    apply (checkPassword_right_users user (login_email loginData)
             (login_password loginData) ipAddress userAgent env d Hp).
  - rewrite initiateLogin_events, Hu. cbv zeta. rewrite Hl, Hp.
    destruct (delivered env); reflexivity.
Qed.

(** ** One account at a time *)

Lemma account_other_update (email other : string) (f : User.t -> User.t) (l : list User.t) :
  email <> other ->
  (forall u, User.email (f u) = User.email u) ->
  find (fun u => String.eqb (User.email u) other)
       (map (fun u => if String.eqb (User.email u) email then f u else u) l)
  = find (fun u => String.eqb (User.email u) other) l.
Proof.
  intros Hne Hf. induction l as [|x l IH]; cbn; [reflexivity|].
  destruct (String.eqb (User.email x) email) eqn:E.
  - rewrite Hf. apply String.eqb_eq in E.
    destruct (String.eqb (User.email x) other) eqn:E'; [|exact IH].
    apply String.eqb_eq in E'. congruence.
  - destruct (String.eqb (User.email x) other); [reflexivity|exact IH].
Qed.

Lemma NoDup_map_eq (A B : Type) (f : A -> B) (l : list A) (x y : A) :
  NoDup (map f l) -> In x l -> In y l -> f x = f y -> x = y.
Proof.
  induction l as [|z l IH]; cbn; [contradiction|].
  intros H Hx Hy E. inversion H as [|? ? Hz Hl]; subst.
  destruct Hx as [<-|Hx], Hy as [<-|Hy]; auto.
  - exfalso. apply Hz. rewrite E. apply in_map. exact Hy.
  - exfalso. apply Hz. rewrite <- E. apply in_map. exact Hx.
Qed.

Lemma account_other_id (email other : string) (f : User.t -> User.t) (l : list User.t)
    (user : User.t) :
  email <> other ->
  NoDup (map User.id l) ->
  (forall u, User.email (f u) = User.email u) ->
  find (fun u => String.eqb (User.email u) email) l = Some user ->
  find (fun u => String.eqb (User.email u) other)
       (map (fun u => if Z.eqb (User.id u) (User.id user) then f u else u) l)
  = find (fun u => String.eqb (User.email u) other) l.
Proof.
  intros Hne Hnd Hf Hu.
  rewrite account_map by (intros u; destruct (Z.eqb _ _); [apply Hf|reflexivity]).
  destruct (find (fun u => String.eqb (User.email u) other) l) as [u'|] eqn:Hu';
    [|reflexivity].
  cbn. destruct (Z.eqb (User.id u') (User.id user)) eqn:E; [|reflexivity].
  apply Z.eqb_eq in E.
  apply find_some in Hu. apply find_some in Hu'.
  destruct Hu as [Hin He], Hu' as [Hin' He'].
  apply String.eqb_eq in He, He'.
  pose proof (NoDup_map_eq _ _ User.id l u' user Hnd Hin' Hin E). congruence.
Qed.

(** A login call about one email leaves every account with another email
    exactly as it was (ids being unique, as they are in every reachable
    state): failed logins against one account never count against, lock
    or unlock another. *)
Theorem other_accounts_untouched (c : Call) (env : Env) (d : Db) (other : string) :
  keys_unique d ->
  login_call c ->
  call_email c <> other ->
  account other (exec c env d) = account other d.
Proof.
  intros Hk Hc Hne.
  assert (Hsame : forall d1 d2 : Db, users d2 = users d1 ->
            account other d1 = account other d -> account other d2 = account other d)
    by (unfold account; intros d1 d2 E H; rewrite E; exact H).
  assert (Hupd : forall email f, email <> other ->
            (forall u, User.email (f u) = User.email u) ->
            preserves (fun d1 => account other d1 = account other d)
              (storage.update_users_by_email email f)).
  { intros email f Hn Hf d1 H. run. look.
    rewrite account_other_update by assumption. exact H. }
  destruct c as [? ? ? ? | loginData ip ua | otpData ip ua | email ip ua];
    [contradiction| | |]; cbn [exec call_email] in *.
  - apply (initiateLogin_preserves (fun d1 => account other d1 = account other d));
      [| | | | |reflexivity].
    + intros log now d1. apply Hsame. reflexivity.
    + intros now. apply Hupd; [exact Hne|reflexivity].
    + intros n now. apply Hupd; [exact Hne|reflexivity].
    + intros now. apply Hupd; [exact Hne|reflexivity].
    + intros code expiresAt now d1. apply Hsame. reflexivity.
  - unfold after. rewrite verifyOTP_cases. cbv zeta.
    destruct (account (otp_email otpData) d) as [user|] eqn:Hu; [|reflexivity].
    destruct (find _ _) as [otp|]; [|reflexivity].
    destruct (attempts_exceeded otp); [reflexivity|].
    run. look.
    destruct Hk as (_ & U2 & _).
    apply (account_other_id (otp_email otpData) other _ (users d) user Hne U2);
      [reflexivity|exact Hu].
  - apply (resendOTP_preserves (fun d1 => account other d1 = account other d));
      [| |reflexivity].
    + intros log now d1. apply Hsame. reflexivity.
    + intros code expiresAt now d1. apply Hsame. reflexivity.
Qed.

(** ** A code, from issue to use *)

Lemma stored_challenge_verifies (d : Db) (user : User.t) (o : OTP.t)
    (email code : string) (ipAddress userAgent : option string) (env : Env) :
  attempts_default d ->
  account email d = Some user ->
  matching_challenge email code (now env) d o ->
  result (verifyOTP (mkOTPVerification email code) ipAddress userAgent env) d
  = inr (profile_of user).
Proof.
  intros Hd Hu Hm.
  rewrite (verifyOTP_result_default d (mkOTPVerification email code) ipAddress userAgent env
             user Hd Hu).
  cbn [otp_email otp_code].
  destruct (proj1 (matching_challenge_found email code (now env) d)) as (otp & E); [eauto|].
  rewrite E. reflexivity.
Qed.

Lemma no_challenge_rejected (d : Db) (user : User.t)
    (email code : string) (ipAddress userAgent : option string) (env : Env) :
  account email d = Some user ->
  (forall o, ~ matching_challenge email code (now env) d o) ->
  result (verifyOTP (mkOTPVerification email code) ipAddress userAgent env) d
  = inl InvalidOrExpiredOTP.
Proof.
  intros Hu Hno. unfold result. rewrite verifyOTP_cases. cbv zeta.
  cbn [otp_email otp_code]. rewrite Hu, swept_otps, find_valid_swept.
  destruct (find _ (otps d)) as [otp|] eqn:E; [|reflexivity].
  exfalso. apply (Hno otp). apply find_some in E. destruct E as [Hin Hv].
  apply validOTP_spec in Hv. destruct Hv as (H1 & H2 & H3 & H4).
  unfold matching_challenge. repeat split; assumption.
Qed.

(** The code [resendOTP] issues for an existing account is accepted by
    [verifyOTP] at every instant before [now] plus [OTP_EXPIRY_MINUTES]
    minutes, whether or not the mail was delivered and whatever the
    lockout state of the account; from that instant on it is rejected with
    [InvalidOrExpiredOTP], unless an older challenge with the same code is
    still live. (Stated where every stored challenge has the default
    attempt counter, as in every reachable state.) *)
Theorem resend_then_verify (d : Db) (user : User.t) (email : string)
    (ip ua ip' ua' : option string) (env env' : Env) :
  attempts_default d ->
  account email d = Some user ->
  let d' := after (resendOTP email ip ua env) d in
  let code := toString (drawn env) in
  (now env' < now env + 600000 ->
   result (verifyOTP (mkOTPVerification email code) ip' ua' env') d'
   = inr (profile_of user))
  /\ (now env + 600000 <= now env' ->
      (forall o, In o (otps d) -> OTP.email o = email -> OTP.code o = code ->
                 OTP.expiresAt o <= now env') ->
      result (verifyOTP (mkOTPVerification email code) ip' ua' env') d'
      = inl InvalidOrExpiredOTP).
Proof.
  intros Hd Hu d' code.
  pose proof (resendOTP_cases email ip ua env d) as E. rewrite Hu in E. cbv zeta in E.
  assert (Hotps : otps d' = (otps d ++ [issued email env d])%list).
  { unfold d'. rewrite resendOTP_otps, Hu. reflexivity. }
  assert (Hacc : account email d' = Some user).
  { unfold d', after. rewrite E. destruct (delivered env); exact Hu. }
  split.
  - intros Hlt. apply (stored_challenge_verifies d' user (issued email env d)).
    + unfold attempts_default. rewrite Hotps. apply Forall_app. split; [exact Hd|].
      repeat constructor.
    + exact Hacc.
    + unfold matching_challenge. rewrite Hotps. repeat split.
      * apply in_or_app. right. left. reflexivity.
      * exact Hlt.
  - intros Hge Hold. apply (no_challenge_rejected d' user); [exact Hacc|].
    intros o (Hin & He & Hc & _ & Hlt). rewrite Hotps in Hin.
    apply in_app_or in Hin. destruct Hin as [Hin|[<-|[]]].
    + specialize (Hold o Hin He Hc). lia.
    + cbn in Hlt. lia.
Qed.

(** The whole login: the right password on an account that is not locked,
    then the code drawn, submitted before [OTP_EXPIRY_MINUTES] minutes have
    passed, gives the profile of the account, whether or not the mail was
    delivered. *)
Theorem login_then_verify (d : Db) (user : User.t) (loginData : LoginData)
    (ip ua ip' ua' : option string) (env env' : Env) :
  attempts_default d ->
  account (login_email loginData) d = Some user ->
  truthy (User.isLocked user) = false ->
  bcrypt_compare (login_password loginData) (User.password user) = true ->
  now env' < now env + 600000 ->
  result (verifyOTP (mkOTPVerification (login_email loginData) (toString (drawn env)))
            ip' ua' env')
         (after (initiateLogin loginData ip ua env) d)
  = inr (profile_of user).
Proof.
  intros Hd Hu Hl Hp Hlt.
  set (d' := after (initiateLogin loginData ip ua env) d).
  assert (Hotps : otps d' = (otps d ++ [issued (login_email loginData) env d])%list).
  { unfold d', after. rewrite (initiateLogin_not_locked d user loginData ip ua env Hu Hl).
    change (otps (after (checkPassword user (login_email loginData)
                           (login_password loginData) ip ua env) d)
            = (otps d ++ [issued (login_email loginData) env d])%list).
    rewrite checkPassword_otps, Hp. reflexivity. }
  assert (Hacc : account (login_email loginData) d' = Some user).
  { unfold account, d', after.
    rewrite (initiateLogin_not_locked d user loginData ip ua env Hu Hl).
    change (find (fun u => String.eqb (User.email u) (login_email loginData))
              (users (after (checkPassword user (login_email loginData)
                               (login_password loginData) ip ua env) d)) = Some user).
    rewrite (checkPassword_right_users user (login_email loginData)
               (login_password loginData) ip ua env d Hp). exact Hu. }
  apply (stored_challenge_verifies d' user (issued (login_email loginData) env d)).
  - unfold attempts_default. rewrite Hotps. apply Forall_app. split; [exact Hd|].
    repeat constructor.
  - exact Hacc.
  - unfold matching_challenge. rewrite Hotps. repeat split.
    + apply in_or_app. right. left. reflexivity.
    + exact Hlt.
Qed.

(** A code is used once: after [verifyOTP] has accepted a code, submitting
    the same email and code again, then or later, is answered
    [InvalidOrExpiredOTP], provided the challenges that matched at the first
    call all had the same id (one challenge matched). *)
Theorem verified_code_is_spent (d : Db) (otpData : OTPVerification)
    (ip ua ip' ua' : option string) (env env' : Env) (profile : Profile) :
  result (verifyOTP otpData ip ua env) d = inr profile ->
  (forall o o',
     matching_challenge (otp_email otpData) (otp_code otpData) (now env) d o ->
     matching_challenge (otp_email otpData) (otp_code otpData) (now env) d o' ->
     OTP.id o = OTP.id o') ->
  now env <= now env' ->
  result (verifyOTP otpData ip' ua' env') (after (verifyOTP otpData ip ua env) d)
  = inl InvalidOrExpiredOTP.
Proof.
  intros Hres Hone Hle.
  pose proof (verifyOTP_otps otpData ip ua env d) as Hotps.
  unfold result in Hres. rewrite verifyOTP_cases in Hres. cbv zeta in *.
  destruct (account (otp_email otpData) d) as [user|] eqn:Hu; [|discriminate].
  rewrite swept_otps, find_valid_swept in Hres.
  rewrite find_valid_swept in Hotps.
  destruct (find _ (otps d)) as [otp|] eqn:E; [|discriminate].
  destruct (attempts_exceeded otp); [discriminate|].
  pose proof (find_some _ _ E) as [Hin Hv].
  apply validOTP_spec in Hv. destruct Hv as (V1 & V2 & V3 & V4).
  assert (Hm : matching_challenge (otp_email otpData) (otp_code otpData) (now env) d otp)
    by (unfold matching_challenge; repeat split; assumption).
  assert (Hacc : exists u, account (otp_email otpData)
                             (after (verifyOTP otpData ip ua env) d) = Some u).
  { unfold after. rewrite verifyOTP_cases. cbv zeta.
    rewrite Hu, swept_otps, find_valid_swept, E.
    destruct (attempts_exceeded otp); [eauto|].
    run. look.
    rewrite (account_update_by_id (otp_email otpData) _ (users d) user);
      [eauto|reflexivity|exact Hu]. }
  destruct Hacc as (u & Hacc).
  destruct otpData as [email code]. cbn [otp_email otp_code] in *.
  apply (no_challenge_rejected _ u); [exact Hacc|].
  intros o' (Hin' & He' & Hc' & Hused' & Hlt').
  rewrite Hotps in Hin'. apply in_map_iff in Hin'.
  destruct Hin' as (r & Hr & Hin'). apply filter_In in Hin'. destruct Hin' as [Hin' _].
  destruct (Z.eqb (OTP.id r) (OTP.id otp)) eqn:Eid.
  - subst o'. discriminate.
  - subst o'. apply Z.eqb_neq in Eid. apply Eid.
    apply (Hone r otp); [|exact Hm].
    unfold matching_challenge. repeat split; auto. lia.
Qed.

(** ** A locked account whose challenge is verified *)

(** [verifyOTP] does not look at [isLocked] and does not write it, but it
    clears [lastFailedAttempt]: when it succeeds for an account that is
    locked, the account stays locked with no [lastFailedAttempt], and from
    then on every [initiateLogin] for it, whatever the password and the
    instant, throws the [TypeError] of [user.lastFailedAttempt!.getTime()],
    writes no Security Event and changes nothing. *)
Theorem verified_while_locked_is_stuck (d : Db) (user : User.t)
    (otpData : OTPVerification) (ip ua : option string) (env : Env) (profile : Profile) :
  account (otp_email otpData) d = Some user ->
  User.isLocked user = Some true ->
  result (verifyOTP otpData ip ua env) d = inr profile ->
  let d' := after (verifyOTP otpData ip ua env) d in
  (exists u, account (otp_email otpData) d' = Some u
             /\ User.isLocked u = Some true
             /\ User.lastFailedAttempt u = None)
  /\ forall (password : string) (ip' ua' : option string) (env' : Env),
       initiateLogin (mkLoginData (otp_email otpData) password) ip' ua' env' d'
       = (inl (TypeError "Cannot read properties of null (reading 'getTime')"), d').
Proof.
  intros Hu Hl Hres d'.
  assert (Hacc : exists u, account (otp_email otpData) d' = Some u
                           /\ User.isLocked u = Some true
                           /\ User.lastFailedAttempt u = None).
  { unfold d', result, after in *. rewrite verifyOTP_cases in *. cbv zeta in *.
    rewrite Hu in *.
    destruct (find _ _) as [otp|]; [|discriminate].
    destruct (attempts_exceeded otp); [discriminate|].
    run. look.
    rewrite (account_update_by_id (otp_email otpData) _ (users d) user);
      [|reflexivity|exact Hu].
    eexists. split; [reflexivity|]. cbn. auto. }
  split; [exact Hacc|].
  destruct Hacc as (u & Hacc & Hl' & Ht').
  intros password ip' ua' env'.
  apply (initiateLogin_stuck d' u (mkLoginData (otp_email otpData) password));
    assumption.
Qed.

(** ** The attempt counter, were it incremented *)

Lemma find_map_same_pred (A : Type) (p : A -> bool) (g : A -> A) (l : list A) :
  (forall x, p (g x) = p x) -> find p (map g l) = option_map g (find p l).
Proof.
  intros H. induction l as [|x l IH]; cbn; [reflexivity|].
  rewrite H. destruct (p x); [reflexivity|exact IH].
Qed.

Lemma find_by_id (l : list OTP.t) (o : OTP.t) :
  NoDup (map OTP.id l) -> In o l ->
  find (fun x => Z.eqb (OTP.id x) (OTP.id o)) l = Some o.
Proof.
  intros Hnd Hin.
  destruct (find (fun x => Z.eqb (OTP.id x) (OTP.id o)) l) as [x|] eqn:E.
  - apply find_some in E. destruct E as [Hx Hid]. apply Z.eqb_eq in Hid.
    f_equal. exact (NoDup_map_eq _ _ OTP.id l x o Hnd Hx Hin Hid).
  - pose proof (find_none _ _ E o Hin) as H. cbn in H. rewrite Z.eqb_refl in H.
    discriminate.
Qed.

(** [incrementOTPAttempts] for an id no challenge has changes nothing. *)
Lemma incrementOTPAttempts_missing (id : Z) (d : Db) :
  (forall o, In o (otps d) -> OTP.id o <> id) ->
  storage.incrementOTPAttempts id d = (inr tt, d).
Proof.
  intros H. unfold storage.incrementOTPAttempts, bind, gets.
  destruct (find (fun o => Z.eqb (OTP.id o) id) (otps d)) as [o|] eqn:E; [|reflexivity].
  apply find_some in E. destruct E as [Hin Hid]. apply Z.eqb_eq in Hid.
  exfalso. exact (H o Hin Hid).
Qed.

Lemma incrementOTPAttempts_found (d : Db) (o : OTP.t) :
  NoDup (map OTP.id (otps d)) -> In o (otps d) ->
  after (storage.incrementOTPAttempts (OTP.id o)) d
  = with_otps (map (fun x => if Z.eqb (OTP.id x) (OTP.id o)
                             then with_attempts (or_zero (OTP.attempts o) + 1) x else x)) d.
Proof.
  intros Hnd Hin. unfold after, storage.incrementOTPAttempts, bind, gets.
  rewrite (find_by_id (otps d) o Hnd Hin). reflexivity.
Qed.

Lemma increments_otps (k : nat) :
  forall (d : Db) (o : OTP.t) (n : Z),
    NoDup (map OTP.id (otps d)) -> In o (otps d) -> OTP.attempts o = Some n ->
    users (increments k (OTP.id o) d) = users d
    /\ otps (increments k (OTP.id o) d)
       = map (fun x => if Z.eqb (OTP.id x) (OTP.id o)
                       then with_attempts (n + Z.of_nat k) x else x) (otps d).
Proof.
  induction k as [|k IH]; intros d o n Hnd Hin Hn.
  - cbn [increments]. split; [reflexivity|].
    rewrite <- (map_id (otps d)) at 1. apply map_ext_in. intros x Hx.
    destruct (Z.eqb (OTP.id x) (OTP.id o)) eqn:E; [|reflexivity].
    apply Z.eqb_eq in E. rewrite (NoDup_map_eq _ _ OTP.id (otps d) x o Hnd Hx Hin E).
    destruct o; cbn in *. subst. unfold with_attempts. cbn. rewrite Z.add_0_r. reflexivity.
  - cbn [increments]. rewrite (incrementOTPAttempts_found d o Hnd Hin), Hn. cbn [or_zero].
    set (bump := fun x => if Z.eqb (OTP.id x) (OTP.id o)
                          then with_attempts (n + 1) x else x).
    assert (Hid : forall x, OTP.id (bump x) = OTP.id x)
      by (intros x; unfold bump; destruct (Z.eqb _ _); reflexivity).
    destruct (IH (with_otps (map bump) d) (with_attempts (n + 1) o) (n + 1)) as [IH1 IH2].
    + unfold with_otps. simp. rewrite map_map_same; auto.
    + unfold with_otps. simp. apply in_map_iff. exists o. split; [|exact Hin].
      unfold bump. rewrite Z.eqb_refl. reflexivity.
    + reflexivity.
    + cbn [with_attempts OTP.id] in IH1, IH2. split; [exact IH1|].
      rewrite IH2. unfold with_otps. simp. rewrite map_map. apply map_ext. intros x.
      unfold bump. destruct (Z.eqb (OTP.id x) (OTP.id o)) eqn:E.
      * cbn [with_attempts OTP.id]. rewrite E. unfold with_attempts.
        cbn [OTP.id OTP.email OTP.code OTP.expiresAt OTP.isUsed OTP.attempts OTP.createdAt].
        rewrite Nat2Z.inj_succ. f_equal. f_equal. lia.
      * rewrite E. reflexivity.
Qed.

(** [incrementOTPAttempts] is the one operation that moves the attempt
    counter, and no call uses it. Were it called [k] times for the challenge
    that [getValidOTP] returns for an email and a code (a challenge with
    counter 0, ids being unique), [verifyOTP] for that email and code would
    still return the profile while [k < MAX_OTP_ATTEMPTS], and from
    [k = MAX_OTP_ATTEMPTS] on would throw [OTPAttemptsExceeded] and leave
    the [users] table alone. *)
Theorem attempts_limit_after_increments (d : Db) (user : User.t) (o : OTP.t)
    (email code : string) (ip ua : option string) (env : Env) (k : nat) :
  keys_unique d ->
  attempts_default d ->
  account email d = Some user ->
  find (storage.validOTP email code (now env)) (otps d) = Some o ->
  let dk := increments k (OTP.id o) d in
  result (verifyOTP (mkOTPVerification email code) ip ua env) dk
  = (if MAX_OTP_ATTEMPTS <=? Z.of_nat k then inl OTPAttemptsExceeded
     else inr (profile_of user))
  /\ (MAX_OTP_ATTEMPTS <= Z.of_nat k ->
      users (after (verifyOTP (mkOTPVerification email code) ip ua env) dk) = users d).
Proof.
  intros (_ & _ & _ & O1 & _) Hd Hu Hfind dk.
  pose proof (find_some _ _ Hfind) as [Hin Hv].
  assert (Hn : OTP.attempts o = Some 0).
  { unfold attempts_default in Hd. rewrite Forall_forall in Hd. exact (Hd o Hin). }
  destruct (increments_otps k d o 0 O1 Hin Hn) as [Husers Hotps]. fold dk in Husers, Hotps.
  assert (Hacc : account email dk = Some user) by (unfold account; rewrite Husers; exact Hu).
  assert (Hfound : find (storage.validOTP email code (now env)) (otps dk)
                   = Some (with_attempts (0 + Z.of_nat k) o)).
  { rewrite Hotps, find_map_same_pred.
    - rewrite Hfind. cbn. rewrite Z.eqb_refl. reflexivity.
    - intros x. destruct (Z.eqb (OTP.id x) (OTP.id o)); reflexivity. }
  unfold result, after. rewrite verifyOTP_cases. cbv zeta.
  cbn [otp_email otp_code]. rewrite Hacc, swept_otps, find_valid_swept, Hfound.
  unfold attempts_exceeded. cbn [with_attempts OTP.attempts]. rewrite Z.add_0_l.
  destruct (MAX_OTP_ATTEMPTS <=? Z.of_nat k) eqn:E.
  - split; [reflexivity|]. intros _. exact Husers.
  - split; [reflexivity|]. intros H. apply Z.leb_gt in E. lia.
Qed.

(** ** Ordered selections *)

Lemma not_older_total (a b : option Z) :
  storage.not_older a b = false -> storage.not_older b a = true.
Proof.
  destruct a as [x|], b as [y|]; cbn; try discriminate; auto.
  intros H. apply Z.leb_gt in H. apply Z.leb_le. lia.
Qed.

Lemma not_older_trans (a b c : option Z) :
  storage.not_older a b = true -> storage.not_older b c = true ->
  storage.not_older a c = true.
Proof.
  destruct a as [x|], b as [y|], c as [z|]; cbn; try discriminate; auto.
  intros H1 H2. apply Z.leb_le in H1, H2. apply Z.leb_le. lia.
Qed.

Lemma insert_desc_perm (A : Type) (key : A -> option Z) (x : A) (l : list A) :
  Permutation (storage.insert_desc key x l) (x :: l).
Proof.
  induction l as [|y l IH]; cbn; [reflexivity|].
  destruct (storage.not_older (key x) (key y)); [reflexivity|].
  rewrite IH. apply perm_swap.
Qed.

Lemma order_desc_perm (A : Type) (key : A -> option Z) (l : list A) :
  Permutation (storage.order_desc key l) l.
Proof.
  induction l as [|x l IH]; cbn; [reflexivity|].
  rewrite insert_desc_perm. constructor. exact IH.
Qed.

Lemma insert_desc_sorted (A : Type) (key : A -> option Z) (x : A) (l : list A) :
  StronglySorted (fun a b => storage.not_older (key a) (key b) = true) l ->
  StronglySorted (fun a b => storage.not_older (key a) (key b) = true)
    (storage.insert_desc key x l).
Proof.
  induction l as [|y l IH]; cbn; intros H.
  - repeat constructor.
  - inversion H as [|? ? Hl Hy]; subst.
    destruct (storage.not_older (key x) (key y)) eqn:E.
    + constructor; [exact H|]. constructor; [exact E|].
      eapply Forall_impl; [|exact Hy]. cbn. intros z Hz.
      eapply not_older_trans; eauto.
    + constructor; [auto|].
      apply not_older_total in E.
      rewrite Forall_forall in *. intros z Hz.
      apply (Permutation_in _ (insert_desc_perm A key x l)) in Hz.
      destruct Hz as [<-|Hz]; auto.
Qed.

Lemma order_desc_sorted (A : Type) (key : A -> option Z) (l : list A) :
  StronglySorted (fun a b => storage.not_older (key a) (key b) = true)
    (storage.order_desc key l).
Proof.
  induction l as [|x l IH]; cbn; [constructor|].
  apply insert_desc_sorted. exact IH.
Qed.

Lemma sorted_firstn_skipn (A : Type) (R : A -> A -> Prop) (n : nat) (l : list A) :
  StronglySorted R l ->
  forall x y, In x (firstn n l) -> In y (skipn n l) -> R x y.
Proof.
  revert n. induction l as [|z l IH]; intros n H x y Hx Hy.
  - destruct n; contradiction.
  - inversion H as [|? ? Hl Hz]; subst. destruct n as [|n]; [contradiction|].
    cbn in Hx, Hy. destruct Hx as [<-|Hx].
    + rewrite Forall_forall in Hz. apply Hz.
      rewrite <- (firstn_skipn n l). apply in_or_app. now right.
    + eapply IH; eauto.
Qed.

(** [getTasks] returns exactly the tasks of the user (each as often as it
    is stored, none of another user), newest first, tasks without a
    creation instant before all others; it does not change the database. *)
Theorem getTasks_sorted_selection (userId : Z) (d : Db) :
  exists l,
    storage.getTasks userId d = (inr l, d)
    /\ Permutation l (tasksOf userId d)
    /\ StronglySorted task_before l
    /\ (forall t, In t l <-> In t (tasks d) /\ Task.userId t = userId).
Proof.
  eexists. split; [reflexivity|].
  split; [apply order_desc_perm|]. split; [apply order_desc_sorted|].
  intros t. split.
  - intros H. apply (Permutation_in _ (order_desc_perm _ _ _)) in H.
    apply filter_In in H. destruct H as [H1 H2]. apply Z.eqb_eq in H2. auto.
  - intros [H1 H2]. apply (Permutation_in _ (Permutation_sym (order_desc_perm _ _ _))).
    apply filter_In. split; [exact H1|]. apply Z.eqb_eq. exact H2.
Qed.

(** [getSecurityLogs] returns at most [limit] entries, all of them stored
    entries of the user, newest first, and they are the newest: the
    entries of the user it leaves out are no newer than any it returns. *)
Theorem getSecurityLogs_newest (userId : Z) (limit : nat) (d : Db) :
  exists shown omitted,
    storage.getSecurityLogs userId limit d = (inr shown, d)
    /\ (List.length shown <= limit)%nat
    /\ Permutation (shown ++ omitted) (filter (storage.log_of userId) (securityLogs d))
    /\ (forall l, In l shown ->
          In l (securityLogs d) /\ SecurityLog.userId l = Some userId)
    /\ StronglySorted log_before shown
    /\ (forall l o, In l shown -> In o omitted -> log_before l o)
    /\ (omitted <> [] -> List.length shown = limit).
Proof.
  set (mine := filter (storage.log_of userId) (securityLogs d)).
  set (sorted := storage.order_desc SecurityLog.createdAt mine).
  exists (firstn limit sorted), (skipn limit sorted).
  assert (Hs : StronglySorted log_before sorted) by apply order_desc_sorted.
  split; [reflexivity|]. split; [apply firstn_le_length|].
  split; [rewrite firstn_skipn; apply order_desc_perm|].
  split; [|split; [|split]].
  - intros l Hl.
    assert (Hin : In l mine).
    { apply (Permutation_in _ (order_desc_perm _ SecurityLog.createdAt mine)).
      fold sorted. rewrite <- (firstn_skipn limit sorted). apply in_or_app. now left. }
    apply filter_In in Hin. destruct Hin as [H1 H2]. split; [exact H1|].
    unfold storage.log_of in H2. destruct (SecurityLog.userId l) as [u|]; [|discriminate].
    apply Z.eqb_eq in H2. congruence.
  - rewrite <- (firstn_skipn limit sorted) in Hs.
    clear -Hs. induction (firstn limit sorted) as [|x l IH]; [constructor|].
    cbn in Hs. inversion Hs as [|? ? Hl Hx]; subst.
    constructor; [auto|]. apply Forall_app in Hx. apply Hx.
  - intros l o. apply sorted_firstn_skipn. exact Hs.
  - intros Hne. apply firstn_length_le.
    destruct (Nat.le_gt_cases limit (List.length sorted)) as [H|H]; [exact H|].
    exfalso. apply Hne. apply skipn_all2. lia.
Qed.

(** ** Tasks *)

Lemma filter_filter_implied (A : Type) (p q : A -> bool) (l : list A) :
  (forall x, p x = true -> q x = true) ->
  filter p (filter q l) = filter p l.
Proof.
  intros H. induction l as [|x l IH]; cbn; [reflexivity|].
  destruct (p x) eqn:Ep.
  - rewrite (H x Ep). cbn. rewrite Ep, IH. reflexivity.
  - destruct (q x); cbn; [rewrite Ep|]; exact IH.
Qed.

Lemma filter_map_same (A : Type) (p : A -> bool) (g : A -> A) (l : list A) :
  (forall x, p (g x) = p x) -> filter p (map g l) = map g (filter p l).
Proof.
  intros H. induction l as [|x l IH]; cbn; [reflexivity|].
  rewrite H. destruct (p x); cbn; rewrite IH; reflexivity.
Qed.

(** [deleteTask] removes the tasks that have the id and belong to the
    user, and no other row: it answers [true] exactly when there was such a
    task, a task with the id that belongs to someone else stays, and the
    task lists of all other users are as they were. *)
Theorem deleteTask_owner_only (id userId : Z) (d : Db) :
  exists deleted d',
    storage.deleteTask id userId d = (inr deleted, d')
    /\ (deleted = true
        <-> exists t, In t (tasks d) /\ Task.id t = id /\ Task.userId t = userId)
    /\ (forall t, In t (tasks d')
                  <-> In t (tasks d) /\ ~ (Task.id t = id /\ Task.userId t = userId))
    /\ (forall other, other <> userId -> tasksOf other d' = tasksOf other d)
    /\ users d' = users d /\ otps d' = otps d /\ securityLogs d' = securityLogs d.
Proof.
  set (hit := fun t => Z.eqb (Task.id t) id && Z.eqb (Task.userId t) userId).
  assert (Hhit : forall t, hit t = true <-> Task.id t = id /\ Task.userId t = userId).
  { intros t. unfold hit. rewrite andb_true_iff, !Z.eqb_eq. reflexivity. }
  eexists. eexists. split; [reflexivity|]. simp.
  unfold storage.with_tasks. simp. fold hit.
  split; [|split; [|split]].
  - rewrite Z.ltb_lt. split.
    + intros Hpos. destruct (filter hit (tasks d)) as [|t l] eqn:E; [cbn in Hpos; lia|].
      assert (Hin : In t (filter hit (tasks d))) by (rewrite E; now left).
      apply filter_In in Hin. destruct Hin as [Hin Ht]. apply Hhit in Ht.
      exists t. split; [exact Hin|exact Ht].
    + intros (t & Hin & Ht). apply Hhit in Ht.
      assert (Hf : In t (filter hit (tasks d))) by (apply filter_In; auto).
      destruct (filter hit (tasks d)); [contradiction|]. cbn. lia.
  - intros t. rewrite filter_In, negb_true_iff. change (In t (tasks d) /\ hit t = false
      <-> In t (tasks d) /\ ~ (Task.id t = id /\ Task.userId t = userId)).
    split; intros [H1 H2]; (split; [exact H1|]).
    + intros Hc. apply Hhit in Hc. congruence.
    + destruct (hit t) eqn:E; [|reflexivity]. exfalso. apply H2. apply Hhit. exact E.
  - intros other Hne. unfold tasksOf. simp.
    apply filter_filter_implied. intros t Ht. apply Z.eqb_eq in Ht.
    apply negb_true_iff. unfold hit.
    destruct (Z.eqb (Task.userId t) userId) eqn:E; [|apply andb_false_r].
    apply Z.eqb_eq in E. congruence.
  - repeat split.
Qed.

(** [updateTask] selects by id alone: it rewrites every task that has the
    id, whoever owns it, with the description and the completion flag
    given (an absent key leaves its column), and returns the first row
    rewritten; when no task has the id it returns nothing and the table is
    as it was. It never changes the id or the owner of a task, and leaves
    tasks with other ids alone. *)
Theorem updateTask_any_owner (id : Z) (description : option string)
    (isCompleted : option bool) (now : Z) (d : Db) :
  exists r d',
    storage.updateTask id description isCompleted now d = (inr r, d')
    /\ (r = None <-> forall t, In t (tasks d) -> Task.id t <> id)
    /\ (r = None -> tasks d' = tasks d)
    /\ (forall t, In t (tasks d) -> Task.id t = id ->
          In (storage.updated description isCompleted now t) (tasks d'))
    /\ (forall t, In t (tasks d) -> Task.id t <> id -> In t (tasks d'))
    /\ map Task.id (tasks d') = map Task.id (tasks d)
    /\ map Task.userId (tasks d') = map Task.userId (tasks d).
Proof.
  eexists. eexists. split; [reflexivity|]. simp. unfold storage.with_tasks. simp.
  assert (Hnone : find (fun t => Z.eqb (Task.id t) id) (tasks d) = None
                  <-> forall t, In t (tasks d) -> Task.id t <> id).
  { split.
    - intros H t Hin Hid. pose proof (find_none _ _ H t Hin) as Hf. cbn in Hf.
      rewrite Hid, Z.eqb_refl in Hf. discriminate.
    - intros H. destruct (find _ (tasks d)) as [t|] eqn:E; [|reflexivity].
      apply find_some in E. destruct E as [Hin Hid]. apply Z.eqb_eq in Hid.
      exfalso. exact (H t Hin Hid). }
  split; [|split; [|split; [|split; [|split]]]].
  - rewrite <- Hnone. destruct (find _ (tasks d)); cbn; split; congruence.
  - intros Hr.
    assert (Hno : forall t, In t (tasks d) -> Task.id t <> id).
    { apply Hnone. destruct (find _ (tasks d)); [discriminate|reflexivity]. }
    rewrite <- (map_id (tasks d)) at 2. apply map_ext_in. intros t Hin.
    destruct (Z.eqb (Task.id t) id) eqn:E; [|reflexivity].
    apply Z.eqb_eq in E. exfalso. exact (Hno t Hin E).
  - intros t Hin Hid. apply in_map_iff. exists t. split; [|exact Hin].
    rewrite Hid, Z.eqb_refl. reflexivity.
  - intros t Hin Hid. apply in_map_iff. exists t. split; [|exact Hin].
    apply Z.eqb_neq in Hid. rewrite Hid. reflexivity.
  - apply map_map_same. intros t. destruct (Z.eqb _ _); reflexivity.
  - apply map_map_same. intros t. destruct (Z.eqb _ _); reflexivity.
Qed.

Lemma analytics_eq (userId : Z) (d : Db) :
  analytics userId d
  = (Z.of_nat (List.length (filter isDone (tasksOf userId d))),
     Z.of_nat (List.length (filter (fun t => negb (isDone t)) (tasksOf userId d))),
     Z.of_nat (List.length (tasksOf userId d))).
Proof. reflexivity. Qed.

(** [createTask] stores a task that is not completed, and
    [getTaskAnalytics] then counts one more pending task and one more task
    in total for its owner, the same number completed, and the same three
    numbers as before for every other user; [getTasks] of the owner
    contains the new task. *)
Theorem createTask_counts (description : string) (userId id now : Z) (d : Db) :
  let d' := after (storage.createTask description userId id now) d in
  result (storage.createTask description userId id now) d
  = inr (Task.mk id userId description (Some false) (Some now) (Some now))
  /\ (exists completed pending total,
        analytics userId d = (completed, pending, total)
        /\ analytics userId d' = (completed, pending + 1, total + 1))
  /\ (forall other, other <> userId -> analytics other d' = analytics other d)
  /\ (exists l, storage.getTasks userId d' = (inr l, d')
                /\ In (Task.mk id userId description (Some false) (Some now) (Some now)) l).
Proof.
  intros d'. split; [reflexivity|].
  set (t := Task.mk id userId description (Some false) (Some now) (Some now)).
  assert (Hmine : tasksOf userId d' = (tasksOf userId d ++ [t])%list).
  { unfold tasksOf, d', after. cbn. rewrite filter_app. cbn.
    rewrite Z.eqb_refl. reflexivity. }
  split; [|split].
  - do 3 eexists. split; [apply analytics_eq|].
    rewrite analytics_eq, Hmine, !filter_app, !List.length_app. cbn.
    rewrite Nat.add_0_r, !Nat2Z.inj_add. reflexivity.
  - intros other Hne. rewrite !analytics_eq.
    assert (Hother : tasksOf other d' = tasksOf other d).
    { unfold tasksOf, d', after. cbn. rewrite filter_app. cbn.
      apply Z.eqb_neq in Hne. rewrite Z.eqb_sym, Hne. apply app_nil_r. }
    rewrite Hother. reflexivity.
  - eexists. split; [reflexivity|].
    apply (Permutation_in _ (Permutation_sym (order_desc_perm _ _ _))).
    fold (tasksOf userId d'). rewrite Hmine. apply in_or_app. right. now left.
Qed.

Lemma count_update_one (A : Type) (f : A -> Z) (q : A -> bool) (g : A -> A)
    (l : list A) (t : A) :
  NoDup (map f l) -> In t l ->
  (forall x, f x <> f t -> g x = x) ->
  List.length (filter q (map g l))
  = (List.length (filter q l) + (if q (g t) then 1 else 0) - (if q t then 1 else 0))%nat
  /\ ((if q t then 1 else 0) <= List.length (filter q l))%nat.
Proof.
  intros Hnd Hin Hg. induction l as [|x l IH]; [contradiction|].
  cbn in Hnd. inversion Hnd as [|? ? Hx Hl]; subst.
  destruct Hin as [->|Hin].
  - assert (Hrest : map g l = l).
    { rewrite <- (map_id l) at 2. apply map_ext_in. intros y Hy. apply Hg.
      intros E. apply Hx. rewrite <- E. apply in_map. exact Hy. }
    cbn. rewrite Hrest.
    destruct (q (g t)), (q t); cbn; lia.
  - assert (Hxt : f x <> f t).
    { intros E. apply Hx. rewrite E. apply in_map. exact Hin. }
    destruct (IH Hl Hin) as [IH1 IH2].
    cbn. rewrite (Hg x Hxt). destruct (q x); cbn; rewrite IH1; destruct (q t); lia.
Qed.

(** Marking a task completed through [updateTask], when ids are unique and
    the task was not completed, moves exactly one task of its owner from
    pending to completed and leaves the total; the numbers of every other
    user are as they were. *)
Theorem complete_task_counts (t : Task.t) (now : Z) (d : Db) :
  NoDup (map Task.id (tasks d)) ->
  In t (tasks d) ->
  isDone t = false ->
  let d' := after (storage.updateTask (Task.id t) None (Some true) now) d in
  (exists completed pending total,
     analytics (Task.userId t) d = (completed, pending, total)
     /\ analytics (Task.userId t) d' = (completed + 1, pending - 1, total)
     /\ 1 <= pending)
  /\ (forall other, other <> Task.userId t -> analytics other d' = analytics other d).
Proof.
  intros Hnd Hin Hdone d'.
  set (g := fun x => if Z.eqb (Task.id x) (Task.id t)
                     then storage.updated None (Some true) now x else x).
  assert (Hown : forall x, Task.userId (g x) = Task.userId x)
    by (intros x; unfold g; destruct (Z.eqb _ _); reflexivity).
  assert (Hsel : forall u, tasksOf u d' = map g (tasksOf u d)).
  { intros u. unfold tasksOf, d', after. cbn.
    apply (filter_map_same _ (fun x => Z.eqb (Task.userId x) u) g).
    intros x. rewrite Hown. reflexivity. }
  assert (Hfix : forall x, Task.id x <> Task.id t -> g x = x)
    by (intros x Hx; unfold g; apply Z.eqb_neq in Hx; rewrite Hx; reflexivity).
  assert (Hgt : isDone (g t) = true) by (unfold g; rewrite Z.eqb_refl; reflexivity).
  split.
  - set (mine := tasksOf (Task.userId t) d).
    assert (Hnd' : NoDup (map Task.id mine)) by (apply NoDup_map_filter; exact Hnd).
    assert (Hin' : In t mine) by (apply filter_In; split; [exact Hin|apply Z.eqb_refl]).
    destruct (count_update_one _ Task.id isDone g mine t Hnd' Hin' Hfix) as [C1 _].
    destruct (count_update_one _ Task.id (fun x => negb (isDone x)) g mine t Hnd' Hin' Hfix)
      as [P1 P2].
    rewrite Hgt, Hdone in *. cbn [negb] in *.
    do 3 eexists. split; [apply analytics_eq|]. fold mine.
    rewrite analytics_eq, Hsel. fold mine. rewrite C1, P1, length_map.
    split; [|lia]. apply (f_equal2 pair); [apply (f_equal2 pair)|reflexivity]; lia.
  - intros other Hne. rewrite !analytics_eq, Hsel.
    assert (Hsame : map g (tasksOf other d) = tasksOf other d).
    { rewrite <- (map_id (tasksOf other d)) at 2. apply map_ext_in. intros x Hx.
      apply filter_In in Hx. destruct Hx as [Hx Ho]. apply Z.eqb_eq in Ho.
      apply Hfix. intros E.
      pose proof (NoDup_map_eq _ _ Task.id (tasks d) x t Hnd Hx Hin E). congruence. }
    rewrite Hsame. reflexivity.
Qed.

(** ** Time ago *)

(** For a date that is not in the future, [formatTimeAgo] prints a number
    [n] and a unit (s, m, h or d) such that the time elapsed is at least
    [n] units and less than [n + 1] units: it rounds down and never
    overstates; seconds and minutes stay below 60 and hours below 24, and
    a unit larger than seconds is used only from 1 of it on. *)
Theorem formatTimeAgo_rounds_down (now past : Z) :
  past <= now ->
  exists n unit suffix,
    formatTimeAgo now past = toString n ++ suffix
    /\ 0 <= n
    /\ n * unit <= now - past < (n + 1) * unit
    /\ ((unit = 1000 /\ suffix = "s ago" /\ n < 60)
        \/ (unit = 60000 /\ suffix = "m ago" /\ 1 <= n < 60)
        \/ (unit = 3600000 /\ suffix = "h ago" /\ 1 <= n < 24)
        \/ (unit = 86400000 /\ suffix = "d ago" /\ 1 <= n)).
Proof.
  intros Hle. unfold formatTimeAgo. cbv zeta.
  set (s := (now - past) / 1000).
  assert (Hs : 1000 * s <= now - past < 1000 * s + 1000).
  { unfold s. pose proof (Z.div_mod (now - past) 1000).
    pose proof (Z.mod_pos_bound (now - past) 1000). lia. }
  destruct (s <? 60) eqn:E1; [|destruct (s <? 3600) eqn:E2; [|destruct (s <? 86400) eqn:E3]].
  - apply Z.ltb_lt in E1. exists s, 1000, "s ago".
    split; [reflexivity|]. repeat split; try lia. left. repeat split; lia.
  - apply Z.ltb_ge in E1. apply Z.ltb_lt in E2.
    pose proof (Z.div_mod s 60). pose proof (Z.mod_pos_bound s 60).
    exists (s / 60), 60000, "m ago".
    split; [reflexivity|]. repeat split; try lia. right. left. repeat split; lia.
  - apply Z.ltb_ge in E2. apply Z.ltb_lt in E3.
    pose proof (Z.div_mod s 3600). pose proof (Z.mod_pos_bound s 3600).
    exists (s / 3600), 3600000, "h ago".
    split; [reflexivity|]. repeat split; try lia. right. right. left. repeat split; lia.
  - apply Z.ltb_ge in E3.
    pose proof (Z.div_mod s 86400). pose proof (Z.mod_pos_bound s 86400).
    exists (s / 86400), 86400000, "d ago".
    split; [reflexivity|]. repeat split; try lia. right. right. right. repeat split; lia.
Qed.

(** For a date in the future, [formatTimeAgo] does not clamp: it prints a
    negative number of seconds, whatever the distance. *)
Theorem formatTimeAgo_future (now past : Z) :
  now < past ->
  exists n, formatTimeAgo now past = toString n ++ "s ago"
            /\ n < 0 /\ n * 1000 <= now - past < (n + 1) * 1000.
Proof.
  intros Hlt. unfold formatTimeAgo. cbv zeta.
  set (s := (now - past) / 1000).
  assert (Hs : 1000 * s <= now - past < 1000 * s + 1000).
  { unfold s. pose proof (Z.div_mod (now - past) 1000).
    pose proof (Z.mod_pos_bound (now - past) 1000). lia. }
  assert (E : (s <? 60) = true) by (apply Z.ltb_lt; lia).
  rewrite E. exists s. split; [reflexivity|]. lia.
Qed.

(** ** The digits of a code *)

Lemma string_of_uint_length (d : Decimal.uint) :
  String.length (NilEmpty.string_of_uint d) = Decimal.nb_digits d.
Proof.
  induction d as [|d IH|d IH|d IH|d IH|d IH|d IH|d IH|d IH|d IH|d IH];
    [reflexivity| | | | | | | | | |];
    cbn [NilEmpty.string_of_uint String.length Decimal.nb_digits]; rewrite IH; reflexivity.
Qed.

Lemma string_of_uint_digits (d : Decimal.uint) :
  all_digits (NilEmpty.string_of_uint d) = true.
Proof.
  induction d; cbn; auto.
Qed.

Lemma string_of_uint_nonnil (d : Decimal.uint) :
  d <> Decimal.Nil -> NilZero.string_of_uint d = NilEmpty.string_of_uint d.
Proof.
  destruct d; [congruence|..]; reflexivity.
Qed.

Lemma of_uint_acc_bounds (d : Decimal.uint) :
  forall acc : positive,
    Z.pos acc * 10 ^ Z.of_nat (Decimal.nb_digits d) <= Z.pos (Pos.of_uint_acc d acc)
    /\ Z.pos (Pos.of_uint_acc d acc) < (Z.pos acc + 1) * 10 ^ Z.of_nat (Decimal.nb_digits d).
Proof.
  induction d as [|d IH|d IH|d IH|d IH|d IH|d IH|d IH|d IH|d IH|d IH]; intros acc;
    [cbn; lia| | | | | | | | | |];
    cbn [Pos.of_uint_acc Decimal.nb_digits];
    rewrite Nat2Z.inj_succ, Z.pow_succ_r by lia;
    match goal with
    | |- context [Pos.of_uint_acc d ?a] => destruct (IH a) as [L U]
    end;
    pose proof (Z.pow_pos_nonneg 10 (Z.of_nat (Decimal.nb_digits d)) ltac:(lia) ltac:(lia));
    split; nia.
Qed.

Lemma to_uint_head (p : positive) :
  exists l,
    Decimal.nb_digits (Pos.to_uint p) = S (Decimal.nb_digits l)
    /\ 10 ^ Z.of_nat (Decimal.nb_digits l) <= Z.pos p
    /\ Z.pos p < 10 * 10 ^ Z.of_nat (Decimal.nb_digits l).
Proof.
  pose proof (DecimalPos.Unsigned.of_to p) as Hof.
  pose proof (DecimalPos.Unsigned.to_of (Pos.to_uint p)) as Hto.
  rewrite Hof in Hto. cbn [N.to_uint] in Hto.
  pose proof (DecimalPos.Unsigned.to_uint_nonzero p) as Hnz.
  pose proof (DecimalPos.Unsigned.to_uint_nonnil p) as Hnn.
  destruct (Pos.to_uint p) as [|l|l|l|l|l|l|l|l|l|l] eqn:E; [congruence| | | | | | | | | |].
  - exfalso. rewrite DecimalFacts.unorm_D0 in Hto. unfold Decimal.unorm in Hto.
    destruct (Decimal.nzhead l) eqn:En; try discriminate.
    + injection Hto as Hl. subst l. apply Hnz. reflexivity.
    + exact (DecimalFacts.nzhead_nonzero _ _ En).
  - exists l. cbn in Hof. injection Hof as <-.
    destruct (of_uint_acc_bounds l 1) as [L U]. repeat split; lia.
  - exists l. cbn in Hof. injection Hof as <-.
    destruct (of_uint_acc_bounds l 2) as [L U]. repeat split; lia.
  - exists l. cbn in Hof. injection Hof as <-.
    destruct (of_uint_acc_bounds l 3) as [L U]. repeat split; lia.
  - exists l. cbn in Hof. injection Hof as <-.
    destruct (of_uint_acc_bounds l 4) as [L U]. repeat split; lia.
  - exists l. cbn in Hof. injection Hof as <-.
    destruct (of_uint_acc_bounds l 5) as [L U]. repeat split; lia.
  - exists l. cbn in Hof. injection Hof as <-.
    destruct (of_uint_acc_bounds l 6) as [L U]. repeat split; lia.
  - exists l. cbn in Hof. injection Hof as <-.
    destruct (of_uint_acc_bounds l 7) as [L U]. repeat split; lia.
  - exists l. cbn in Hof. injection Hof as <-.
    destruct (of_uint_acc_bounds l 8) as [L U]. repeat split; lia.
  - exists l. cbn in Hof. injection Hof as <-.
    destruct (of_uint_acc_bounds l 9) as [L U]. repeat split; lia.
Qed.

(** Every code [generateOTPCode] makes from an integer that
    [crypto.randomInt(100000, 999999)] can draw is six decimal digits: it
    passes [validateOTPCode], and has the length 6 that the request schema
    asks of a code. *)
Theorem generated_code_is_valid (drawn : Z) :
  randomInt_range drawn ->
  validateOTPCode (generateOTPCode drawn) = true
  /\ String.length (generateOTPCode drawn) = 6%nat.
Proof.
  intros [Hlo Hhi]. destruct drawn as [|p|p]; try lia.
  unfold validateOTPCode, generateOTPCode, toString. cbn [Z.to_int NilZero.string_of_int].
  rewrite (string_of_uint_nonnil _ (DecimalPos.Unsigned.to_uint_nonnil p)).
  rewrite string_of_uint_length, string_of_uint_digits.
  destruct (to_uint_head p) as (l & Hnb & L & U). rewrite Hnb.
  assert (Hl : Decimal.nb_digits l = 5%nat).
  { destruct (Nat.lt_trichotomy (Decimal.nb_digits l) 5) as [H|[H|H]]; [|exact H|].
    - exfalso.
      assert (10 ^ Z.of_nat (Decimal.nb_digits l) <= 10 ^ 4)
        by (apply Z.pow_le_mono_r; lia).
      lia.
    - exfalso.
      assert (10 ^ 6 <= 10 ^ Z.of_nat (Decimal.nb_digits l))
        by (apply Z.pow_le_mono_r; lia).
      lia. }
  rewrite Hl. split; reflexivity.
Qed.

(** ** sanitizeInput and getClientIP *)

Lemma remove_angles_spec (s : string) :
  (forall c, In c (list_ascii_of_string (remove_angles s)) -> is_angle c = false)
  /\ (String.length (remove_angles s) <= String.length s)%nat
  /\ payload (remove_angles s) = payload s.
Proof.
  induction s as [|c s (IH1 & IH2 & IH3)]; cbn.
  - repeat split; auto. intros c [].
  - destruct (is_angle c) eqn:E; cbn.
    + rewrite orb_true_r. repeat split; auto.
    + rewrite E. repeat split; [|lia|].
      * intros x [<-|Hx]; auto.
      * destruct (is_space c); cbn; congruence.
Qed.

Lemma trimStart_spec (s : string) :
  (String.length (trimStart s) <= String.length s)%nat
  /\ payload (trimStart s) = payload s.
Proof.
  induction s as [|c s [IH1 IH2]]; cbn; [auto|].
  destruct (is_space c) eqn:E; cbn; [|rewrite E; auto].
  split; [lia|exact IH2].
Qed.

Lemma trimEnd_spec (s : string) :
  (String.length (trimEnd s) <= String.length s)%nat
  /\ payload (trimEnd s) = payload s.
Proof.
  induction s as [|c s [IH1 IH2]]; cbn; [auto|].
  destruct (trimEnd s) as [|c' t] eqn:E.
  - cbn in IH2. destruct (is_space c) eqn:Es; cbn.
    + split; [lia|exact IH2].
    + rewrite Es. cbn. split; [lia|]. destruct (is_angle c); cbn; congruence.
  - cbn [String.length payload] in *. split; [lia|].
    destruct (is_space c || is_angle c); congruence.
Qed.

(** What [sanitizeInput] returns holds no [<] and no [>], is never longer
    than the input, and keeps every character of the input that is neither
    white space nor an angle bracket, in order: it drops nothing else. *)
Theorem sanitizeInput_spec (input : string) :
  (forall c, In c (list_ascii_of_string (sanitizeInput input)) ->
             c <> "<"%char /\ c <> ">"%char)
  /\ (String.length (sanitizeInput input) <= String.length input)%nat
  /\ payload (sanitizeInput input) = payload input.
Proof.
  unfold sanitizeInput, trim.
  destruct (remove_angles_spec (trimEnd (trimStart input))) as (R1 & R2 & R3).
  destruct (trimEnd_spec (trimStart input)) as [E1 E2].
  destruct (trimStart_spec input) as [S1 S2].
  split; [|split; [lia|congruence]].
  intros c Hc. specialize (R1 c Hc). unfold is_angle in R1.
  apply orb_false_iff in R1. destruct R1 as [A1 A2].
  split; intros ->; discriminate.
Qed.

Lemma before_comma_no_comma (s : string) :
  forall c, In c (list_ascii_of_string (before_comma s)) -> c <> ","%char.
Proof.
  induction s as [|x s IH]; cbn; [intros c []|].
  destruct (Ascii.eqb x ",") eqn:E; cbn; [intros c []|].
  intros c [<-|Hc]; [|auto]. intros ->. discriminate.
Qed.

Lemma or_else_nonempty (a : option string) (b : string) :
  b <> EmptyString -> or_else a b <> EmptyString.
Proof.
  destruct a as [[|c s]|]; cbn; auto. discriminate.
Qed.

(** [getClientIP] never returns the empty string: an absent or empty
    source is skipped, down to ["unknown"]. When the [x-forwarded-for]
    header has a first entry that is not empty, that entry is the answer,
    whatever the addresses of the connection, and it holds no comma. *)
Theorem getClientIP_spec (forwarded connectionAddress socketAddress : option string) :
  getClientIP forwarded connectionAddress socketAddress <> EmptyString
  /\ (forall header,
        forwarded = Some header -> before_comma header <> EmptyString ->
        getClientIP forwarded connectionAddress socketAddress = before_comma header
        /\ forall c, In c (list_ascii_of_string (before_comma header)) -> c <> ","%char)
  /\ (forall header,
        forwarded = Some header -> before_comma header = EmptyString ->
        getClientIP forwarded connectionAddress socketAddress
        = getClientIP None connectionAddress socketAddress).
Proof.
  split; [|split].
  - unfold getClientIP. repeat apply or_else_nonempty. discriminate.
  - intros header -> Hne. split; [|apply before_comma_no_comma].
    unfold getClientIP. cbn. destruct (before_comma header); [congruence|reflexivity].
  - intros header -> He. unfold getClientIP. cbn. rewrite He. reflexivity.
Qed.

(** ** The cart *)

Lemma cart_get_set_same (cart : Cart) (itemId : string) (q : Z) :
  cart_get (cart_set cart itemId q) itemId = Some q.
Proof.
  induction cart as [|[k v] rest IH]; cbn.
  - rewrite String.eqb_refl. reflexivity.
  - destruct (String.eqb k itemId) eqn:E; cbn; rewrite E; auto.
Qed.

Lemma cart_get_set_other (cart : Cart) (itemId other : string) (q : Z) :
  itemId <> other ->
  cart_get (cart_set cart itemId q) other = cart_get cart other.
Proof.
  intros Hne. induction cart as [|[k v] rest IH]; cbn.
  - apply String.eqb_neq in Hne. rewrite Hne. reflexivity.
  - destruct (String.eqb k itemId) eqn:E; cbn.
    + apply String.eqb_eq in E. subst k. apply String.eqb_neq in Hne. rewrite Hne.
      reflexivity.
    + rewrite IH. reflexivity.
Qed.

Lemma cart_set_absent (cart : Cart) (itemId : string) (q : Z) :
  cart_get cart itemId = None ->
  cart_set cart itemId q = (cart ++ [(itemId, q)])%list.
Proof.
  induction cart as [|[k v] rest IH]; cbn; [reflexivity|].
  destruct (String.eqb k itemId); [discriminate|].
  intros H. rewrite (IH H). reflexivity.
Qed.

Lemma cart_delete_absent (cart : Cart) (itemId : string) :
  cart_get cart itemId = None -> cart_delete cart itemId = cart.
Proof.
  induction cart as [|[k v] rest IH]; cbn; [reflexivity|].
  destruct (String.eqb k itemId); [discriminate|].
  intros H. cbn. unfold cart_delete in IH. rewrite (IH H). reflexivity.
Qed.

Lemma cart_set_set (cart : Cart) (itemId : string) (q q' : Z) :
  cart_get cart itemId = Some q ->
  cart_set (cart_set cart itemId q') itemId q = cart.
Proof.
  induction cart as [|[k v] rest IH]; cbn; [discriminate|].
  destruct (String.eqb k itemId) eqn:E; cbn; rewrite E.
  - intros [= ->]. reflexivity.
  - intros H. rewrite (IH H). reflexivity.
Qed.

Lemma cart_get_in (cart : Cart) (itemId : string) (q : Z) :
  cart_get cart itemId = Some q -> In (itemId, q) cart.
Proof.
  induction cart as [|[k v] rest IH]; cbn; [discriminate|].
  destruct (String.eqb k itemId) eqn:E.
  - apply String.eqb_eq in E. intros [= ->]. left. congruence.
  - intros H. right. auto.
Qed.

Lemma cart_get_none_key (cart : Cart) (itemId : string) :
  cart_get cart itemId = None -> ~ In itemId (map fst cart).
Proof.
  induction cart as [|[k v] rest IH]; cbn; [intros _ []|].
  destruct (String.eqb k itemId) eqn:E; [discriminate|].
  intros H [Hk|Hin]; [|exact (IH H Hin)].
  subst k. rewrite String.eqb_refl in E. discriminate.
Qed.

(** In a cart whose quantities are all at least 1, adding an item and
    then removing it gives back the cart as it was, property for property;
    and both updates keep the quantities at least 1 and the keys unique. *)
Theorem cart_add_then_remove (itemId : string) (cart : Cart) :
  cart_positive cart ->
  removeFromCart itemId (addToCart itemId cart) = cart
  /\ cart_positive (addToCart itemId cart)
  /\ cart_positive (removeFromCart itemId cart)
  /\ (NoDup (map fst cart) ->
      NoDup (map fst (addToCart itemId cart))
      /\ NoDup (map fst (removeFromCart itemId cart))).
Proof.
  intros Hpos.
  assert (Hset : forall c q, cart_positive c -> 1 <= q -> cart_positive (cart_set c itemId q)).
  { intros c q Hc Hq. induction c as [|[k v] rest IH]; cbn.
    - repeat constructor. exact Hq.
    - inversion Hc as [|? ? Hv Hrest]; subst.
      destruct (String.eqb k itemId); constructor;
        [exact Hq|exact Hrest|exact Hv|exact (IH Hrest)]. }
  assert (Hdel : forall c, cart_positive c -> cart_positive (cart_delete c itemId))
    by (intros c Hc; apply Forall_filter_keep; exact Hc).
  assert (Hkeys_set : forall c q, NoDup (map fst c) -> NoDup (map fst (cart_set c itemId q))).
  { intros c q Hc.
    destruct (cart_get c itemId) as [q0|] eqn:E.
    - assert (Hsame : map fst (cart_set c itemId q) = map fst c).
      { clear Hc. revert E. induction c as [|[k v] rest IH]; cbn; [discriminate|].
        destruct (String.eqb k itemId); cbn; [reflexivity|].
        intros H. rewrite (IH H). reflexivity. }
      rewrite Hsame. exact Hc.
    - rewrite (cart_set_absent c itemId q E), map_app. cbn.
      apply NoDup_app; [exact Hc|repeat constructor; auto|].
      intros k Hk [<-|[]]. exact (cart_get_none_key c itemId E Hk). }
  assert (Hkeys_del : forall c, NoDup (map fst c) -> NoDup (map fst (cart_delete c itemId)))
    by (intros c Hc; apply NoDup_map_filter; exact Hc).
  split; [|split; [|split]].
  - unfold addToCart. destruct (cart_get cart itemId) as [q|] eqn:E.
    + assert (Hq : 1 <= q).
      { unfold cart_positive in Hpos. rewrite Forall_forall in Hpos.
        exact (Hpos _ (cart_get_in cart itemId q E)). }
      assert (E0 : (q =? 0) = false) by (apply Z.eqb_neq; lia).
      rewrite E0. unfold removeFromCart. rewrite cart_get_set_same.
      assert (E1 : (1 <? q + 1) = true) by (apply Z.ltb_lt; lia).
      rewrite E1. replace (q + 1 - 1) with q by lia.
      apply cart_set_set. exact E.
    + unfold removeFromCart. rewrite cart_get_set_same. cbn.
      rewrite (cart_set_absent cart itemId 1 E).
      unfold cart_delete. rewrite filter_app. cbn. rewrite String.eqb_refl. cbn.
      rewrite app_nil_r. apply (cart_delete_absent cart itemId E).
  - unfold addToCart. destruct (cart_get cart itemId) as [q|] eqn:E.
    + assert (Hq : 1 <= q).
      { unfold cart_positive in Hpos. rewrite Forall_forall in Hpos.
        exact (Hpos _ (cart_get_in cart itemId q E)). }
      destruct (q =? 0); apply Hset; auto; lia.
    + apply Hset; auto. lia.
  - unfold removeFromCart. destruct (cart_get cart itemId) as [q|] eqn:E; [|auto].
    destruct (1 <? q) eqn:E1; [|auto]. apply Z.ltb_lt in E1. apply Hset; auto. lia.
  - intros Hnd. split.
    + unfold addToCart. destruct (cart_get cart itemId) as [q|]; [destruct (q =? 0)|]; auto.
    + unfold removeFromCart.
      destruct (cart_get cart itemId) as [q|]; [destruct (1 <? q)|]; auto.
Qed.

Lemma cart_set_keeps_keys (cart : Cart) (itemId : string) (q : Z) :
  NoDup (map fst cart) -> NoDup (map fst (cart_set cart itemId q)).
Proof.
  intros Hc. destruct (cart_get cart itemId) as [q0|] eqn:E.
  - assert (Hsame : map fst (cart_set cart itemId q) = map fst cart).
    { clear Hc. revert E. induction cart as [|[k v] rest IH]; cbn; [discriminate|].
      destruct (String.eqb k itemId); cbn; [reflexivity|].
      intros H. rewrite (IH H). reflexivity. }
    rewrite Hsame. exact Hc.
  - rewrite (cart_set_absent cart itemId q E), map_app. cbn.
    apply NoDup_app; [exact Hc|repeat constructor; auto|].
    intros k Hk [<-|[]]. exact (cart_get_none_key cart itemId E Hk).
Qed.

Lemma cart_updates_keep_keys (cart : Cart) (itemId : string) :
  NoDup (map fst cart) ->
  NoDup (map fst (addToCart itemId cart)) /\ NoDup (map fst (removeFromCart itemId cart)).
Proof.
  intros Hnd. split.
  - unfold addToCart. destruct (cart_get cart itemId) as [q|]; [destruct (q =? 0)|];
      apply cart_set_keeps_keys; exact Hnd.
  - unfold removeFromCart.
    destruct (cart_get cart itemId) as [q|]; [destruct (1 <? q)|];
      try (apply cart_set_keeps_keys; exact Hnd);
      apply NoDup_map_filter; exact Hnd.
Qed.

Lemma cart_in_get (cart : Cart) (k : string) (q : Z) :
  NoDup (map fst cart) -> In (k, q) cart -> cart_get cart k = Some q.
Proof.
  induction cart as [|[k1 v1] rest IH]; cbn; [contradiction|].
  intros Hnd Hin. inversion Hnd as [|? ? Hk Hrest]; subst.
  destruct Hin as [[= -> ->]|Hin].
  - rewrite String.eqb_refl. reflexivity.
  - destruct (String.eqb k1 k) eqn:E; [|auto].
    apply String.eqb_eq in E. subst k1. exfalso. apply Hk.
    apply in_map_iff. exists (k, q). auto.
Qed.

Lemma total_is_sum_of_lines (food_list : list Food) (cart : Cart) :
  NoDup (map fst cart) ->
  getTotalCartAmount cart food_list = sum_lines food_list cart.
Proof.
  intros Hnd. unfold getTotalCartAmount.
  assert (H : forall l acc,
            (forall e, In e l -> cart_get cart (fst e) = Some (snd e)) ->
            fold_left
              (fun totalAmount item =>
                 match cart_get cart item with
                 | Some q =>
                     if 0 <? q then
                       match find (fun product => String.eqb (food_id product) item)
                               food_list with
                       | Some itemInfo => totalAmount + food_price itemInfo * q
                       | None => totalAmount
                       end
                     else totalAmount
                 | None => totalAmount
                 end) (map fst l) acc
            = acc + sum_lines food_list l).
  { unfold sum_lines.
    induction l as [|e l IH]; intros acc Hl; cbn [map fold_left fold_right]; [lia|].
    rewrite IH by (intros e' He'; apply Hl; now right).
    set (rest := fold_right (fun e0 acc0 => line_amount food_list e0 + acc0) 0 l).
    rewrite (Hl e (or_introl eq_refl)). unfold line_amount.
    destruct (0 <? snd e); [|lia].
    destruct (find _ food_list); lia. }
  rewrite H; [lia|].
  intros [k q] Hin. apply cart_in_get; assumption.
Qed.

Lemma sum_lines_set (food_list : list Food) (cart : Cart) (itemId : string) (q q' : Z) :
  cart_get cart itemId = Some q ->
  sum_lines food_list (cart_set cart itemId q')
  = sum_lines food_list cart - line_amount food_list (itemId, q)
    + line_amount food_list (itemId, q').
Proof.
  unfold sum_lines.
  induction cart as [|[k v] rest IH]; cbn [cart_get cart_set]; [discriminate|].
  destruct (String.eqb k itemId) eqn:E.
  - apply String.eqb_eq in E. subst k. intros [= ->]. cbn [fold_right]. lia.
  - intros H. cbn [fold_right]. rewrite (IH H). lia.
Qed.

Lemma sum_lines_delete (food_list : list Food) (cart : Cart) (itemId : string) (q : Z) :
  NoDup (map fst cart) ->
  cart_get cart itemId = Some q ->
  sum_lines food_list (cart_delete cart itemId)
  = sum_lines food_list cart - line_amount food_list (itemId, q).
Proof.
  unfold sum_lines.
  induction cart as [|[k v] rest IH]; cbn [cart_get map fst]; [discriminate|].
  intros Hnd. inversion Hnd as [|? ? Hk Hrest]; subst.
  unfold cart_delete. cbn [filter fst]. fold (cart_delete rest itemId).
  destruct (String.eqb k itemId) eqn:E; cbn [negb fold_right].
  - apply String.eqb_eq in E. subst k. intros [= ->].
    assert (Hnone : cart_get rest itemId = None).
    { destruct (cart_get rest itemId) as [q'|] eqn:E'; [|reflexivity].
      exfalso. apply Hk. apply in_map_iff. exists (itemId, q'). split; [reflexivity|].
      apply cart_get_in. exact E'. }
    rewrite (cart_delete_absent rest itemId Hnone). lia.
  - intros H. rewrite (IH Hrest H). lia.
Qed.

Lemma sum_lines_app (food_list : list Food) (c1 c2 : Cart) :
  sum_lines food_list (c1 ++ c2)%list
  = sum_lines food_list c1 + sum_lines food_list c2.
Proof.
  unfold sum_lines.
  induction c1 as [|e c1 IH]; cbn [app fold_right]; [reflexivity|]. rewrite IH. lia.
Qed.

Lemma line_amount_positive (food_list : list Food) (itemId : string) (q : Z) :
  1 <= q -> line_amount food_list (itemId, q) = price_of food_list itemId * q.
Proof.
  intros Hq. unfold line_amount, price_of. cbn.
  assert (E : (0 <? q) = true) by (apply Z.ltb_lt; lia).
  rewrite E. destruct (find _ food_list); lia.
Qed.

(** In a cart with unique keys and quantities of at least 1, adding an
    item raises [getTotalCartAmount] by the price of the item, and removing
    an item that is in the cart lowers it by that price; an item that is
    not on the food list counts for nothing either way, and removing an
    item that is not in the cart changes nothing. *)
Theorem cart_total_follows_updates (food_list : list Food) (itemId : string) (cart : Cart) :
  NoDup (map fst cart) ->
  cart_positive cart ->
  getTotalCartAmount (addToCart itemId cart) food_list
  = getTotalCartAmount cart food_list + price_of food_list itemId
  /\ getTotalCartAmount (removeFromCart itemId cart) food_list
     = getTotalCartAmount cart food_list
       - (match cart_get cart itemId with
          | Some _ => price_of food_list itemId
          | None => 0
          end)
  /\ (cart_get cart itemId = None -> removeFromCart itemId cart = cart).
Proof.
  intros Hnd Hpos.
  destruct (cart_updates_keep_keys cart itemId Hnd) as [Hadd Hrem].
  rewrite !total_is_sum_of_lines by assumption.
  split; [|split].
  - unfold addToCart. destruct (cart_get cart itemId) as [q|] eqn:E.
    + assert (Hq : 1 <= q).
      { unfold cart_positive in Hpos. rewrite Forall_forall in Hpos.
        exact (Hpos _ (cart_get_in cart itemId q E)). }
      assert (E0 : (q =? 0) = false) by (apply Z.eqb_neq; lia).
      rewrite E0, (sum_lines_set food_list cart itemId q (q + 1) E).
      rewrite !line_amount_positive by lia. lia.
    + rewrite (cart_set_absent cart itemId 1 E), sum_lines_app. cbn [sum_lines fold_right].
      rewrite line_amount_positive by lia. lia.
  - unfold removeFromCart. destruct (cart_get cart itemId) as [q|] eqn:E.
    + assert (Hq : 1 <= q).
      { unfold cart_positive in Hpos. rewrite Forall_forall in Hpos.
        exact (Hpos _ (cart_get_in cart itemId q E)). }
      destruct (1 <? q) eqn:E1.
      * apply Z.ltb_lt in E1.
        rewrite (sum_lines_set food_list cart itemId q (q - 1) E).
        rewrite !line_amount_positive by lia. lia.
      * apply Z.ltb_ge in E1. assert (q = 1) by lia. subst q.
        rewrite (sum_lines_delete food_list cart itemId 1 Hnd E).
        rewrite line_amount_positive by lia. lia.
    + rewrite (cart_delete_absent cart itemId E). lia.
  - intros E. unfold removeFromCart. rewrite E. apply cart_delete_absent. exact E.
Qed.

End AuthService.

(** ** The theorems at sample inputs *)

Example sample_login :
  initiateLogin Sample.compare Sample.right_login None None (Sample.env_at 1000) Sample.db
  = (inr (mkLoginAck "OTP sent to your email" "alice@example.com"), Sample.db_issued).
Proof. reflexivity. Qed.

Lemma sample_reachable :
  reachable Sample.hash Sample.compare Sample.db Sample.db_issued.
Proof.
  change Sample.db_issued
    with (exec Sample.hash Sample.compare
            (CallInitiateLogin Sample.right_login None None) (Sample.env_at 1000) Sample.db).
  apply reachable_call; [apply reachable_start|].
  unfold randomInt_range. cbn. lia.
Defined.

Lemma lockout_after_max_attempts_witness :
  account "alice@example.com" Sample.db = Some Sample.alice
  /\ Forall (wrong_password Sample.compare Sample.alice) Sample.five_wrong
  /\ exists locked,
       account "alice@example.com"
         (attempts Sample.compare "alice@example.com" Sample.five_wrong Sample.db)
       = Some locked
       /\ User.isLocked locked = Some true
       /\ User.lastFailedAttempt locked = Some 5000
       /\ result (initiateLogin Sample.compare Sample.right_login None None (Sample.env_at 6000))
            (attempts Sample.compare "alice@example.com" Sample.five_wrong Sample.db)
          = inl AccountLocked.
Proof.
  assert (Hwrong : Forall (wrong_password Sample.compare Sample.alice) Sample.five_wrong)
    by (repeat constructor).
  split; [reflexivity|]. split; [exact Hwrong|].
  destruct (lockout_after_max_attempts Sample.compare "alice@example.com" Sample.db
              Sample.alice Sample.five_wrong)
    as (locked & t & H1 & H2 & H3 & H4 & H5);
    [reflexivity | reflexivity | cbn; lia | reflexivity | exact Hwrong |].
  destruct (H5 eq_refl) as [_ Hlast]. cbn in Hlast. injection Hlast as <-.
  exists locked. split; [exact H1|]. split; [exact H2|]. split; [exact H3|].
  apply (H4 "correct horse" None None (Sample.env_at 6000)). reflexivity.
Defined.

Lemma verifyOTP_succeeds_iff_witness :
  attempts_default Sample.db
  /\ reachable Sample.hash Sample.compare Sample.db Sample.db_issued
  /\ account "alice@example.com" Sample.db_issued = Some Sample.alice
  /\ (exists profile,
        result (verifyOTP (mkOTPVerification "alice@example.com" "123456") None None
                  (Sample.env_at 2000)) Sample.db_issued = inr profile)
  /\ result (verifyOTP (mkOTPVerification "alice@example.com" "000000") None None
               (Sample.env_at 2000)) Sample.db_issued = inl InvalidOrExpiredOTP.
Proof.
  assert (H0 : attempts_default Sample.db) by constructor.
  split; [exact H0|]. split; [exact sample_reachable|]. split; [reflexivity|]. split.
  - apply (verifyOTP_succeeds_iff Sample.hash Sample.compare Sample.db Sample.db_issued
             (mkOTPVerification "alice@example.com" "123456") None None (Sample.env_at 2000)
             Sample.alice H0 sample_reachable eq_refl).
    exists Sample.challenge. unfold matching_challenge. cbn.
    repeat split; auto.
  - apply (verifyOTP_succeeds_iff Sample.hash Sample.compare Sample.db Sample.db_issued
             (mkOTPVerification "alice@example.com" "000000") None None (Sample.env_at 2000)
             Sample.alice H0 sample_reachable eq_refl).
    intros (o & Hin & _ & Hcode & _). cbn in Hin, Hcode.
    destruct Hin as [<-|[]]. discriminate.
Defined.

Lemma attempts_counter_never_moves_witness :
  attempts_default Sample.db
  /\ reachable Sample.hash Sample.compare Sample.db Sample.db_issued
  /\ attempts_default Sample.db_issued
  /\ result (verifyOTP (mkOTPVerification "alice@example.com" "123456") None None
               (Sample.env_at 2000)) Sample.db_issued <> inl OTPAttemptsExceeded.
Proof.
  assert (H0 : attempts_default Sample.db) by constructor.
  split; [exact H0|]. split; [exact sample_reachable|].
  destruct (attempts_counter_never_moves Sample.hash Sample.compare Sample.db
              Sample.db_issued H0 sample_reachable) as (H1 & _ & H3).
  split; [exact H1|]. apply H3.
Defined.

Lemma unknown_email_like_wrong_password_witness :
  account "mallory@example.com" Sample.db = None
  /\ account "alice@example.com" Sample.db = Some Sample.alice
  /\ passes_lockout Sample.alice 1000
  /\ Sample.compare "guess" (User.password Sample.alice) = false
  /\ result (initiateLogin Sample.compare Sample.unknown_login None None (Sample.env_at 1000))
       Sample.db
     = result (initiateLogin Sample.compare Sample.wrong_login None None (Sample.env_at 1000))
         Sample.db.
Proof.
  assert (Hp : passes_lockout Sample.alice 1000) by (left; reflexivity).
  split; [reflexivity|]. split; [reflexivity|]. split; [exact Hp|]. split; [reflexivity|].
  apply (unknown_email_like_wrong_password Sample.compare Sample.db Sample.db Sample.alice
           Sample.unknown_login Sample.wrong_login None None None None
           (Sample.env_at 1000) (Sample.env_at 1000) eq_refl eq_refl Hp eq_refl).
Defined.

Lemma elapsed_lockout_is_cleared_witness :
  account "alice@example.com" Sample.db_locked = Some Sample.alice_locked
  /\ 5000 + LOCKOUT_DURATION <= 1805000
  /\ result (initiateLogin Sample.compare Sample.right_login None None (Sample.env_at 1805000))
       Sample.db_locked <> inl AccountLocked
  /\ account "alice@example.com"
       (after (initiateLogin Sample.compare Sample.right_login None None (Sample.env_at 1805000))
          Sample.db_locked)
     = Some (unlocked Sample.alice_locked 1805000).
Proof.
  assert (Hw : 5000 + LOCKOUT_DURATION <= 1805000) by (cbn; lia).
  split; [reflexivity|]. split; [exact Hw|].
  destruct (elapsed_lockout_is_cleared Sample.compare Sample.db_locked Sample.alice_locked
              Sample.right_login None None (Sample.env_at 1805000) 5000
              eq_refl eq_refl eq_refl Hw) as (_ & _ & H3 & H4).
  split; [exact H3|]. apply H4. reflexivity.
Defined.

Lemma verifyOTP_success_effects_witness :
  result (verifyOTP (mkOTPVerification "alice@example.com" "123456") None None
            (Sample.env_at 2000)) Sample.db_issued = inr (profile_of Sample.alice)
  /\ exists u,
       account "alice@example.com"
         (after (verifyOTP (mkOTPVerification "alice@example.com" "123456") None None
                   (Sample.env_at 2000)) Sample.db_issued) = Some u
       /\ User.failedAttempts u = Some 0
       /\ User.lastFailedAttempt u = None
       /\ User.lastLogin u = Some 2000.
Proof.
  split; [reflexivity|].
  destruct (verifyOTP_success_effects Sample.db_issued
              (mkOTPVerification "alice@example.com" "123456") None None (Sample.env_at 2000)
              (profile_of Sample.alice) eq_refl)
    as (user & otp & _ & _ & _ & _ & Hacc & _).
  exact Hacc.
Defined.

Lemma expired_code_leaves_account_witness :
  account "alice@example.com" Sample.db_issued = Some Sample.alice
  /\ OTP.expiresAt Sample.challenge < 700000
  /\ result (verifyOTP (mkOTPVerification "alice@example.com" "123456") None None
               (Sample.env_at 700000)) Sample.db_issued = inl InvalidOrExpiredOTP
  /\ users (after (verifyOTP (mkOTPVerification "alice@example.com" "123456") None None
                     (Sample.env_at 700000)) Sample.db_issued)
     = users Sample.db_issued.
Proof.
  split; [reflexivity|]. split; [reflexivity|].
  apply (expired_code_leaves_account Sample.db_issued
           (mkOTPVerification "alice@example.com" "123456") None None (Sample.env_at 700000)
           Sample.alice eq_refl).
  intros o [<-|[]] _ _. reflexivity.
Defined.

Lemma older_code_still_verifies_witness :
  attempts_default Sample.db
  /\ reachable Sample.hash Sample.compare Sample.db Sample.db_issued
  /\ matching_challenge "alice@example.com" "123456" 3000 Sample.db_issued Sample.challenge
  /\ exists profile,
       result (verifyOTP (mkOTPVerification "alice@example.com" "123456") None None
                 (Sample.env_at 3000))
         (exec Sample.hash Sample.compare (CallResendOTP "alice@example.com" None None)
            (mkEnv 2000 654321 true) Sample.db_issued) = inr profile.
Proof.
  assert (H0 : attempts_default Sample.db) by constructor.
  assert (Hm : matching_challenge "alice@example.com" "123456" 3000 Sample.db_issued
                 Sample.challenge)
    by (unfold matching_challenge; cbn; repeat split; auto).
  split; [exact H0|]. split; [exact sample_reachable|]. split; [exact Hm|].
  apply (older_code_still_verifies Sample.hash Sample.compare Sample.db Sample.db_issued
           (CallResendOTP "alice@example.com" None None) (mkEnv 2000 654321 true)
           "alice@example.com" "123456" Sample.challenge Sample.alice None None
           (Sample.env_at 3000) H0 sample_reachable I eq_refl Hm).
Defined.

(** C4, as stated, fails: after [initiateLogin] with the right password at
    instant 1000 (code 123456) and [resendOTP] at instant 2000 (code 654321),
    both challenges of the account are live at instant 3000, and [verifyOTP]
    accepts the older code. *)
Lemma two_live_challenges :
  let d2 := exec Sample.hash Sample.compare (CallResendOTP "alice@example.com" None None)
              (mkEnv 2000 654321 true) Sample.db_issued in
  reachable Sample.hash Sample.compare Sample.db d2
  /\ liveOTPs "alice@example.com" 3000 d2
     = [Sample.challenge;
        OTP.mk 2 "alice@example.com" "654321" 602000 (Some false) (Some 0) (Some 2000)]
  /\ result (verifyOTP (mkOTPVerification "alice@example.com" "123456") None None
               (Sample.env_at 3000)) d2 = inr (profile_of Sample.alice).
Proof.
  cbv zeta. split; [|split; reflexivity].
  apply reachable_call; [exact sample_reachable|].
  unfold randomInt_range. cbn. lia.
Qed.

(** C6, as stated, fails: the five wrong passwords of [five_wrong] lock the
    account, and at instant 6000, inside the lockout window, [initiateLogin]
    with an unknown email throws [InvalidCredentials] while [initiateLogin]
    with the known email and a wrong password throws [AccountLocked]: the
    caller tells the two runs apart by the message. *)
Lemma locked_account_is_told_apart :
  let d := attempts Sample.compare "alice@example.com" Sample.five_wrong Sample.db in
  reachable Sample.hash Sample.compare Sample.db d
  /\ account "mallory@example.com" d = None
  /\ (exists user,
        account "alice@example.com" d = Some user
        /\ Sample.compare "guess" (User.password user) = false)
  /\ result (initiateLogin Sample.compare Sample.unknown_login None None (Sample.env_at 6000)) d
     = inl InvalidCredentials
  /\ result (initiateLogin Sample.compare Sample.wrong_login None None (Sample.env_at 6000)) d
     = inl AccountLocked
  /\ result (initiateLogin Sample.compare Sample.unknown_login None None (Sample.env_at 6000)) d
     <> result (initiateLogin Sample.compare Sample.wrong_login None None (Sample.env_at 6000)) d.
Proof.
  cbv zeta. split.
  { apply attempts_reachable; [|apply reachable_start].
    repeat constructor; cbn; lia. }
  split; [reflexivity|]. split.
  { eexists. split; reflexivity. }
  split; [reflexivity|]. split; [reflexivity|].
  intros H. vm_compute in H. discriminate H.
Qed.

(** C3 on the code: three outcomes that write no Security Event.
    [verifyOTP] for an unknown email fails with [NotFound];
    [initiateLogin] with the right password fails with
    [NotificationDeliveryFailed] when the mail is not delivered, the
    challenge being stored all the same; and [initiateLogin] throws a
    [TypeError] for an account that is locked and has no
    [lastFailedAttempt]. *)
Theorem outcomes_without_security_event :
  (result (verifyOTP (mkOTPVerification "mallory@example.com" "123456") None None
             (Sample.env_at 1000)) Sample.db = inl NotFound
   /\ events_written (verifyOTP (mkOTPVerification "mallory@example.com" "123456") None None
                        (Sample.env_at 1000)) Sample.db = 0)
  /\ (result (initiateLogin Sample.compare Sample.right_login None None
                (mkEnv 1000 123456 false)) Sample.db = inl NotificationDeliveryFailed
      /\ events_written (initiateLogin Sample.compare Sample.right_login None None
                           (mkEnv 1000 123456 false)) Sample.db = 0
      /\ otps (after (initiateLogin Sample.compare Sample.right_login None None
                        (mkEnv 1000 123456 false)) Sample.db) = [Sample.challenge])
  /\ (result (initiateLogin Sample.compare Sample.right_login None None (Sample.env_at 8000))
        Sample.db_stuck
      = inl (TypeError "Cannot read properties of null (reading 'getTime')")
      /\ events_written (initiateLogin Sample.compare Sample.right_login None None
                           (Sample.env_at 8000)) Sample.db_stuck = 0).
Proof.
  repeat split; reflexivity.
Qed.

(** A state the calls lead to in which the account can no longer log in:
    a challenge is issued at instant 1000, five wrong passwords lock the
    account, and the challenge is then verified at instant 7000. *)
Example locked_then_verified_is_stuck :
  let d := exec Sample.hash Sample.compare
             (CallVerifyOTP (mkOTPVerification "alice@example.com" "123456") None None)
             (Sample.env_at 7000)
             (attempts Sample.compare "alice@example.com" Sample.five_wrong
                Sample.db_issued) in
  reachable Sample.hash Sample.compare Sample.db d
  /\ account "alice@example.com" d = Some Sample.alice_stuck
  /\ forall (password : string) (ipAddress userAgent : option string) (env : Env),
       initiateLogin Sample.compare (mkLoginData "alice@example.com" password)
         ipAddress userAgent env d
       = (inl (TypeError "Cannot read properties of null (reading 'getTime')"), d).
Proof.
  cbv zeta. split; [|split].
  - apply reachable_call; [|unfold randomInt_range; cbn; lia].
    apply attempts_reachable; [|exact sample_reachable].
    repeat constructor; cbn; lia.
  - reflexivity.
  - intros password ip ua env.
    apply (initiateLogin_stuck Sample.compare _ Sample.alice_stuck); reflexivity.
Qed.

(** ** Further theorems at sample inputs *)

Lemma sample_keys_unique : keys_unique Sample.db.
Proof.
  unfold keys_unique. cbn.
  repeat split; repeat constructor; cbn; try lia; intros [].
Defined.

Lemma sample_issued_keys_unique : keys_unique Sample.db_issued.
Proof.
  unfold keys_unique. cbn.
  repeat split; repeat constructor; cbn; try lia; intros [].
Defined.

Lemma login_calls_keep_accounts_witness :
  same_accounts Sample.db
    (exec Sample.hash Sample.compare (CallInitiateLogin Sample.wrong_login None None)
       (Sample.env_at 1000) Sample.db).
Proof.
  apply (login_calls_keep_accounts Sample.hash Sample.compare
           (CallInitiateLogin Sample.wrong_login None None) (Sample.env_at 1000) Sample.db I).
Defined.

Lemma reachable_keys_unique_witness :
  keys_unique Sample.db
  /\ reachable Sample.hash Sample.compare Sample.db Sample.db_issued
  /\ keys_unique Sample.db_issued.
Proof.
  split; [exact sample_keys_unique|]. split; [exact sample_reachable|].
  exact (reachable_keys_unique Sample.hash Sample.compare Sample.db Sample.db_issued
           sample_keys_unique sample_reachable).
Defined.

Lemma registerUser_existing_email_witness :
  account "alice@example.com" Sample.db = Some Sample.alice
  /\ registerUser Sample.hash "alice@example.com" "another password" None None
       (Sample.env_at 1000) Sample.db
     = (inl (Error "User already exists"), Sample.db).
Proof.
  split; [reflexivity|].
  exact (registerUser_existing_email Sample.hash "alice@example.com" "another password"
           None None (Sample.env_at 1000) Sample.db Sample.alice eq_refl).
Defined.

Lemma registerUser_new_email_witness :
  account "bob@example.com" Sample.db = None
  /\ result (registerUser Sample.hash "bob@example.com" "tr0ub4dor" (Some "Bob") None
               (Sample.env_at 1000)) Sample.db
     = inr (2, "bob@example.com", Some "Bob", None)
  /\ events_written (registerUser Sample.hash "bob@example.com" "tr0ub4dor" (Some "Bob") None
                       (Sample.env_at 1000)) Sample.db = 1.
Proof.
  split; [reflexivity|].
  destruct (registerUser_new_email Sample.hash "bob@example.com" "tr0ub4dor" (Some "Bob") None
              (Sample.env_at 1000) Sample.db eq_refl) as (H1 & _ & _ & H4 & _).
  split; [exact H1|exact H4].
Defined.

Lemma resendOTP_unknown_email_witness :
  account "mallory@example.com" Sample.db = None
  /\ resendOTP "mallory@example.com" None None (Sample.env_at 1000) Sample.db
     = (inl NotFound, Sample.db).
Proof.
  split; [reflexivity|].
  exact (resendOTP_unknown_email "mallory@example.com" None None (Sample.env_at 1000)
           Sample.db eq_refl).
Defined.

Lemma resendOTP_known_email_witness :
  account "alice@example.com" Sample.db_locked = Some Sample.alice_locked
  /\ otps (after (resendOTP "alice@example.com" None None (mkEnv 6000 654321 false))
             Sample.db_locked)
     = [OTP.mk 1 "alice@example.com" "654321" 606000 (Some false) (Some 0) (Some 6000)]
  /\ result (resendOTP "alice@example.com" None None (mkEnv 6000 654321 false))
       Sample.db_locked = inl NotificationDeliveryFailed.
Proof.
  split; [reflexivity|].
  destruct (resendOTP_known_email "alice@example.com" None None (mkEnv 6000 654321 false)
              Sample.db_locked Sample.alice_locked eq_refl) as (H1 & H2 & _).
  split; [exact H2|exact H1].
Defined.

Lemma register_then_profile_witness :
  keys_unique Sample.db
  /\ account "bob@example.com" Sample.db = None
  /\ getUserProfile 2
       (after (registerUser Sample.hash "bob@example.com" "tr0ub4dor" (Some "Bob") None
                 (Sample.env_at 1000)) Sample.db)
     = (inr (mkProfile 2 "bob@example.com" (Some "Bob") None None None),
        after (registerUser Sample.hash "bob@example.com" "tr0ub4dor" (Some "Bob") None
                 (Sample.env_at 1000)) Sample.db).
Proof.
  split; [exact sample_keys_unique|]. split; [reflexivity|].
  exact (proj2 (register_then_profile Sample.hash "bob@example.com" "tr0ub4dor" (Some "Bob")
                  None (Sample.env_at 1000) Sample.db sample_keys_unique eq_refl)).
Defined.

Lemma register_then_login_witness :
  account "bob@example.com" Sample.db = None
  /\ Sample.compare "tr0ub4dor" (Sample.hash "tr0ub4dor" SALT_ROUNDS) = true
  /\ result (initiateLogin Sample.compare (mkLoginData "bob@example.com" "tr0ub4dor")
               None None (Sample.env_at 2000))
       (after (registerUser Sample.hash "bob@example.com" "tr0ub4dor" (Some "Bob") None
                 (Sample.env_at 1000)) Sample.db)
     = inr (mkLoginAck "OTP sent to your email" "bob@example.com").
Proof.
  split; [reflexivity|]. split; [reflexivity|].
  exact (proj1 (register_then_login Sample.hash Sample.compare "bob@example.com" "tr0ub4dor"
                  (Some "Bob") None (Sample.env_at 1000) (Sample.env_at 2000) Sample.db
                  None None eq_refl eq_refl)).
Defined.

Lemma initiateLogin_right_password_witness :
  account "alice@example.com" Sample.db = Some Sample.alice
  /\ Sample.compare "correct horse" (User.password Sample.alice) = true
  /\ users (after (initiateLogin Sample.compare Sample.right_login None None
                     (mkEnv 1000 123456 false)) Sample.db) = users Sample.db
  /\ otps (after (initiateLogin Sample.compare Sample.right_login None None
                    (mkEnv 1000 123456 false)) Sample.db) = [Sample.challenge].
Proof.
  split; [reflexivity|]. split; [reflexivity|].
  destruct (initiateLogin_right_password Sample.compare Sample.db Sample.alice
              Sample.right_login None None (mkEnv 1000 123456 false)
              eq_refl eq_refl eq_refl) as (_ & H2 & H3 & _).
  split; [exact H3|exact H2].
Defined.

Lemma other_accounts_untouched_witness :
  keys_unique Sample.db
  /\ account "alice@example.com"
       (exec Sample.hash Sample.compare (CallInitiateLogin Sample.unknown_login None None)
          (Sample.env_at 1000) Sample.db)
     = account "alice@example.com" Sample.db.
Proof.
  split; [exact sample_keys_unique|].
  apply (other_accounts_untouched Sample.hash Sample.compare
           (CallInitiateLogin Sample.unknown_login None None) (Sample.env_at 1000) Sample.db
           "alice@example.com" sample_keys_unique I).
  cbn. discriminate.
Defined.

Lemma resend_then_verify_witness :
  attempts_default Sample.db_locked
  /\ account "alice@example.com" Sample.db_locked = Some Sample.alice_locked
  /\ result (verifyOTP (mkOTPVerification "alice@example.com" "654321") None None
               (Sample.env_at 7000))
       (after (resendOTP "alice@example.com" None None (mkEnv 6000 654321 false))
          Sample.db_locked)
     = inr (profile_of Sample.alice_locked)
  /\ result (verifyOTP (mkOTPVerification "alice@example.com" "654321") None None
               (Sample.env_at 606000))
       (after (resendOTP "alice@example.com" None None (mkEnv 6000 654321 false))
          Sample.db_locked)
     = inl InvalidOrExpiredOTP.
Proof.
  assert (H0 : attempts_default Sample.db_locked) by constructor.
  split; [exact H0|]. split; [reflexivity|].
  destruct (resend_then_verify Sample.db_locked Sample.alice_locked "alice@example.com"
              None None None None (mkEnv 6000 654321 false) (Sample.env_at 7000)
              H0 eq_refl) as [Hin _].
  destruct (resend_then_verify Sample.db_locked Sample.alice_locked "alice@example.com"
              None None None None (mkEnv 6000 654321 false) (Sample.env_at 606000)
              H0 eq_refl) as [_ Hout].
  split.
  - apply Hin. reflexivity.
  - apply Hout; [cbn; lia|]. intros o [].
Defined.

Lemma login_then_verify_witness :
  attempts_default Sample.db
  /\ account "alice@example.com" Sample.db = Some Sample.alice
  /\ result (verifyOTP (mkOTPVerification "alice@example.com" "123456") None None
               (Sample.env_at 2000))
       (after (initiateLogin Sample.compare Sample.right_login None None
                 (Sample.env_at 1000)) Sample.db)
     = inr (profile_of Sample.alice).
Proof.
  assert (H0 : attempts_default Sample.db) by constructor.
  split; [exact H0|]. split; [reflexivity|].
  apply (login_then_verify Sample.compare Sample.db Sample.alice Sample.right_login
           None None None None (Sample.env_at 1000) (Sample.env_at 2000)
           H0 eq_refl eq_refl eq_refl).
  reflexivity.
Defined.

Lemma verified_code_is_spent_witness :
  result (verifyOTP (mkOTPVerification "alice@example.com" "123456") None None
            (Sample.env_at 2000)) Sample.db_issued = inr (profile_of Sample.alice)
  /\ result (verifyOTP (mkOTPVerification "alice@example.com" "123456") None None
               (Sample.env_at 3000))
       (after (verifyOTP (mkOTPVerification "alice@example.com" "123456") None None
                 (Sample.env_at 2000)) Sample.db_issued)
     = inl InvalidOrExpiredOTP.
Proof.
  split; [reflexivity|].
  apply (verified_code_is_spent Sample.db_issued
           (mkOTPVerification "alice@example.com" "123456") None None None None
           (Sample.env_at 2000) (Sample.env_at 3000) (profile_of Sample.alice) eq_refl).
  - intros o o' (Hin & _) (Hin' & _). cbn in Hin, Hin'.
    destruct Hin as [<-|[]], Hin' as [<-|[]]. reflexivity.
  - cbn. lia.
Defined.

Lemma verified_while_locked_is_stuck_witness :
  account "alice@example.com" Sample.db_locked_issued = Some Sample.alice_locked_issued
  /\ result (verifyOTP (mkOTPVerification "alice@example.com" "123456") None None
               (Sample.env_at 7000)) Sample.db_locked_issued
     = inr (profile_of Sample.alice_locked_issued)
  /\ result (initiateLogin Sample.compare Sample.right_login None None
               (Sample.env_at 9000000))
       (after (verifyOTP (mkOTPVerification "alice@example.com" "123456") None None
                 (Sample.env_at 7000)) Sample.db_locked_issued)
     = inl (TypeError "Cannot read properties of null (reading 'getTime')").
Proof.
  split; [reflexivity|]. split; [reflexivity|].
  destruct (verified_while_locked_is_stuck Sample.compare Sample.db_locked_issued
              Sample.alice_locked_issued (mkOTPVerification "alice@example.com" "123456")
              None None (Sample.env_at 7000) (profile_of Sample.alice_locked_issued)
              eq_refl eq_refl eq_refl) as [_ H].
  exact (f_equal fst (H "correct horse" None None (Sample.env_at 9000000))).
Defined.

Lemma attempts_limit_after_increments_witness :
  keys_unique Sample.db_issued
  /\ attempts_default Sample.db_issued
  /\ find (storage.validOTP "alice@example.com" "123456" 2000) (otps Sample.db_issued)
     = Some Sample.challenge
  /\ result (verifyOTP (mkOTPVerification "alice@example.com" "123456") None None
               (Sample.env_at 2000))
       (increments 3 1 Sample.db_issued) = inl OTPAttemptsExceeded
  /\ result (verifyOTP (mkOTPVerification "alice@example.com" "123456") None None
               (Sample.env_at 2000))
       (increments 2 1 Sample.db_issued) = inr (profile_of Sample.alice).
Proof.
  assert (H0 : attempts_default Sample.db_issued) by (repeat constructor).
  split; [exact sample_issued_keys_unique|]. split; [exact H0|]. split; [reflexivity|].
  split.
  - exact (proj1 (attempts_limit_after_increments Sample.db_issued Sample.alice
                    Sample.challenge "alice@example.com" "123456" None None
                    (Sample.env_at 2000) 3 sample_issued_keys_unique H0 eq_refl eq_refl)).
  - exact (proj1 (attempts_limit_after_increments Sample.db_issued Sample.alice
                    Sample.challenge "alice@example.com" "123456" None None
                    (Sample.env_at 2000) 2 sample_issued_keys_unique H0 eq_refl eq_refl)).
Defined.

Lemma complete_task_counts_witness :
  NoDup (map Task.id (tasks Sample.db_tasks))
  /\ In Sample.alice_task (tasks Sample.db_tasks)
  /\ analytics 1 Sample.db_tasks = (0, 1, 1)
  /\ analytics 1 (after (storage.updateTask 2 None (Some true) 300) Sample.db_tasks)
     = (1, 0, 1)
  /\ analytics 2 (after (storage.updateTask 2 None (Some true) 300) Sample.db_tasks)
     = analytics 2 Sample.db_tasks.
Proof.
  assert (Hnd : NoDup (map Task.id (tasks Sample.db_tasks))).
  { cbn. repeat constructor; cbn; [intros [H|[]]; discriminate|intros []]. }
  assert (Hin : In Sample.alice_task (tasks Sample.db_tasks)) by (right; left; reflexivity).
  split; [exact Hnd|]. split; [exact Hin|]. split; [reflexivity|].
  destruct (complete_task_counts Sample.alice_task 300 Sample.db_tasks Hnd Hin eq_refl)
    as [(c & p & t & H1 & H2 & _) H3].
  cbn [Sample.alice_task Task.id Task.userId] in H2, H3.
  split.
  - rewrite H2. cbn in H1. injection H1 as <- <- <-. reflexivity.
  - apply H3. discriminate.
Defined.

Lemma formatTimeAgo_rounds_down_witness :
  0 <= 5400000
  /\ formatTimeAgo 5400000 0 = "1h ago"
  /\ exists n unit suffix,
       formatTimeAgo 5400000 0 = toString n ++ suffix
       /\ n * unit <= 5400000 - 0 < (n + 1) * unit.
Proof.
  split; [lia|]. split; [reflexivity|].
  destruct (formatTimeAgo_rounds_down 5400000 0 ltac:(lia)) as (n & u & s & H1 & _ & H3 & _).
  exists n, u, s. split; assumption.
Defined.

Lemma formatTimeAgo_future_witness :
  0 < 90000
  /\ formatTimeAgo 0 90000 = "-90s ago"
  /\ exists n, formatTimeAgo 0 90000 = toString n ++ "s ago" /\ n < 0.
Proof.
  split; [lia|]. split; [reflexivity|].
  destruct (formatTimeAgo_future 0 90000 ltac:(lia)) as (n & H1 & H2 & _).
  exists n. split; assumption.
Defined.

Lemma generated_code_is_valid_witness :
  randomInt_range 100000
  /\ generateOTPCode 100000 = "100000"
  /\ validateOTPCode (generateOTPCode 100000) = true.
Proof.
  assert (H : randomInt_range 100000) by (unfold randomInt_range; lia).
  split; [exact H|]. split; [reflexivity|].
  exact (proj1 (generated_code_is_valid 100000 H)).
Defined.

Lemma cart_add_then_remove_witness :
  cart_positive Sample.cart
  /\ removeFromCart "f2" (addToCart "f2" Sample.cart) = Sample.cart.
Proof.
  assert (H : cart_positive Sample.cart)
    by (repeat constructor; cbn; lia).
  split; [exact H|].
  exact (proj1 (cart_add_then_remove "f2" Sample.cart H)).
Defined.

Lemma cart_total_follows_updates_witness :
  NoDup (map fst Sample.cart)
  /\ cart_positive Sample.cart
  /\ getTotalCartAmount (addToCart "f2" Sample.cart) Sample.menu
     = getTotalCartAmount Sample.cart Sample.menu + 80.
Proof.
  assert (Hnd : NoDup (map fst Sample.cart))
    by (repeat constructor; cbn; intros []).
  assert (H : cart_positive Sample.cart)
    by (repeat constructor; cbn; lia).
  split; [exact Hnd|]. split; [exact H|].
  exact (proj1 (cart_total_follows_updates Sample.menu "f2" Sample.cart Hnd H)).
Defined.
